(** * eventz.marshall: the marshalling engine and its name resolver

    A shallow embedding of [src/eventz/marshall.py]: the classes [FqnResolver]
    and [Marshall], with the Python values they traverse, the exceptions they
    raise and the two [json] library calls they make. *)

From Stdlib Require Import ZArith Lia Ascii String List Bool.
From Stdlib Require Import Sorting.Permutation Sorting.Sorted.
From Stdlib Require Import Numbers.DecimalString.
From Stdlib Require Numbers.DecimalZ Numbers.DecimalPos Numbers.DecimalFacts.
From Stdlib Require Structures.OrderedTypeEx.
Import ListNotations.
Local Open Scope string_scope.
Local Open Scope list_scope.

Set Implicit Arguments.
Set Warnings "-register-all".

(** ** Python values

    Mapping keys are the hashable scalars [json.dumps] accepts as keys (None,
    booleans, integers, text).  Floating-point numbers are left out of the
    model.  A Python [str] is a sequence of code points; a [string] here is a
    sequence of code points below 256. *)

Inductive key : Type :=
| KNone
| KBool (b : bool)
| KInt (n : Z)
| KStr (s : string).

(** An instance of a user class is known by the module and the name of its
    class, the attributes its class defines ([class_attrs]), the result of its
    [get_json_data()] method when it has a callable one, and its instance
    dictionary ([vars(obj)]). *)
Inductive value : Type :=
| VNone
| VBool (b : bool)
| VInt (n : Z)
| VStr (s : string)
| VDatetime (t : Z)
| VList (xs : list value)
| VTuple (xs : list value)
| VDict (kvs : list (key * value))
| VSet (ks : list key)
| VMap (kvs : list (key * value))
| VObject (cls_module cls_name : string)
          (class_attrs : list (string * value))
          (json_data : option (list (string * value)))
          (vars : list (string * value)).

(** ** Exceptions

    The built-in exceptions the module's operations raise, and the one
    exception class the module declares itself ([NoCodecError]). *)
Inductive exn : Type :=
| KeyError (k : value)
| IndexError
| TypeError
| AttributeError
| ValueError
| ModuleNotFoundError
| RecursionError
| JSONDecodeError
| NoCodecError.

Inductive result (A : Type) : Type :=
| Ok (a : A)
| Err (e : exn).
Arguments Ok {A} a.
Arguments Err {A} e.

Definition bind {A B} (m : result A) (f : A -> result B) : result B :=
  match m with
  | Ok a => f a
  | Err e => Err e
  end.

Notation "x <- m ;; k" := (bind m (fun x => k))
  (at level 61, m at next level, right associativity).

(** [for x in xs: out.append(f(x))], stopping at the first exception. *)
Definition mapM {A B} (f : A -> result B) : list A -> result (list B) :=
  fix go (l : list A) : result (list B) :=
    match l with
    | [] => Ok []
    | x :: l' => y <- f x ;; ys <- go l' ;; Ok (y :: ys)
    end.

Definition is_ok {A} (r : result A) : bool :=
  match r with Ok _ => true | Err _ => false end.

(** ** Decidable equality of keys, as Python's [==] and [hash] see them

    [True == 1] and [False == 0]: a boolean key and the integer it equals are
    one key of a dict. *)
Definition key_num (k : key) : option Z :=
  match k with
  | KBool b => Some (if b then 1 else 0)%Z
  | KInt n => Some n
  | _ => None
  end.

Definition key_eqb (a b : key) : bool :=
  match a, b with
  | KNone, KNone => true
  | KStr s, KStr t => String.eqb s t
  | _, _ => match key_num a, key_num b with
            | Some m, Some n => Z.eqb m n
            | _, _ => false
            end
  end.

(** ** Insertion-ordered dictionaries

    A Python [dict] keeps its keys in insertion order; assigning to a key it
    already holds replaces the value in place. *)
Section Dict.
Variables (K V : Type) (eqb : K -> K -> bool).

Fixpoint dict_get (d : list (K * V)) (k : K) : option V :=
  match d with
  | [] => None
  | (k', v) :: d' => if eqb k k' then Some v else dict_get d' k
  end.

Fixpoint dict_set (d : list (K * V)) (k : K) (v : V) : list (K * V) :=
  match d with
  | [] => [(k, v)]
  | (k', v') :: d' =>
      if eqb k k' then (k', v) :: d' else (k', v') :: dict_set d' k v
  end.

Fixpoint dict_del (d : list (K * V)) (k : K) : list (K * V) :=
  match d with
  | [] => []
  | (k', v') :: d' => if eqb k k' then d' else (k', v') :: dict_del d' k
  end.

Definition dict_mem (d : list (K * V)) (k : K) : bool :=
  match dict_get d k with Some _ => true | None => false end.

(** [dict(items)] and dict comprehensions: the items are assigned in order. *)
Definition dict_of_items (items : list (K * V)) : list (K * V) :=
  fold_left (fun d kv => dict_set d (fst kv) (snd kv)) items [].
End Dict.

(** ** Text operations used by the resolver *)

(** [s.split(sep)] for a one-character separator. *)
Fixpoint split (sep : ascii) (s : string) : list string :=
  match s with
  | EmptyString => [EmptyString]
  | String c s' =>
      if Ascii.eqb c sep then EmptyString :: split sep s'
      else match split sep s' with
           | [] => [String c EmptyString]
           | p :: ps => String c p :: ps
           end
  end.

(** [c in s] for a one-character [c]. *)
Fixpoint contains (c : ascii) (s : string) : bool :=
  match s with
  | EmptyString => false
  | String c' s' => Ascii.eqb c' c || contains c s'
  end.

(** [s[-1]]: the last character, [None] where Python raises IndexError. *)
Fixpoint last_char (s : string) : option ascii :=
  match s with
  | EmptyString => None
  | String c EmptyString => Some c
  | String _ s' => last_char s'
  end.

(** [s[:-1]]. *)
Fixpoint drop_last (s : string) : string :=
  match s with
  | EmptyString => EmptyString
  | String _ EmptyString => EmptyString
  | String c s' => String c (drop_last s')
  end.

(** [s[n:]]. *)
Fixpoint string_drop (n : nat) (s : string) : string :=
  match n, s with
  | S n', String _ s' => string_drop n' s'
  | _, _ => s
  end.

(** [s.startswith(p)]. *)
Definition startswith (p s : string) : bool := String.prefix p s.

(** ** FqnResolver *)

Record FqnResolver : Type := {
  _public_to_private : list (string * string);
  _private_to_public : list (string * string)
}.

(** [FqnResolver.__init__]: the reverse table is the dict comprehension
    [{b: a for a, b in fqn_map.items()}]. *)
Definition new_FqnResolver (fqn_map : list (string * string)) : FqnResolver :=
  {| _public_to_private := fqn_map;
     _private_to_public :=
       dict_of_items String.eqb (map (fun ab => (snd ab, fst ab)) fqn_map) |}.

Definition _lookup_fqn (r : FqnResolver) (k : string) (public : bool)
  : result string :=
  let table := if public then _public_to_private r else _private_to_public r in
  match dict_get String.eqb table k with
  | Some p => Ok p
  | None => Err (KeyError (VStr k))
  end.

Definition _get_fqn (r : FqnResolver) (k : string) (public : bool)
  : result string :=
  match _lookup_fqn r k public with
  | Ok p => Ok p
  | Err (KeyError e) =>
      match last_char k with
      | None => Err IndexError
      | Some c =>
          if negb (Ascii.eqb c "*") && contains "." k then
            let parts := split "." k in
            let entity := last parts EmptyString in
            let parts := removelast parts in
            let star_key := String.concat "." (parts ++ ["*"]) in
            path <- _lookup_fqn r star_key public ;;
            let path_without_star := drop_last path in
            Ok (path_without_star ++ entity)%string
          else Err (KeyError e)
      end
  | Err e => Err e
  end.

(** [instance_to_fqn]: the private path of an instance is the module and the
    name of its class. *)
Definition class_path (cls_module cls_name : string) : string :=
  (cls_module ++ "." ++ cls_name)%string.

Definition instance_to_fqn (r : FqnResolver) (cls_module cls_name : string)
  : result string :=
  _get_fqn r (class_path cls_module cls_name) false.

(** [module_path.rsplit(".", 1)]: [None] when there is no separator, where the
    unpacking into two names raises ValueError. *)
Definition rsplit1 (s : string) : option (string * string) :=
  let parts := split "." s in
  match parts with
  | [] | [_] => None
  | _ => Some (String.concat "." (removelast parts), last parts EmptyString)
  end.

(** ** The interpreter's classes and the codecs

    What the engine asks of a class object it resolved: calling it with
    keyword arguments and reading one of its attributes.  What it asks of a
    codec: the three operations of [MarshallCodecProtocol]. *)
Record pyclass : Type := {
  cls_call : list (string * value) -> result value;
  cls_getattr : string -> option value
}.

Record codec : Type := {
  handles : value -> bool;
  serialise : value -> result value;
  deserialise : value -> result value
}.

Record Marshall : Type := {
  _fqn_resolver : FqnResolver;
  _codecs : list (string * codec)
}.

(** [Marshall.__init__]: no codecs unless a dict of them is given. *)
Definition new_Marshall (r : FqnResolver) (codecs : option (list (string * codec)))
  : Marshall :=
  {| _fqn_resolver := r;
     _codecs := match codecs with None => [] | Some c => c end |}.

Definition register_codec (m : Marshall) (fcn : string) (c : codec) : Marshall :=
  {| _fqn_resolver := _fqn_resolver m;
     _codecs := dict_set String.eqb (_codecs m) fcn c |}.

Definition deregister_codec (m : Marshall) (fcn : string) : result Marshall :=
  if dict_mem String.eqb (_codecs m) fcn
  then Ok {| _fqn_resolver := _fqn_resolver m;
             _codecs := dict_del String.eqb (_codecs m) fcn |}
  else Err (KeyError (VStr fcn)).

Definition has_codec (m : Marshall) (fcn : string) : bool :=
  dict_mem String.eqb (_codecs m) fcn.

(** Registering a list of named codecs, one call after the other. *)
Definition register_all (m : Marshall) (cs : list (string * codec)) : Marshall :=
  fold_left (fun m nc => register_codec m (fst nc) (snd nc)) cs m.

(** ** Attribute access and truth value *)

(** [getattr(obj, name)]: the instance dictionary first, then the class. *)
Definition getattr {A} (class_attrs vars : list (string * A)) (name : string)
  : option A :=
  match dict_get String.eqb vars name with
  | Some v => Some v
  | None => dict_get String.eqb class_attrs name
  end.

Definition hasattr {A} (class_attrs vars : list (string * A)) (name : string)
  : bool :=
  match getattr class_attrs vars name with Some _ => true | None => false end.

(** The truth value [if x:] tests. *)
Definition truthy (v : value) : bool :=
  match v with
  | VNone => false
  | VBool b => b
  | VInt n => negb (Z.eqb n 0)
  | VStr s => negb (String.eqb s "")
  | VDatetime _ => true
  | VList xs | VTuple xs => match xs with [] => false | _ => true end
  | VDict kvs | VMap kvs => match kvs with [] => false | _ => true end
  | VSet ks => match ks with [] => false | _ => true end
  | VObject _ _ _ _ _ => true
  end.

(** Whether [hash(v)] succeeds, as a dict subscript needs. *)
Fixpoint hashable (v : value) : bool :=
  match v with
  | VList _ | VDict _ | VSet _ => false
  | VTuple xs => forallb hashable xs
  | VMap kvs => forallb (fun kv => hashable (snd kv)) kvs
  | _ => true
  end.

(** ** The predicates of [Marshall] *)

Definition _is_handled_by_codec (m : Marshall) (data : value) : bool :=
  existsb (fun c => handles (snd c) data) (_codecs m).

Definition _is_sequence (data : value) : bool :=
  match data with VList _ | VTuple _ => true | _ => false end.

Definition _is_mapping (data : value) : bool :=
  match data with VDict _ | VSet _ | VMap _ => true | _ => false end.

Definition _is_simple_type (data : value) : bool :=
  match data with
  | VObject cls_module _ _ _ _ => String.eqb cls_module "builtins"
  | _ => true
  end.

Definition key_in (k : string) (kvs : list (key * value)) : bool :=
  dict_mem key_eqb kvs (KStr k).

Definition _is_enum_dict (data : value) : bool :=
  match data with
  | VDict kvs => key_in "_value_" kvs && key_in "_name_" kvs
  | _ => false
  end.

Definition _is_serialised_class (data : value) : bool :=
  match data with
  | VDict kvs => key_in "__fqn__" kvs
  | _ => false
  end.

Definition _requires_codec (data : value) : bool :=
  match data with
  | VDict kvs => key_in "__codec__" kvs
  | _ => false
  end.

(** The branch of [deserialise_data] a node takes: the tests of its
    [if]/[elif] chain, in their order. *)
Inductive node_class : Type :=
| EnumEnvelope
| ObjectEnvelope
| CodecEnvelope
| Sequence
| PlainMapping
| Leaf.

Definition classify (data : value) : node_class :=
  if _is_enum_dict data then EnumEnvelope
  else if _is_serialised_class data then ObjectEnvelope
  else if _requires_codec data then CodecEnvelope
  else if _is_sequence data then Sequence
  else if _is_mapping data then PlainMapping
  else Leaf.

(** The keys the engine itself writes into an envelope or reads from one. *)
Definition reserved_keys : list string :=
  ["__fqn__"; "__version__"; "__msgid__"; "__timestamp__"; "__codec__";
   "params"; "_name_"; "_value_"].

(** The reserved keys that begin with the marker the encoder filters on. *)
Definition marked_keys : list string :=
  ["__fqn__"; "__version__"; "__msgid__"; "__timestamp__"; "__codec__"].

(** Python's mutable built-in containers. *)
Definition is_mutable_container (v : value) : bool :=
  match v with VList _ | VDict _ | VSet _ => true | _ => false end.

(** ** Encoding *)

(** The loop of [_object_to_codec_dict]; falling off its end returns None. *)
Fixpoint first_codec (cs : list (string * codec)) (obj : value) : option codec :=
  match cs with
  | [] => None
  | (_, c) :: cs' => if handles c obj then Some c else first_codec cs' obj
  end.

Definition _object_to_codec_dict (m : Marshall) (obj : value) : result value :=
  match first_codec (_codecs m) obj with
  | Some c => serialise c obj
  | None => Ok VNone
  end.

(** [for k, v in items: if keep(k): out[k] = f(v)], the assignments collected
    in order. *)
Definition for_items {K A B} (keep : K -> bool) (f : A -> result B)
  : list (K * A) -> result (list (K * B)) :=
  fix go (l : list (K * A)) : result (list (K * B)) :=
    match l with
    | [] => Ok []
    | (k, a) :: l' =>
        if keep k then b <- f a ;; r <- go l' ;; Ok ((k, b) :: r) else go l'
    end.

(** [d[k] = v] for every collected assignment. *)
Definition assign_all {K V} (eqb : K -> K -> bool) (d : list (K * V))
  (items : list (K * V)) : list (K * V) :=
  fold_left (fun d kv => dict_set eqb d (fst kv) (snd kv)) items d.

(** [f(getattr(obj, name))] when the attribute exists. *)
Definition with_attr {A B} (f : A -> B) (name : string)
  : list (string * A) -> option B :=
  fix go (l : list (string * A)) : option B :=
    match l with
    | [] => None
    | (k, a) :: l' => if String.eqb name k then Some (f a) else go l'
    end.

Definition str_keys (d : list (string * value)) : list (key * value) :=
  map (fun kv => (KStr (fst kv), snd kv)) d.

Definition is_dunder (attr : string) : bool := startswith "__" attr.

(** [_object_to_dict]; [serialise_data] is the method it calls back for the
    timestamp and for every exported field. *)
Definition _object_to_dict (serialise_data : value -> result value)
  (r : FqnResolver) (cls_module cls_name : string)
  (class_attrs : list (string * value))
  (json_data : option (list (string * value)))
  (vars : list (string * value)) : result value :=
  fqn <- instance_to_fqn r cls_module cls_name ;;
  let data0 := [("__fqn__", VStr fqn)] in
  let data1 :=
    match getattr class_attrs vars "__version__" with
    | Some v => dict_set String.eqb data0 "__version__" v
    | None => data0
    end in
  let data2 :=
    match getattr class_attrs vars "__msgid__" with
    | Some v => dict_set String.eqb data1 "__msgid__" v
    | None => data1
    end in
  data3 <-
    match with_attr serialise_data "__timestamp__" vars with
    | Some t' => t <- t' ;; Ok (dict_set String.eqb data2 "__timestamp__" t)
    | None =>
        match with_attr serialise_data "__timestamp__" class_attrs with
        | Some t' => t <- t' ;; Ok (dict_set String.eqb data2 "__timestamp__" t)
        | None => Ok data2
        end
    end ;;
  fields <-
    for_items (fun attr => negb (is_dunder attr)) serialise_data
      match json_data with Some d => d | None => vars end ;;
  Ok (VDict (str_keys (assign_all String.eqb data3 fields))).

Fixpoint serialise_data (m : Marshall) (data : value) {struct data}
  : result value :=
  if _is_handled_by_codec m data then _object_to_codec_dict m data
  else
    match data with
    | VList xs | VTuple xs =>
        new_sequence <- mapM (serialise_data m) xs ;;
        Ok (VList new_sequence)
    | VDict kvs | VMap kvs =>
        items <- for_items (fun _ => true) (serialise_data m) kvs ;;
        Ok (VDict (assign_all key_eqb [] items))
    | VSet _ => Err AttributeError
    | VObject cls_module cls_name class_attrs json_data vars =>
        if String.eqb cls_module "builtins" then Ok data
        else _object_to_dict (serialise_data m) (_fqn_resolver m)
               cls_module cls_name class_attrs json_data vars
    | _ => Ok data
    end.

(** ** Decoding *)

(** [f(data.get(name))] when the key is present. *)
Definition with_key {A B} (f : A -> B) (name : string)
  : list (key * A) -> option B :=
  fix go (l : list (key * A)) : option B :=
    match l with
    | [] => None
    | (k, a) :: l' => if key_eqb (KStr name) k then Some (f a) else go l'
    end.

(** The loop of [_dict_to_object]: [key.startswith] exists on text keys only. *)
Definition for_fields {A B} (f : A -> result B)
  : list (key * A) -> result (list (string * B)) :=
  fix go (l : list (key * A)) : result (list (string * B)) :=
    match l with
    | [] => Ok []
    | (KStr s, a) :: l' =>
        if is_dunder s then go l'
        else b <- f a ;; r <- go l' ;; Ok ((s, b) :: r)
    | _ :: _ => Err AttributeError
    end.

(** [data[name]]. *)
Definition getitem (kvs : list (key * value)) (name : string) : result value :=
  match dict_get key_eqb kvs (KStr name) with
  | Some v => Ok v
  | None => Err (KeyError (VStr name))
  end.

Section Interpreter.
(** [importlib.import_module(name)], then [getattr(module, class_name)]. *)
Variable import_module : string -> result (string -> option pyclass).

(** [FqnResolver.fqn_to_type].  A type identifier that is not text never
    resolves: an unhashable one fails in the table lookup, a number, boolean
    or None at [key[-1]], both with TypeError (the class of the exception
    can differ for tuples and immutable maps, which fail as well). *)
Definition fqn_to_type (r : FqnResolver) (fqn : value) : result pyclass :=
  match fqn with
  | VStr k =>
      module_path <- _get_fqn r k true ;;
      match rsplit1 module_path with
      | None => Err ValueError
      | Some (module_name, class_name) =>
          md <- import_module module_name ;;
          match md class_name with
          | Some c => Ok c
          | None => Err AttributeError
          end
      end
  | _ => Err TypeError
  end.

Definition _dict_to_enum (m : Marshall) (kvs : list (key * value))
  : result value :=
  fqn <- getitem kvs "__fqn__" ;;
  _class <- fqn_to_type (_fqn_resolver m) fqn ;;
  name <- getitem kvs "_name_" ;;
  match name with
  | VStr n =>
      match cls_getattr _class n with
      | Some member => Ok member
      | None => Err AttributeError
      end
  | _ => Err TypeError
  end.

Definition _codec_dict_to_object (m : Marshall) (kvs : list (key * value))
  : result value :=
  fcn <- getitem kvs "__codec__" ;;
  if negb (hashable fcn) then Err TypeError
  else
    match match fcn with
          | VStr n => dict_get String.eqb (_codecs m) n
          | _ => None
          end with
    | None => Err (KeyError fcn)
    | Some c => params <- getitem kvs "params" ;; deserialise c params
    end.

(** [_dict_to_object]; [deserialise_data] is the method it calls back. *)
Definition _dict_to_object (deserialise_data : value -> result value)
  (r : FqnResolver) (kvs : list (key * value)) : result value :=
  let kwargs0 :=
    match dict_get key_eqb kvs (KStr "__msgid__") with
    | Some v => if truthy v then [("__msgid__", v)] else []
    | None => []
    end in
  kwargs1 <-
    match with_key
            (fun v => if truthy v then Some (deserialise_data v) else None)
            "__timestamp__" kvs with
    | Some (Some t') =>
        t <- t' ;; Ok (dict_set String.eqb kwargs0 "__timestamp__" t)
    | _ => Ok kwargs0
    end ;;
  fields <- for_fields deserialise_data kvs ;;
  let kwargs := assign_all String.eqb kwargs1 fields in
  fqn <- getitem kvs "__fqn__" ;;
  _class <- fqn_to_type r fqn ;;
  cls_call _class kwargs.

Fixpoint deserialise_data (m : Marshall) (data : value) {struct data}
  : result value :=
  match data with
  | VDict kvs =>
      if _is_enum_dict data then _dict_to_enum m kvs
      else if _is_serialised_class data then
        _dict_to_object (deserialise_data m) (_fqn_resolver m) kvs
      else if _requires_codec data then _codec_dict_to_object m kvs
      else
        items <- for_items (fun _ => true) (deserialise_data m) kvs ;;
        Ok (VMap (assign_all key_eqb [] items))
  | VList xs | VTuple xs =>
      new_sequence <- mapM (deserialise_data m) xs ;;
      Ok (VList new_sequence)
  | VSet _ => Err AttributeError
  | VMap kvs =>
      items <- for_items (fun _ => true) (deserialise_data m) kvs ;;
      Ok (VMap (assign_all key_eqb [] items))
  | _ => Ok data
  end.
End Interpreter.

(** ** The [json] library: documents, [json.dumps] and [json.loads]

    A JSON document is the tree the encoder walks and the decoder builds; its
    text is the byte string exchanged with the caller. *)
Inductive json : Type :=
| JNull
| JBool (b : bool)
| JInt (n : Z)
| JStr (s : string)
| JArr (items : list json)
| JObj (members : list (string * json)).

(** *** Encoding a value: [json.dumps(data, sort_keys=True, separators=(",", ":"))] *)

(** Python's [<] on two keys; [None] where it raises TypeError. *)
Definition key_leb (a b : key) : option bool :=
  match a, b with
  | KStr s, KStr t => Some (String.leb s t)
  | _, _ => match key_num a, key_num b with
            | Some m, Some n => Some (Z.leb m n)
            | _, _ => None
            end
  end.

Definition is_text_key (k : key) : bool :=
  match k with KStr _ => true | _ => false end.

Definition is_num_key (k : key) : bool :=
  match key_num k with Some _ => true | None => false end.

Definition key_le (a b : key) : bool :=
  match key_leb a b with Some c => c | None => false end.

Section Sort.
Variable A : Type.

Fixpoint insert_sorted (x : key * A) (l : list (key * A)) : list (key * A) :=
  match l with
  | [] => [x]
  | y :: l' =>
      if key_le (fst x) (fst y) then x :: l else y :: insert_sorted x l'
  end.

Definition sort_by_key (l : list (key * A)) : list (key * A) :=
  fold_right insert_sorted [] l.

(** [sorted(dct.items())]: fewer than two items need no comparison; text
    keys compare with text keys and numbers with numbers; any other pair of
    keys raises TypeError. *)
Definition sorted_items (l : list (key * A)) : result (list (key * A)) :=
  match l with
  | [] | [_] => Ok l
  | _ =>
      if forallb (fun kv => is_text_key (fst kv)) l
         || forallb (fun kv => is_num_key (fst kv)) l
      then Ok (sort_by_key l)
      else Err TypeError
  end.
End Sort.

Definition string_of_Z (n : Z) : string := NilZero.string_of_int (Z.to_int n).

(** The text of a key in the output: [str(int)], ["true"], ["false"], ["null"]. *)
Definition key_text (k : key) : string :=
  match k with
  | KStr s => s
  | KInt n => string_of_Z n
  | KBool true => "true"
  | KBool false => "false"
  | KNone => "null"
  end.

(** The encoder's walk.  The items of a dict are sorted first, then encoded in
    that order (the first exception of the walk is the one raised).  A value
    that is not None, a boolean, an integer, text, a list, a tuple or a dict is
    not JSON serializable. *)
Fixpoint json_of_value (v : value) : result json :=
  match v with
  | VNone => Ok JNull
  | VBool b => Ok (JBool b)
  | VInt n => Ok (JInt n)
  | VStr s => Ok (JStr s)
  | VList xs | VTuple xs =>
      items <- mapM json_of_value xs ;; Ok (JArr items)
  | VDict kvs =>
      items <- sorted_items (map (fun kv => (fst kv, json_of_value (snd kv))) kvs) ;;
      members <- mapM (fun kr => j <- snd kr ;; Ok (key_text (fst kr), j)) items ;;
      Ok (JObj members)
  | _ => Err TypeError
  end.

(** *** The text of a document *)

Definition dquote : ascii := "034"%char.
Definition backslash : ascii := "092"%char.

Definition hex_digit (n : nat) : ascii :=
  match n with
  | 0 => "0" | 1 => "1" | 2 => "2" | 3 => "3" | 4 => "4" | 5 => "5" | 6 => "6"
  | 7 => "7" | 8 => "8" | 9 => "9" | 10 => "a" | 11 => "b" | 12 => "c"
  | 13 => "d" | 14 => "e" | _ => "f"
  end%char.

Definition is_printable (c : ascii) : bool :=
  Nat.leb 32 (nat_of_ascii c) && Nat.leb (nat_of_ascii c) 126.

(** [ensure_ascii] escaping of one code point. *)
Definition escape_char (c : ascii) : string :=
  if Ascii.eqb c dquote then String backslash (String dquote "")
  else if Ascii.eqb c backslash then String backslash (String backslash "")
  else if Ascii.eqb c "010" then String backslash "n"
  else if Ascii.eqb c "013" then String backslash "r"
  else if Ascii.eqb c "009" then String backslash "t"
  else if Ascii.eqb c "008" then String backslash "b"
  else if Ascii.eqb c "012" then String backslash "f"
  else if is_printable c then String c ""
  else String backslash
         (String "u" (String "0" (String "0"
            (String (hex_digit (nat_of_ascii c / 16))
               (String (hex_digit (nat_of_ascii c mod 16)) ""))))).

Fixpoint escape (s : string) : string :=
  match s with
  | EmptyString => EmptyString
  | String c s' => (escape_char c ++ escape s')%string
  end.

Definition quote (s : string) : string :=
  String dquote (escape s ++ String dquote "")%string.

Fixpoint print (j : json) : string :=
  match j with
  | JNull => "null"
  | JBool true => "true"
  | JBool false => "false"
  | JInt n => string_of_Z n
  | JStr s => quote s
  | JArr items =>
      ("[" ++ String.concat "," (map print items) ++ "]")%string
  | JObj members =>
      ("{" ++ String.concat ","
                (map (fun kv => quote (fst kv) ++ ":" ++ print (snd kv)) members)
           ++ "}")%string
  end.

Definition json_dumps (data : value) : result string :=
  j <- json_of_value data ;; Ok (print j).

Definition to_json (m : Marshall) (data : value) : result string :=
  data' <- serialise_data m data ;;
  json_dumps data'.

(** *** Decoding a text: [json.loads]

    The decoder reads integers, text, the three literals, arrays and objects,
    with blanks allowed between tokens.  Numbers with a fraction or an exponent
    and code points above 255 denote values outside this model: the decoder
    reports them as malformed. *)

Definition is_ws (c : ascii) : bool :=
  Ascii.eqb c " " || Ascii.eqb c "009" || Ascii.eqb c "010" || Ascii.eqb c "013".

Fixpoint skip_ws (s : string) : string :=
  match s with
  | String c s' => if is_ws c then skip_ws s' else s
  | EmptyString => EmptyString
  end.

Definition digit_of (c : ascii) : option (Decimal.uint -> Decimal.uint) :=
  match c with
  | "0" => Some Decimal.D0 | "1" => Some Decimal.D1 | "2" => Some Decimal.D2
  | "3" => Some Decimal.D3 | "4" => Some Decimal.D4 | "5" => Some Decimal.D5
  | "6" => Some Decimal.D6 | "7" => Some Decimal.D7 | "8" => Some Decimal.D8
  | "9" => Some Decimal.D9 | _ => None
  end%char.

Fixpoint scan_digits (s : string) : Decimal.uint * string :=
  match s with
  | String c s' =>
      match digit_of c with
      | Some d => let (u, rest) := scan_digits s' in (d u, rest)
      | None => (Decimal.Nil, s)
      end
  | EmptyString => (Decimal.Nil, EmptyString)
  end.

(** The integer part of a JSON number: [0] or a digit string with no leading
    zero; a fraction or an exponent after it is not read. *)
Definition scan_nat (s : string) : result (Decimal.uint * string) :=
  let (u, rest) := scan_digits s in
  match u with
  | Decimal.Nil => Err JSONDecodeError
  | Decimal.D0 (Decimal.D0 _ | Decimal.D1 _ | Decimal.D2 _ | Decimal.D3 _
               | Decimal.D4 _ | Decimal.D5 _ | Decimal.D6 _ | Decimal.D7 _
               | Decimal.D8 _ | Decimal.D9 _) => Err JSONDecodeError
  | _ =>
      match rest with
      | String c _ =>
          if Ascii.eqb c "." || Ascii.eqb c "e" || Ascii.eqb c "E"
          then Err JSONDecodeError else Ok (u, rest)
      | EmptyString => Ok (u, rest)
      end
  end.

(** The value of a hexadecimal digit, in either case. *)
Definition hex_value (c : ascii) : option nat :=
  let n := nat_of_ascii c in
  if Nat.leb 48 n && Nat.leb n 57 then Some (n - 48)
  else if Nat.leb 97 n && Nat.leb n 102 then Some (n - 87)
  else if Nat.leb 65 n && Nat.leb n 70 then Some (n - 55)
  else None.

(** The character a two-character escape stands for. *)
Definition simple_escape (c : ascii) : option ascii :=
  if Ascii.eqb c dquote then Some dquote
  else if Ascii.eqb c backslash then Some backslash
  else if Ascii.eqb c "/" then Some "/"%char
  else if Ascii.eqb c "b" then Some "008"%char
  else if Ascii.eqb c "f" then Some "012"%char
  else if Ascii.eqb c "n" then Some "010"%char
  else if Ascii.eqb c "r" then Some "013"%char
  else if Ascii.eqb c "t" then Some "009"%char
  else None.

(** The body of a string literal, after its opening quote (strict mode: a
    control character may not stand unescaped). *)
Fixpoint scan_string (s : string) : result (string * string) :=
  match s with
  | EmptyString => Err JSONDecodeError
  | String c s' =>
      if Ascii.eqb c dquote then Ok (EmptyString, s')
      else if Ascii.eqb c backslash then
        match s' with
        | String e s'' =>
            match simple_escape e with
            | Some ch =>
                r <- scan_string s'' ;; Ok (String ch (fst r), snd r)
            | None =>
                if Ascii.eqb e "u" then
                  match s'' with
                  | String h1 (String h2 (String h3 (String h4 s3))) =>
                      match hex_value h1, hex_value h2, hex_value h3, hex_value h4 with
                      | Some 0, Some 0, Some a, Some b =>
                          r <- scan_string s3 ;;
                          Ok (String (ascii_of_nat (16 * a + b)) (fst r), snd r)
                      | _, _, _, _ => Err JSONDecodeError
                      end
                  | _ => Err JSONDecodeError
                  end
                else Err JSONDecodeError
            end
        | EmptyString => Err JSONDecodeError
        end
      else if Nat.ltb (nat_of_ascii c) 32 then Err JSONDecodeError
      else r <- scan_string s' ;; Ok (String c (fst r), snd r)
  end.

(** [scan_once] with [JSONArray] and [JSONObject]; [fuel] bounds the nesting
    of calls, and the length of the text is enough of it. *)
Fixpoint scan_once (fuel : nat) (s : string) : result (json * string) :=
  match fuel with
  | O => Err RecursionError
  | S fuel' =>
      match s with
      | String c s' =>
          if Ascii.eqb c dquote then
            r <- scan_string s' ;; Ok (JStr (fst r), snd r)
          else if Ascii.eqb c "{" then
            match skip_ws s' with
            | String c' rest =>
                if Ascii.eqb c' "}" then Ok (JObj [], rest)
                else r <- scan_members fuel' (String c' rest) ;;
                     Ok (JObj (fst r), snd r)
            | EmptyString => Err JSONDecodeError
            end
          else if Ascii.eqb c "[" then
            match skip_ws s' with
            | String c' rest =>
                if Ascii.eqb c' "]" then Ok (JArr [], rest)
                else r <- scan_items fuel' (String c' rest) ;;
                     Ok (JArr (fst r), snd r)
            | EmptyString => Err JSONDecodeError
            end
          else if Ascii.eqb c "-" then
            r <- scan_nat s' ;; Ok (JInt (Z.of_int (Decimal.Neg (fst r))), snd r)
          else if String.prefix "null" s then Ok (JNull, string_drop 4 s)
          else if String.prefix "true" s then Ok (JBool true, string_drop 4 s)
          else if String.prefix "false" s then Ok (JBool false, string_drop 5 s)
          else
            r <- scan_nat s ;; Ok (JInt (Z.of_int (Decimal.Pos (fst r))), snd r)
      | EmptyString => Err JSONDecodeError
      end
  end

with scan_items (fuel : nat) (s : string) : result (list json * string) :=
  match fuel with
  | O => Err RecursionError
  | S fuel' =>
      r <- scan_once fuel' s ;;
      match skip_ws (snd r) with
      | String c rest =>
          if Ascii.eqb c "," then
            r' <- scan_items fuel' (skip_ws rest) ;; Ok (fst r :: fst r', snd r')
          else if Ascii.eqb c "]" then Ok ([fst r], rest)
          else Err JSONDecodeError
      | EmptyString => Err JSONDecodeError
      end
  end

with scan_members (fuel : nat) (s : string)
  : result (list (string * json) * string) :=
  match fuel with
  | O => Err RecursionError
  | S fuel' =>
      match s with
      | String c s' =>
          if Ascii.eqb c dquote then
            k <- scan_string s' ;;
            match skip_ws (snd k) with
            | String c' rest =>
                if Ascii.eqb c' ":" then
                  r <- scan_once fuel' (skip_ws rest) ;;
                  match skip_ws (snd r) with
                  | String c'' rest' =>
                      if Ascii.eqb c'' "," then
                        r' <- scan_members fuel' (skip_ws rest') ;;
                        Ok ((fst k, fst r) :: fst r', snd r')
                      else if Ascii.eqb c'' "}" then
                        Ok ([(fst k, fst r)], rest')
                      else Err JSONDecodeError
                  | EmptyString => Err JSONDecodeError
                  end
                else Err JSONDecodeError
            | EmptyString => Err JSONDecodeError
            end
          else Err JSONDecodeError
      | EmptyString => Err JSONDecodeError
      end
  end.

(** The value the decoder builds: arrays become lists and objects dicts (of a
    repeated member name the last value is kept). *)
Fixpoint value_of_json (j : json) : value :=
  match j with
  | JNull => VNone
  | JBool b => VBool b
  | JInt n => VInt n
  | JStr s => VStr s
  | JArr items => VList (map value_of_json items)
  | JObj members =>
      VDict (dict_of_items key_eqb
               (map (fun kv => (KStr (fst kv), value_of_json (snd kv))) members))
  end.

Definition parse (s : string) : result json :=
  r <- scan_once (2 * String.length s + 2) (skip_ws s) ;;
  match skip_ws (snd r) with
  | EmptyString => Ok (fst r)
  | _ => Err JSONDecodeError
  end.

Definition json_loads (s : string) : result value :=
  j <- parse s ;; Ok (value_of_json j).

Section Decode.
Variable import_module : string -> result (string -> option pyclass).

Definition from_json (m : Marshall) (json_string : string) : result value :=
  data <- json_loads json_string ;;
  deserialise_data import_module m data.
End Decode.

(** ** Encoding over a store of objects

    A Python container holds references to its parts, and a part may be the
    container itself.  [gvalue] has the shapes of [value] and one more, a
    pointer into a store of objects; a value without pointers is a [value].
    The encoder is the one above, step for step; [fuel] is the depth of nested
    calls the interpreter allows, past which it raises RecursionError. *)
Module Graph.

Inductive gvalue : Type :=
| GNone
| GBool (b : bool)
| GInt (n : Z)
| GStr (s : string)
| GDatetime (t : Z)
| GList (xs : list gvalue)
| GTuple (xs : list gvalue)
| GDict (kvs : list (key * gvalue))
| GSet (ks : list key)
| GMap (kvs : list (key * gvalue))
| GObject (cls_module cls_name : string)
          (class_attrs : list (string * gvalue))
          (json_data : option (list (string * gvalue)))
          (vars : list (string * gvalue))
| GPtr (a : nat).

Definition store : Type := list gvalue.

(** The object a value denotes: a pointer denotes the object in its cell.
    The cells of a running program hold objects, not pointers, and no pointer
    dangles; [None] is the answer for a store that is not of that kind. *)
Definition resolve (st : store) (v : gvalue) : option gvalue :=
  match v with
  | GPtr a =>
      match nth_error st a with
      | Some (GPtr _) | None => None
      | Some obj => Some obj
      end
  | _ => Some v
  end.

Record gcodec : Type := {
  ghandles : gvalue -> bool;
  gserialise : gvalue -> result gvalue
}.

Record GMarshall : Type := {
  g_fqn_resolver : FqnResolver;
  g_codecs : list (string * gcodec)
}.

Definition _is_handled_by_codec (m : GMarshall) (data : gvalue) : bool :=
  existsb (fun c => ghandles (snd c) data) (g_codecs m).

Fixpoint first_codec (cs : list (string * gcodec)) (obj : gvalue)
  : option gcodec :=
  match cs with
  | [] => None
  | (_, c) :: cs' => if ghandles c obj then Some c else first_codec cs' obj
  end.

Definition _object_to_codec_dict (m : GMarshall) (obj : gvalue)
  : result gvalue :=
  match first_codec (g_codecs m) obj with
  | Some c => gserialise c obj
  | None => Ok GNone
  end.

Definition str_keys (d : list (string * gvalue)) : list (key * gvalue) :=
  map (fun kv => (KStr (fst kv), snd kv)) d.

Definition _object_to_dict (serialise_data : gvalue -> result gvalue)
  (r : FqnResolver) (cls_module cls_name : string)
  (class_attrs : list (string * gvalue))
  (json_data : option (list (string * gvalue)))
  (vars : list (string * gvalue)) : result gvalue :=
  fqn <- instance_to_fqn r cls_module cls_name ;;
  let data0 := [("__fqn__", GStr fqn)] in
  let data1 :=
    match getattr class_attrs vars "__version__" with
    | Some v => dict_set String.eqb data0 "__version__" v
    | None => data0
    end in
  let data2 :=
    match getattr class_attrs vars "__msgid__" with
    | Some v => dict_set String.eqb data1 "__msgid__" v
    | None => data1
    end in
  data3 <-
    match with_attr serialise_data "__timestamp__" vars with
    | Some t' => t <- t' ;; Ok (dict_set String.eqb data2 "__timestamp__" t)
    | None =>
        match with_attr serialise_data "__timestamp__" class_attrs with
        | Some t' => t <- t' ;; Ok (dict_set String.eqb data2 "__timestamp__" t)
        | None => Ok data2
        end
    end ;;
  fields <-
    for_items (fun attr => negb (is_dunder attr)) serialise_data
      match json_data with Some d => d | None => vars end ;;
  Ok (GDict (str_keys (assign_all String.eqb data3 fields))).

(** One call of [serialise_data] on the object [data]; [self] is the method
    as its nested calls see it. *)
Definition serialise_call (self : gvalue -> result gvalue) (m : GMarshall)
  (data : gvalue) : result gvalue :=
  if _is_handled_by_codec m data then _object_to_codec_dict m data
  else
    match data with
    | GList xs | GTuple xs =>
        new_sequence <- mapM self xs ;;
        Ok (GList new_sequence)
    | GDict kvs | GMap kvs =>
        items <- for_items (fun _ => true) self kvs ;;
        Ok (GDict (assign_all key_eqb [] items))
    | GSet _ => Err AttributeError
    | GObject cls_module cls_name class_attrs json_data vars =>
        if String.eqb cls_module "builtins" then Ok data
        else _object_to_dict self (g_fqn_resolver m)
               cls_module cls_name class_attrs json_data vars
    | _ => Ok data
    end.

Fixpoint serialise_data (fuel : nat) (st : store) (m : GMarshall)
  (data : gvalue) : result gvalue :=
  match fuel with
  | O => Err RecursionError
  | S fuel' =>
      match resolve st data with
      | Some obj => serialise_call (serialise_data fuel' st m) m obj
      | None => Err ValueError
      end
  end.

(** A value with no pointer in it, as a value of the store-free model. *)
Fixpoint embed (v : value) : gvalue :=
  match v with
  | VNone => GNone
  | VBool b => GBool b
  | VInt n => GInt n
  | VStr s => GStr s
  | VDatetime t => GDatetime t
  | VList xs => GList (map embed xs)
  | VTuple xs => GTuple (map embed xs)
  | VDict kvs => GDict (map (fun kv => (fst kv, embed (snd kv))) kvs)
  | VSet ks => GSet ks
  | VMap kvs => GMap (map (fun kv => (fst kv, embed (snd kv))) kvs)
  | VObject cls_module cls_name class_attrs json_data vars =>
      GObject cls_module cls_name
        (map (fun kv => (fst kv, embed (snd kv))) class_attrs)
        (option_map (map (fun kv => (fst kv, embed (snd kv)))) json_data)
        (map (fun kv => (fst kv, embed (snd kv))) vars)
  end.

Definition embed_result (r : result value) : result gvalue :=
  match r with
  | Ok v => Ok (embed v)
  | Err e => Err e
  end.

(** A codec of the store model that acts on pointer-free values as [c] does. *)
Definition codec_agrees (gc : gcodec) (c : codec) : Prop :=
  forall v, ghandles gc (embed v) = handles c v
            /\ gserialise gc (embed v) = embed_result (serialise c v).

Definition marshall_agrees (gm : GMarshall) (m : Marshall) : Prop :=
  g_fqn_resolver gm = _fqn_resolver m
  /\ Forall2 (fun gc c => codec_agrees (snd gc) (snd c)) (g_codecs gm) (_codecs m).

(** [l = []; l.append(l)]: cell 0 holds a list whose only element is the list
    itself. *)
Definition self_list_store : store := [GList [GPtr 0]].

End Graph.

(** The structural depth of a value: the nesting of its parts. *)
Fixpoint depth (v : value) : nat :=
  let deepest {K} (kvs : list (K * value)) :=
    fold_right (fun kv d => Nat.max (depth (snd kv)) d) 0 kvs in
  match v with
  | VList xs | VTuple xs => S (fold_right (fun x d => Nat.max (depth x) d) 0 xs)
  | VDict kvs | VMap kvs => S (deepest kvs)
  | VObject _ _ class_attrs json_data vars =>
      S (Nat.max (deepest class_attrs)
           (Nat.max (match json_data with Some d => deepest d | None => 0 end)
                    (deepest vars)))
  | _ => 1
  end.

(** ** An example configuration

    A resolver with one wildcard entry, a codec for timestamps, a codec for
    the instances of one class, and an engine that holds both. *)
Definition example_resolver : FqnResolver :=
  new_FqnResolver [("shop.*", "app.shop.*")].

Definition datetime_codec : codec :=
  {| handles := fun v => match v with VDatetime _ => true | _ => false end;
     serialise := fun v =>
       match v with
       | VDatetime t =>
           Ok (VDict [(KStr "__codec__", VStr "codecs.Datetime");
                      (KStr "params", VDict [(KStr "timestamp", VInt t)])])
       | _ => Err TypeError
       end;
     deserialise := fun params =>
       match params with
       | VDict kvs | VMap kvs =>
           t <- getitem kvs "timestamp" ;;
           match t with VInt n => Ok (VDatetime n) | _ => Err TypeError end
       | _ => Err TypeError
       end |}.

Definition money_codec : codec :=
  {| handles := fun v =>
       match v with
       | VObject _ cls_name _ _ _ => String.eqb cls_name "Money"
       | _ => false
       end;
     serialise := fun v =>
       match v with
       | VObject _ _ _ _ vars =>
           Ok (VDict [(KStr "__codec__", VStr "codecs.Money");
                      (KStr "params", VDict (str_keys vars))])
       | _ => Err TypeError
       end;
     deserialise := fun params =>
       match params with
       | VDict kvs | VMap kvs =>
           amount <- getitem kvs "amount" ;;
           Ok (VObject "app.shop" "Money" [] None [("amount", amount)])
       | _ => Err TypeError
       end |}.

Definition example_codecs : list (string * codec) :=
  [("codecs.Datetime", datetime_codec); ("codecs.Money", money_codec)].

Definition example_marshall : Marshall :=
  register_all (new_Marshall example_resolver None) example_codecs.

Definition money : value :=
  VObject "app.shop" "Money" [] None [("amount", VInt 5)].

(** A class whose [__init__] takes the named parameters [params], all
    required, and stores each under its own name. *)
Definition plain_init (cls_module cls_name : string) (params : list string)
  (kwargs : list (string * value)) : result value :=
  if forallb (fun kv => existsb (String.eqb (fst kv)) params) kwargs
     && forallb (dict_mem String.eqb kwargs) params
  then
    Ok (VObject cls_module cls_name [] None
          (map (fun p => (p, match dict_get String.eqb kwargs p with
                             | Some v => v
                             | None => VNone
                             end)) params))
  else Err TypeError.

Definition item_class : pyclass :=
  {| cls_call := plain_init "app.shop" "Item" ["name"; "price"];
     cls_getattr := fun _ => None |}.

(** An enumeration: it is not called with keyword arguments; its members are
    attributes of the class. *)
Definition colour_red : value :=
  VObject "app.shop" "Colour" [] None
    [("_value_", VInt 1); ("_name_", VStr "RED")].

Definition colour_class : pyclass :=
  {| cls_call := fun _ => Err TypeError;
     cls_getattr := fun name =>
       if String.eqb name "RED" then Some colour_red else None |}.

Definition tag_class : pyclass :=
  {| cls_call := plain_init "app.shop" "Tag" ["label"];
     cls_getattr := fun _ => None |}.

Definition example_modules (name : string)
  : result (string -> option pyclass) :=
  if String.eqb name "app.shop" then
    Ok (fun cls =>
          if String.eqb cls "Item" then Some item_class
          else if String.eqb cls "Tag" then Some tag_class
          else if String.eqb cls "Colour" then Some colour_class
          else None)
  else Err ModuleNotFoundError.

Definition tag (label : string) : value :=
  VObject "app.shop" "Tag" [] None [("label", VStr label)].

(** A mapping with an instance in a list and a timestamp. *)
Definition order : value :=
  VDict [(KStr "tags", VList [tag "new"]); (KStr "at", VDatetime 1600000000)].

Definition plain_marshall : Marshall := new_Marshall example_resolver None.

(** The engine over the store with the example resolver and no codec. *)
Definition plain_gmarshall : Graph.GMarshall :=
  {| Graph.g_fqn_resolver := example_resolver; Graph.g_codecs := [] |}.

(** A class of events.  The version is an attribute of the class; the
    constructor takes the message identifier, the timestamp and the fields
    as named parameters, all required, and stores each under its own name. *)
Definition init_with (class_attrs : list (string * value))
  (cls_module cls_name : string) (params : list string)
  (kwargs : list (string * value)) : result value :=
  if forallb (fun kv => existsb (String.eqb (fst kv)) params) kwargs
     && forallb (dict_mem String.eqb kwargs) params
  then
    Ok (VObject cls_module cls_name class_attrs None
          (map (fun p => (p, match dict_get String.eqb kwargs p with
                             | Some v => v
                             | None => VNone
                             end)) params))
  else Err TypeError.

Definition placed_attrs : list (string * value) := [("__version__", VInt 2)].

Definition placed_class : pyclass :=
  {| cls_call :=
       init_with placed_attrs "app.events" "Placed"
         ["__msgid__"; "__timestamp__"; "sku"];
     cls_getattr := fun _ => None |}.

Definition placed (msgid : string) (time : Z) (sku : string) : value :=
  VObject "app.events" "Placed" placed_attrs None
    [("__msgid__", VStr msgid); ("__timestamp__", VDatetime time);
     ("sku", VStr sku)].

Definition event_modules (name : string)
  : result (string -> option pyclass) :=
  if String.eqb name "app.events" then
    Ok (fun cls => if String.eqb cls "Placed" then Some placed_class else None)
  else example_modules name.

Definition event_marshall : Marshall :=
  register_all
    (new_Marshall (new_FqnResolver [("events.*", "app.events.*")]) None)
    example_codecs.

(** ** The round trip: its domain and its result

    [decoded m v] is [v] as it comes back from the wire: a mapping as an
    immutable mapping with the same keys (in the order of the text) and the
    decoded values, a value a codec takes as itself. *)
Definition on_snd {K A B} (f : A -> B) (kv : K * A) : K * B :=
  (fst kv, f (snd kv)).

Fixpoint decoded (m : Marshall) (v : value) : value :=
  if _is_handled_by_codec m v then v
  else
    match v with
    | VList xs => VList (map (decoded m) xs)
    | VDict kvs | VMap kvs =>
        VMap (sort_by_key (map (on_snd (decoded m)) kvs))
    | VObject cls_module cls_name class_attrs json_data vars =>
        VObject cls_module cls_name class_attrs
          (option_map (map (on_snd (decoded m))) json_data)
          (map (on_snd (decoded m)) vars)
    | _ => v
    end.

(** The keys of a mapping that is no envelope: distinct texts, none of them
    [__fqn__] or [__codec__], and not both [_name_] and [_value_]. *)
Definition plain_keys (kvs : list (key * value)) : Prop :=
  Forall (fun kv => is_text_key (fst kv) = true) kvs
  /\ NoDup (map fst kvs)
  /\ classify (VDict kvs) = PlainMapping.

(** A value as [json.loads] returns it from the text [json.dumps] wrote for
    it, and a value as it reaches [deserialise_data] after [to_json] and
    [json.loads]. *)
Definition read_back (x : value) : result value :=
  j <- json_of_value x ;; Ok (value_of_json j).

Definition wire_of (m : Marshall) (v : value) : result value :=
  d <- serialise_data m v ;; read_back d.

Definition opt_entry {A} (name : string) (o : option A) : list (string * A) :=
  match o with Some x => [(name, x)] | None => [] end.

(** The named arguments [_dict_to_object] passes besides the fields: the
    message identifier as the text holds it, and the decoded timestamp, each
    only when what the text holds is true. *)
Definition metadata_kwargs (m : Marshall)
  (class_attrs vars : list (string * value)) : list (string * value) :=
  match getattr class_attrs vars "__msgid__" with
  | Some msgid =>
      match read_back msgid with
      | Ok w => if truthy w then [("__msgid__", w)] else []
      | Err _ => []
      end
  | None => []
  end
  ++ match getattr class_attrs vars "__timestamp__" with
     | Some timestamp =>
         match wire_of m timestamp with
         | Ok w => if truthy w then [("__timestamp__", decoded m timestamp)] else []
         | Err _ => []
         end
     | None => []
     end.

Section RoundTripDomain.
Variable import_module : string -> result (string -> option pyclass).
Variable m : Marshall.

(** A codec-handled value comes back when the codec that takes it writes a
    codec envelope that [json.dumps] accepts, with the name of a registered
    codec, and that codec rebuilds the value from the parameters as
    [json.loads] returns them. *)
Definition codec_inverts (v : value) : Prop :=
  exists c env name params wire_params c',
    first_codec (_codecs m) v = Some c
    /\ serialise c v = Ok (VDict env)
    /\ Forall (fun kv => is_text_key (fst kv) = true) env
    /\ NoDup (map fst env)
    /\ classify (VDict env) = CodecEnvelope
    /\ Forall (fun kv => is_ok (json_of_value (snd kv)) = true) env
    /\ dict_get key_eqb env (KStr "__codec__") = Some (VStr name)
    /\ dict_get key_eqb env (KStr "params") = Some params
    /\ read_back params = Ok wire_params
    /\ dict_get String.eqb (_codecs m) name = Some c'
    /\ deserialise c' wire_params = Ok v.

(** An instance comes back when its class resolves to a public name and that
    name back to a class whose constructor, given the named arguments of the
    decoder in any order, rebuilds the instance. *)
Definition class_rebuilds (cls_module cls_name : string)
  (kwargs : list (string * value)) (rebuilt : value) : Prop :=
  exists fqn cls,
    instance_to_fqn (_fqn_resolver m) cls_module cls_name = Ok fqn
    /\ fqn_to_type import_module (_fqn_resolver m) (VStr fqn) = Ok cls
    /\ forall kwargs',
         Permutation kwargs' kwargs -> cls_call cls kwargs' = Ok rebuilt.

Inductive wire_safe : value -> Prop :=
| safe_codec v :
    _is_handled_by_codec m v = true -> codec_inverts v -> wire_safe v
| safe_none : _is_handled_by_codec m VNone = false -> wire_safe VNone
| safe_bool b : _is_handled_by_codec m (VBool b) = false -> wire_safe (VBool b)
| safe_int n : _is_handled_by_codec m (VInt n) = false -> wire_safe (VInt n)
| safe_str s : _is_handled_by_codec m (VStr s) = false -> wire_safe (VStr s)
| safe_list xs :
    _is_handled_by_codec m (VList xs) = false ->
    Forall wire_safe xs -> wire_safe (VList xs)
| safe_dict kvs :
    _is_handled_by_codec m (VDict kvs) = false ->
    plain_keys kvs ->
    Forall (fun kv => wire_safe (snd kv)) kvs -> wire_safe (VDict kvs)
| safe_map kvs :
    _is_handled_by_codec m (VMap kvs) = false ->
    plain_keys kvs ->
    Forall (fun kv => wire_safe (snd kv)) kvs -> wire_safe (VMap kvs)
| safe_object cls_module cls_name class_attrs json_data vars :
    let obj := VObject cls_module cls_name class_attrs json_data vars in
    let exported :=
      filter (fun kv => negb (is_dunder (fst kv)))
        match json_data with Some d => d | None => vars end in
    _is_handled_by_codec m obj = false ->
    String.eqb cls_module "builtins" = false ->
    (forall version, getattr class_attrs vars "__version__" = Some version ->
                     is_ok (json_of_value version) = true) ->
    (forall msgid, getattr class_attrs vars "__msgid__" = Some msgid ->
                   is_ok (json_of_value msgid) = true) ->
    (forall timestamp, getattr class_attrs vars "__timestamp__" = Some timestamp ->
                       wire_safe timestamp) ->
    NoDup (map fst exported) ->
    _is_enum_dict (VDict (str_keys exported)) = false ->
    Forall (fun kv => wire_safe (snd kv)) exported ->
    class_rebuilds cls_module cls_name
      (metadata_kwargs m class_attrs vars ++ map (on_snd (decoded m)) exported)
      (decoded m obj) ->
    wire_safe obj.
End RoundTripDomain.

(** ** The same value, listed in another order

    Two observations of a mapping may list its entries in different orders (an
    immutable mapping iterates in the order of its hashes, two equal dicts may
    have been filled in different orders).  [same_value v v'] holds when [v']
    is [v] up to the order of the entries of its mappings. *)
Definition same_item {K} (R : value -> value -> Prop) (kv kv' : K * value)
  : Prop :=
  fst kv = fst kv' /\ R (snd kv) (snd kv').

Inductive same_value : value -> value -> Prop :=
| same_none : same_value VNone VNone
| same_bool b : same_value (VBool b) (VBool b)
| same_int n : same_value (VInt n) (VInt n)
| same_str s : same_value (VStr s) (VStr s)
| same_datetime t : same_value (VDatetime t) (VDatetime t)
| same_list xs ys :
    Forall2 same_value xs ys -> same_value (VList xs) (VList ys)
| same_tuple xs ys :
    Forall2 same_value xs ys -> same_value (VTuple xs) (VTuple ys)
| same_dict kvs mid kvs' :
    Forall2 (same_item same_value) kvs mid -> Permutation mid kvs' ->
    same_value (VDict kvs) (VDict kvs')
| same_set ks : same_value (VSet ks) (VSet ks)
| same_map kvs mid kvs' :
    Forall2 (same_item same_value) kvs mid -> Permutation mid kvs' ->
    same_value (VMap kvs) (VMap kvs')
| same_object cls_module cls_name class_attrs class_attrs' vars vars' :
    Forall2 (same_item same_value) class_attrs class_attrs' ->
    Forall2 (same_item same_value) vars vars' ->
    same_value (VObject cls_module cls_name class_attrs None vars)
               (VObject cls_module cls_name class_attrs' None vars')
| same_object_json cls_module cls_name class_attrs class_attrs' d d' vars vars' :
    Forall2 (same_item same_value) class_attrs class_attrs' ->
    Forall2 (same_item same_value) d d' ->
    Forall2 (same_item same_value) vars vars' ->
    same_value (VObject cls_module cls_name class_attrs (Some d) vars)
               (VObject cls_module cls_name class_attrs' (Some d') vars').

(** Keys no two of which are equal as dict keys; the keys of any dict and of
    any immutable mapping are such, at every depth of a value. *)
Definition distinct_keys (ks : list key) : Prop :=
  ForallOrdPairs (fun a b => key_eqb a b = false) ks.

Inductive well_formed : value -> Prop :=
| wf_none : well_formed VNone
| wf_bool b : well_formed (VBool b)
| wf_int n : well_formed (VInt n)
| wf_str s : well_formed (VStr s)
| wf_datetime t : well_formed (VDatetime t)
| wf_list xs : Forall well_formed xs -> well_formed (VList xs)
| wf_tuple xs : Forall well_formed xs -> well_formed (VTuple xs)
| wf_dict kvs :
    distinct_keys (map fst kvs) ->
    Forall (fun kv => well_formed (snd kv)) kvs -> well_formed (VDict kvs)
| wf_set ks : well_formed (VSet ks)
| wf_map kvs :
    distinct_keys (map fst kvs) ->
    Forall (fun kv => well_formed (snd kv)) kvs -> well_formed (VMap kvs)
| wf_object cls_module cls_name class_attrs json_data vars :
    Forall (fun kv => well_formed (snd kv)) class_attrs ->
    (forall d, json_data = Some d ->
               NoDup (map fst d) /\ Forall (fun kv => well_formed (snd kv)) d) ->
    NoDup (map fst vars) ->
    Forall (fun kv => well_formed (snd kv)) vars ->
    well_formed (VObject cls_module cls_name class_attrs json_data vars).

(** Two values that are the same up to the order of their entries, the first
    of them well formed. *)
Definition alike (x x' : value) : Prop := same_value x x' /\ well_formed x.

(** [f] takes [x] and [x'], related by [R], to results related by [Q]. *)
Definition carried (f : value -> result value) (R Q : value -> value -> Prop)
  (x x' : value) : Prop :=
  R x x' /\ forall d, f x = Ok d -> exists d', f x' = Ok d' /\ Q d d'.

Definition same_option (R : value -> value -> Prop) (o o' : option value)
  : Prop :=
  match o, o' with
  | Some x, Some x' => R x x'
  | None, None => True
  | _, _ => False
  end.

(** A codec that does not look at the order of entries, and whose output is
    a well-formed value. *)
Definition codec_respects_order (c : codec) : Prop :=
  (forall v v', same_value v v' -> handles c v = handles c v')
  /\ (forall v v' d,
        same_value v v' -> serialise c v = Ok d ->
        exists d', serialise c v' = Ok d' /\ same_value d d')
  /\ (forall v d, well_formed v -> serialise c v = Ok d -> well_formed d).

(** ** Blanks in a text

    Where a reader of the text stands: outside a string literal, inside one,
    or just after a backslash inside one. *)
Inductive lex_state : Type := Outside | Inside | Escaped.

(** The state after the text, or [None] once a blank stands outside a string
    literal. *)
Fixpoint lex (st : lex_state) (s : string) : option lex_state :=
  match s with
  | EmptyString => Some st
  | String c s' =>
      match st with
      | Outside =>
          if is_ws c then None
          else lex (if Ascii.eqb c dquote then Inside else Outside) s'
      | Inside =>
          lex (if Ascii.eqb c backslash then Escaped
               else if Ascii.eqb c dquote then Outside else Inside) s'
      | Escaped => lex Inside s'
      end
  end.

Definition compact (s : string) : Prop := lex Outside s = Some Outside.

(** The members of every object of a document stand in the order of the keys
    they were written from. *)
Definition in_key_order {A} (l : list (key * A)) : Prop :=
  Sorted (fun a b => key_le (fst a) (fst b) = true) l.

Definition lexicographic (names : list string) : Prop :=
  Sorted (fun a b => String.leb a b = true) names.

(** The order in which two keys of one mapping are written: text keys in
    lexicographic order, numeric keys in increasing order.  Keys of the two
    kinds, and None, stand in no order. *)
Definition key_order (a b : key) : Prop :=
  match a, b with
  | KStr s, KStr t => String.leb s t = true
  | _, _ => exists x y, key_num a = Some x /\ key_num b = Some y /\ (x <= y)%Z
  end.

(** [written d j]: [j] is the document of [d], each mapping of [d] written as
    an object whose members are the entries of the mapping, in the order of
    their keys, each under the text of its key. *)
Inductive written : value -> json -> Prop :=
| written_none : written VNone JNull
| written_bool b : written (VBool b) (JBool b)
| written_int n : written (VInt n) (JInt n)
| written_str s : written (VStr s) (JStr s)
| written_list xs js :
    Forall2 written xs js -> written (VList xs) (JArr js)
| written_tuple xs js :
    Forall2 written xs js -> written (VTuple xs) (JArr js)
| written_dict kvs entries members :
    Permutation entries kvs ->
    Sorted (fun a b => key_order (fst a) (fst b)) entries ->
    Forall2 (fun kv member => fst member = key_text (fst kv)
                              /\ written (snd kv) (snd member))
      entries members ->
    written (VDict kvs) (JObj members).

(** A ledger, and the same ledger with its entries inserted in another
    order. *)
Definition ledger : value :=
  VDict [(KStr "total", money);
         (KStr "at", VDatetime 7);
         (KStr "lines", VList [VDict [(KStr "qty", VInt 2); (KStr "sku", VStr "x")]])].

Definition ledger_reordered : value :=
  VDict [(KStr "lines", VList [VDict [(KStr "sku", VStr "x"); (KStr "qty", VInt 2)]]);
         (KStr "total", money);
         (KStr "at", VDatetime 7)].

(** A mapping with the integer keys 10 and 9. *)
Definition numbered : value := VDict [(KInt 10, VStr "b"); (KInt 9, VStr "a")].

(** ** Notions used in the statements *)

(** The map of the specification's example, alone and with an exact entry
    that overrides the wildcard. *)
Definition wildcard_map : list (string * string) := [("a.b.*", "x.y.*")].

Definition override_map : list (string * string) :=
  [("a.b.C", "x.y.Special"); ("a.b.*", "x.y.*")].

Definition rejects (v : value) (nc : string * codec) : Prop :=
  handles (snd nc) v = false.

Definition item_of {K A B} (f : A -> result B) (kv : K * A) (item : K * B)
  : Prop :=
  fst item = fst kv /\ f (snd kv) = Ok (snd item).

Definition metadata_keys : list string :=
  ["__fqn__"; "__version__"; "__msgid__"; "__timestamp__"].

Definition unknown_codec_envelope : json :=
  JObj [("__codec__", JStr "codecs.Missing"); ("params", JInt 1)].

Definition embed_item {K} (kv : K * value) : K * Graph.gvalue :=
  (fst kv, Graph.embed (snd kv)).

Definition result_map {A B} (f : A -> B) (r : result A) : result B :=
  match r with
  | Ok a => Ok (f a)
  | Err e => Err e
  end.

(** What may follow a number in a text: not a digit, and none of the
    characters that would continue it. *)
Definition ends_number (rest : string) : Prop :=
  match rest with
  | EmptyString => True
  | String c _ =>
      digit_of c = None
      /\ (Ascii.eqb c "." || Ascii.eqb c "e" || Ascii.eqb c "E") = false
  end.

(** The number of calls the decoder nests on a document. *)
Fixpoint json_size (j : json) : nat :=
  match j with
  | JArr items => S (fold_right (fun x n => S (json_size x + n)) 0 items)
  | JObj members =>
      S (fold_right (fun kv n => S (json_size (snd kv) + n)) 0 members)
  | _ => 1
  end.

(** What follows a value inside a printed document. *)
Definition delimited (rest : string) : Prop :=
  match rest with
  | EmptyString => True
  | String c _ => c = ","%char \/ c = "]"%char \/ c = "}"%char
  end.

(** The first character of a printed value. *)
Definition starts_value (c : ascii) : Prop :=
  is_ws c = false /\ Ascii.eqb c "]" = false /\ Ascii.eqb c "}" = false
  /\ Ascii.eqb c "," = false.

Definition print_member (kv : string * json) : string :=
  (quote (fst kv) ++ ":" ++ print (snd kv))%string.

(** The decoder reads a printed document back, whatever follows it. *)
Definition scans (j : json) : Prop :=
  forall fuel rest, json_size j <= fuel -> delimited rest ->
                    scan_once fuel (print j ++ rest) = Ok (j, rest).

Definition wire_member {A} (t : key * (A * json)) : string * json :=
  (key_text (fst t), snd (snd t)).

(** The fields [_dict_to_object] passes to the constructor. *)
Definition field_of {A} (h : A -> value) (t : key * A) : list (string * value) :=
  match fst t with
  | KStr s => if is_dunder s then [] else [(s, h (snd t))]
  | _ => []
  end.

Definition text_entry {A} (t : string * A) : key * A := (KStr (fst t), snd t).

(** Keys that Python can sort together: all text, or all numbers. *)
Definition same_kind (ks : list key) : Prop :=
  Forall (fun k => is_text_key k = true) ks
  \/ Forall (fun k => is_num_key k = true) ks.

Definition json_member (kj : key * json) : string * json :=
  (key_text (fst kj), snd kj).

(** ** Values the encoder leaves as they are *)

Definition is_scalar (v : value) : bool :=
  match v with
  | VNone | VBool _ | VInt _ | VStr _ | VDatetime _ => true
  | VObject cls_module _ _ _ _ => String.eqb cls_module "builtins"
  | _ => false
  end.

(** Scalars, lists and dicts of them, none of which a codec takes. *)
Inductive json_ready (m : Marshall) : value -> Prop :=
| ready_scalar v :
    _is_handled_by_codec m v = false -> is_scalar v = true -> json_ready m v
| ready_list xs :
    _is_handled_by_codec m (VList xs) = false ->
    Forall (json_ready m) xs -> json_ready m (VList xs)
| ready_dict kvs :
    _is_handled_by_codec m (VDict kvs) = false ->
    distinct_keys (map fst kvs) ->
    Forall (fun kv => json_ready m (snd kv)) kvs -> json_ready m (VDict kvs).

(** A set that the encoder reaches: the value itself, an item, a value of a
    mapping or an exported field, under no codec. *)
Inductive holds_set (m : Marshall) : value -> Prop :=
| set_here ks :
    _is_handled_by_codec m (VSet ks) = false -> holds_set m (VSet ks)
| set_in_list xs x :
    _is_handled_by_codec m (VList xs) = false ->
    In x xs -> holds_set m x -> holds_set m (VList xs)
| set_in_tuple xs x :
    _is_handled_by_codec m (VTuple xs) = false ->
    In x xs -> holds_set m x -> holds_set m (VTuple xs)
| set_in_dict kvs kv :
    _is_handled_by_codec m (VDict kvs) = false ->
    In kv kvs -> holds_set m (snd kv) -> holds_set m (VDict kvs)
| set_in_map kvs kv :
    _is_handled_by_codec m (VMap kvs) = false ->
    In kv kvs -> holds_set m (snd kv) -> holds_set m (VMap kvs)
| set_in_object cls_module cls_name class_attrs json_data vars kv :
    _is_handled_by_codec m
      (VObject cls_module cls_name class_attrs json_data vars) = false ->
    String.eqb cls_module "builtins" = false ->
    In kv match json_data with Some d => d | None => vars end ->
    is_dunder (fst kv) = false ->
    holds_set m (snd kv) ->
    holds_set m (VObject cls_module cls_name class_attrs json_data vars).

(** ** Values the decoder leaves as they are

    Scalars and instances, lists of such values, and immutable mappings of
    them with keys that are pairwise different. *)
Inductive frozen : value -> Prop :=
| frozen_none : frozen VNone
| frozen_bool b : frozen (VBool b)
| frozen_int n : frozen (VInt n)
| frozen_str s : frozen (VStr s)
| frozen_datetime t : frozen (VDatetime t)
| frozen_object cls_module cls_name class_attrs json_data vars :
    frozen (VObject cls_module cls_name class_attrs json_data vars)
| frozen_list xs : Forall frozen xs -> frozen (VList xs)
| frozen_map kvs :
    distinct_keys (map fst kvs) ->
    Forall (fun kv => frozen (snd kv)) kvs -> frozen (VMap kvs).

(** * Properties *)

(** ** Text lemmas *)

Lemma string_app_assoc (s t u : string) :
  ((s ++ t) ++ u = s ++ t ++ u)%string.
Proof. induction s as [|a s IH]; simpl; [reflexivity|now rewrite IH]. Qed.

Lemma string_app_nil_r (s : string) : (s ++ "")%string = s.
Proof. induction s as [|a s IH]; simpl; [reflexivity|now rewrite IH]. Qed.

Lemma split_no_sep (c : ascii) (s : string) :
  contains c s = false -> split c s = [s].
Proof.
  induction s as [|a s IH]; simpl; intros H; [reflexivity|].
  apply orb_false_iff in H as [Ha Hs].
  rewrite Ha, (IH Hs). reflexivity.
Qed.

Lemma split_not_nil (c : ascii) (s : string) : split c s <> [].
Proof.
  destruct s as [|a s]; simpl; [discriminate|].
  destruct (Ascii.eqb a c); [discriminate|].
  destruct (split c s); discriminate.
Qed.

Lemma split_app_sep (c : ascii) (prefix entity : string) :
  contains c entity = false ->
  split c (prefix ++ String c entity) = split c prefix ++ [entity].
Proof.
  intros H. induction prefix as [|a p IH]; simpl.
  - rewrite Ascii.eqb_refl, (split_no_sep _ _ H). reflexivity.
  - rewrite IH. destruct (Ascii.eqb a c); [reflexivity|].
    pose proof (split_not_nil c p) as Hn.
    destruct (split c p); [contradiction|reflexivity].
Qed.

Lemma concat_snoc (sep : string) (l : list string) (x : string) :
  l <> [] ->
  String.concat sep (l ++ [x]) = (String.concat sep l ++ sep ++ x)%string.
Proof.
  induction l as [|a l IH]; intros Hl; [contradiction|].
  destruct l as [|b l].
  - reflexivity.
  - change (String.concat sep ((a :: b :: l) ++ [x]))
      with (a ++ sep ++ String.concat sep ((b :: l) ++ [x]))%string.
    rewrite IH by discriminate.
    change (String.concat sep (a :: b :: l))
      with (a ++ sep ++ String.concat sep (b :: l))%string.
    rewrite !string_app_assoc. reflexivity.
Qed.

Lemma concat_split (c : ascii) (s : string) :
  String.concat (String c "") (split c s) = s.
Proof.
  induction s as [|a s IH]; [reflexivity|]. simpl.
  destruct (Ascii.eqb_spec a c) as [->|Hne].
  - pose proof (split_not_nil c s) as Hn.
    destruct (split c s) as [|p ps]; [contradiction|].
    change (String.concat (String c "") ("" :: p :: ps))
      with ("" ++ String c "" ++ String.concat (String c "") (p :: ps))%string.
    rewrite IH. reflexivity.
  - pose proof (split_not_nil c s) as Hn.
    destruct (split c s) as [|p ps]; [contradiction|].
    destruct ps as [|q ps].
    + simpl in *. now rewrite IH.
    + change (String.concat (String c "") (String a p :: q :: ps))
        with (String a (p ++ String c "" ++ String.concat (String c "") (q :: ps)))%string.
      f_equal. exact IH.
Qed.

Lemma contains_app (c : ascii) (s t : string) :
  contains c (s ++ t) = contains c s || contains c t.
Proof.
  induction s as [|a s IH]; simpl; [reflexivity|].
  now rewrite IH, orb_assoc.
Qed.

Lemma last_char_cons (b : ascii) (s : string) :
  s <> EmptyString -> last_char (String b s) = last_char s.
Proof. destruct s; [contradiction|reflexivity]. Qed.

Lemma last_char_nonempty (a : ascii) (s : string) :
  last_char (String a s) <> None.
Proof.
  revert a. induction s as [|b s IH]; intros a; [discriminate|].
  rewrite last_char_cons by discriminate. apply IH.
Qed.

Lemma last_char_app_cons (s : string) (a : ascii) (t : string) :
  last_char (s ++ String a t) = last_char (String a t).
Proof.
  induction s as [|b s IH]; [reflexivity|].
  rewrite <- IH. apply last_char_cons. destruct s; discriminate.
Qed.

(** A text that holds a separator splits at its last one. *)
Lemma contains_split_last (c : ascii) (s : string) :
  contains c s = true ->
  exists prefix entity,
    s = (prefix ++ String c entity)%string /\ contains c entity = false.
Proof.
  induction s as [|a s IH]; simpl; [discriminate|].
  intros H. destruct (contains c s) eqn:Hs.
  - destruct (IH eq_refl) as (p & e & -> & He).
    exists (String a p), e. split; [reflexivity|exact He].
  - rewrite orb_false_r in H. apply Ascii.eqb_eq in H as ->.
    exists EmptyString, s. split; [reflexivity|exact Hs].
Qed.

(** The two names [_get_fqn] computes from a dotted key: the wildcard key of
    its namespace and its final segment. *)
Lemma star_key_of_path (prefix entity : string) :
  contains "." entity = false ->
  let parts := split "." (prefix ++ "." ++ entity) in
  String.concat "." (removelast parts ++ ["*"]) = (prefix ++ ".*")%string
  /\ last parts EmptyString = entity.
Proof.
  intros H parts. subst parts.
  change (prefix ++ "." ++ entity)%string with (prefix ++ String "." entity)%string.
  rewrite (split_app_sep _ _ _ H).
  rewrite removelast_last, last_last. split; [|reflexivity].
  rewrite concat_snoc by apply split_not_nil.
  now rewrite (concat_split "." prefix).
Qed.

(** ** Name resolution *)

Lemma lookup_fqn_cases (r : FqnResolver) (k : string) (public : bool) :
  (exists p, _lookup_fqn r k public = Ok p)
  \/ _lookup_fqn r k public = Err (KeyError (VStr k)).
Proof.
  unfold _lookup_fqn.
  destruct (dict_get _ _ k); [left; eauto|right; reflexivity].
Qed.

Lemma get_fqn_exact (r : FqnResolver) (k : string) (public : bool) (p : string) :
  _lookup_fqn r k public = Ok p -> _get_fqn r k public = Ok p.
Proof. unfold _get_fqn. now intros ->. Qed.

Lemma get_fqn_wildcard (r : FqnResolver) (public : bool)
      (prefix entity path : string) :
  let k := (prefix ++ "." ++ entity)%string in
  is_ok (_lookup_fqn r k public) = false ->
  contains "." entity = false ->
  last_char k <> Some "*"%char ->
  _lookup_fqn r (prefix ++ ".*") public = Ok path ->
  _get_fqn r k public = Ok (drop_last path ++ entity)%string.
Proof.
  intros k Hmiss Hent Hlast Hstar. unfold _get_fqn.
  destruct (lookup_fqn_cases r k public) as [[p Hp]|Hp];
    rewrite Hp in *; [discriminate|].
  destruct (last_char k) as [c|] eqn:Hc.
  - assert (Ascii.eqb c "*" = false) as ->.
    { apply Ascii.eqb_neq. intros E. subst c. now apply Hlast. }
    assert (contains "." k = true) as ->.
    { unfold k. rewrite contains_app. simpl. apply orb_true_r. }
    simpl negb. cbv beta iota. simpl andb.
    destruct (star_key_of_path prefix entity Hent) as [Hk He].
    fold k in Hk, He. cbv zeta in Hk, He |- *.
    rewrite Hk, He, Hstar. reflexivity.
  - unfold k in Hc. change (prefix ++ "." ++ entity)%string
      with (prefix ++ String "." entity)%string in Hc.
    rewrite last_char_app_cons in Hc. now apply last_char_nonempty in Hc.
Qed.

Lemma get_fqn_ok_inv (r : FqnResolver) (k : string) (public : bool) (p : string) :
  _get_fqn r k public = Ok p ->
  _lookup_fqn r k public = Ok p
  \/ (is_ok (_lookup_fqn r k public) = false
      /\ contains "." k = true
      /\ last_char k <> Some "*"%char
      /\ exists prefix entity path,
           k = (prefix ++ "." ++ entity)%string
           /\ contains "." entity = false
           /\ _lookup_fqn r (prefix ++ ".*") public = Ok path
           /\ p = (drop_last path ++ entity)%string).
Proof.
  unfold _get_fqn.
  destruct (lookup_fqn_cases r k public) as [[q Hq]|Hq]; rewrite Hq.
  - intros [= ->]. now left.
  - destruct (last_char k) as [c|] eqn:Hc; [|discriminate].
    destruct (Ascii.eqb c "*") eqn:Hstar; [discriminate|].
    destruct (contains "." k) eqn:Hdot; [|discriminate].
    simpl negb. simpl andb. cbv beta iota zeta.
    destruct (contains_split_last _ _ Hdot) as (prefix & entity & Hk & Hent).
    destruct (star_key_of_path prefix entity Hent) as [Hsk He].
    change (prefix ++ "." ++ entity)%string
      with (prefix ++ String "." entity)%string in Hsk, He.
    cbv zeta in Hsk, He. rewrite <- Hk in Hsk, He. rewrite Hsk, He.
    destruct (_lookup_fqn r (prefix ++ ".*") public) as [path|e] eqn:Hp;
      [|discriminate].
    intros [= <-]. right. repeat split; trivial.
    + intros E. injection E as E. subst c. discriminate.
    + exists prefix, entity, path. repeat split; trivial.
Qed.

Lemma get_fqn_error (r : FqnResolver) (k : string) (public : bool) :
  is_ok (_lookup_fqn r k public) = false ->
  (contains "." k = false
   \/ last_char k = Some "*"%char
   \/ forall prefix entity,
        k = (prefix ++ "." ++ entity)%string -> contains "." entity = false ->
        is_ok (_lookup_fqn r (prefix ++ ".*") public) = false) ->
  exists e, _get_fqn r k public = Err e.
Proof.
  intros Hmiss Hno.
  destruct (_get_fqn r k public) as [p|e] eqn:E; [|eauto].
  apply get_fqn_ok_inv in E as [E|(_ & Hdot & Hlast & pre & ent & path & Hk & He & Hp & _)].
  - rewrite E in Hmiss. discriminate.
  - destruct Hno as [H|[H|H]].
    + congruence.
    + contradiction.
    + specialize (H pre ent Hk He). rewrite Hp in H. discriminate.
Qed.

Lemma get_fqn_empty (r : FqnResolver) (public : bool) :
  is_ok (_lookup_fqn r EmptyString public) = false ->
  _get_fqn r EmptyString public = Err IndexError.
Proof.
  intros Hmiss. unfold _get_fqn.
  destruct (lookup_fqn_cases r EmptyString public) as [[p Hp]|Hp];
    rewrite Hp in *; [discriminate|reflexivity].
Qed.

Lemma get_fqn_no_retry (r : FqnResolver) (k : string) (public : bool) :
  is_ok (_lookup_fqn r k public) = false ->
  k <> EmptyString ->
  contains "." k = false \/ last_char k = Some "*"%char ->
  _get_fqn r k public = Err (KeyError (VStr k)).
Proof.
  intros Hmiss Hk Hno. unfold _get_fqn.
  destruct (lookup_fqn_cases r k public) as [[p Hp]|Hp];
    rewrite Hp in *; [discriminate|].
  destruct (last_char k) as [c|] eqn:Hc.
  - destruct Hno as [Hdot|Hstar].
    + rewrite Hdot, andb_false_r. reflexivity.
    + injection Hstar as ->. reflexivity.
  - destruct k as [|a k]; [contradiction|].
    now apply last_char_nonempty in Hc.
Qed.

Lemma get_fqn_retry_fails (r : FqnResolver) (public : bool)
      (prefix entity : string) :
  let k := (prefix ++ "." ++ entity)%string in
  is_ok (_lookup_fqn r k public) = false ->
  contains "." entity = false ->
  last_char k <> Some "*"%char ->
  is_ok (_lookup_fqn r (prefix ++ ".*") public) = false ->
  _get_fqn r k public = Err (KeyError (VStr (prefix ++ ".*"))).
Proof.
  intros k Hmiss Hent Hlast Hstar. unfold _get_fqn.
  destruct (lookup_fqn_cases r k public) as [[p Hp]|Hp];
    rewrite Hp in *; [discriminate|].
  destruct (last_char k) as [c|] eqn:Hc.
  - assert (Ascii.eqb c "*" = false) as ->.
    { apply Ascii.eqb_neq. intros E. subst c. now apply Hlast. }
    assert (contains "." k = true) as ->.
    { unfold k. rewrite contains_app. simpl. apply orb_true_r. }
    simpl negb. cbv beta iota. simpl andb.
    destruct (star_key_of_path prefix entity Hent) as [Hk He].
    fold k in Hk, He. cbv zeta in Hk, He |- *.
    rewrite Hk, He.
    destruct (lookup_fqn_cases r (prefix ++ ".*") public) as [[q Hq]|Hq];
      rewrite Hq in *; [discriminate|reflexivity].
  - unfold k in Hc. change (prefix ++ "." ++ entity)%string
      with (prefix ++ String "." entity)%string in Hc.
    rewrite last_char_app_cons in Hc. now apply last_char_nonempty in Hc.
Qed.

(** C3 (as amended).  Resolving a path looks it up exactly first and returns
    that entry when there is one.  Only when there is none, the path holds a
    "." and the path does not itself end in "*" is the final segment replaced
    by "*" and the lookup retried; on success the final segment is appended to
    the matched path without its last character.  Every successful resolution
    is one of these two, in both directions of the map ([public] chooses the
    table).  In every other case an exception is raised: the KeyError of the
    path itself when there is no retry (no ".", or a path that ends in "*"),
    the KeyError of the wildcard key when the retry finds nothing, and
    IndexError for the empty path, whose last character is asked for. *)
Theorem get_fqn_resolution (r : FqnResolver) (k : string) (public : bool) :
  (forall p, _lookup_fqn r k public = Ok p -> _get_fqn r k public = Ok p)
  /\ (forall prefix entity path,
        k = (prefix ++ "." ++ entity)%string ->
        contains "." entity = false ->
        is_ok (_lookup_fqn r k public) = false ->
        last_char k <> Some "*"%char ->
        _lookup_fqn r (prefix ++ ".*") public = Ok path ->
        _get_fqn r k public = Ok (drop_last path ++ entity)%string)
  /\ (forall p, _get_fqn r k public = Ok p ->
        _lookup_fqn r k public = Ok p
        \/ (is_ok (_lookup_fqn r k public) = false
            /\ contains "." k = true
            /\ last_char k <> Some "*"%char
            /\ exists prefix entity path,
                 k = (prefix ++ "." ++ entity)%string
                 /\ contains "." entity = false
                 /\ _lookup_fqn r (prefix ++ ".*") public = Ok path
                 /\ p = (drop_last path ++ entity)%string))
  /\ (is_ok (_lookup_fqn r k public) = false ->
      (contains "." k = false
       \/ last_char k = Some "*"%char
       \/ forall prefix entity,
            k = (prefix ++ "." ++ entity)%string -> contains "." entity = false ->
            is_ok (_lookup_fqn r (prefix ++ ".*") public) = false) ->
      exists e, _get_fqn r k public = Err e)
  /\ (is_ok (_lookup_fqn r k public) = false ->
      k <> EmptyString ->
      contains "." k = false \/ last_char k = Some "*"%char ->
      _get_fqn r k public = Err (KeyError (VStr k)))
  /\ (forall prefix entity,
        k = (prefix ++ "." ++ entity)%string ->
        contains "." entity = false ->
        is_ok (_lookup_fqn r k public) = false ->
        last_char k <> Some "*"%char ->
        is_ok (_lookup_fqn r (prefix ++ ".*") public) = false ->
        _get_fqn r k public = Err (KeyError (VStr (prefix ++ ".*"))))
  /\ (k = EmptyString ->
      is_ok (_lookup_fqn r k public) = false ->
      _get_fqn r k public = Err IndexError).
Proof.
  repeat split.
  - apply get_fqn_exact.
  - intros prefix entity path -> He Hm Hl Hp. now apply get_fqn_wildcard.
  - intros p Hp.
    destruct (get_fqn_ok_inv _ _ _ Hp) as [H|(H1 & H2 & H3 & H4)]; auto.
  - intros Hm H. now apply get_fqn_error.
  - apply get_fqn_no_retry.
  - intros prefix entity -> He Hm Hl Hs. now apply get_fqn_retry_fails.
  - intros -> Hm. now apply get_fqn_empty.
Qed.

Lemma get_fqn_resolution_witness :
  _get_fqn (new_FqnResolver wildcard_map) "a.b.Foo" true = Ok "x.y.Foo"
  /\ instance_to_fqn (new_FqnResolver wildcard_map) "x.y" "Bar" = Ok "a.b.Bar"
  /\ _get_fqn (new_FqnResolver override_map) "a.b.C" true = Ok "x.y.Special"
  /\ (exists e, _get_fqn (new_FqnResolver wildcard_map) "c.Foo" true = Err e)
  /\ _get_fqn (new_FqnResolver wildcard_map) "a.b.c*" true
     = Err (KeyError (VStr "a.b.c*"))
  /\ _get_fqn (new_FqnResolver wildcard_map) "c.Foo" true
     = Err (KeyError (VStr "c.*"))
  /\ _get_fqn (new_FqnResolver wildcard_map) EmptyString true = Err IndexError.
Proof.
  split; [|split; [|split; [|split; [|split; [|split]]]]].
  - apply (proj1 (proj2 (get_fqn_resolution
                           (new_FqnResolver wildcard_map) "a.b.Foo" true))
             "a.b" "Foo" "x.y.*"); try reflexivity.
    discriminate.
  - apply (proj1 (proj2 (get_fqn_resolution
                           (new_FqnResolver wildcard_map) "x.y.Bar" false))
             "x.y" "Bar" "a.b.*"); try reflexivity.
    discriminate.
  - apply (proj1 (get_fqn_resolution
                    (new_FqnResolver override_map) "a.b.C" true)).
    reflexivity.
  - apply (proj1 (proj2 (proj2 (proj2 (get_fqn_resolution
                                  (new_FqnResolver wildcard_map) "c.Foo" true)))));
      [reflexivity|].
    right. right. intros prefix entity Hk He.
    assert (split "." "c.Foo" = split "." prefix ++ [entity]) as Hs.
    { rewrite Hk. apply (split_app_sep "." prefix entity He). }
    simpl in Hs.
    assert (prefix = "c") as ->.
    { rewrite <- (concat_split "." prefix).
      apply (f_equal (@removelast string)) in Hs.
      rewrite removelast_last in Hs. rewrite <- Hs. reflexivity. }
    reflexivity.
  - apply (proj1 (proj2 (proj2 (proj2 (proj2 (get_fqn_resolution
                    (new_FqnResolver wildcard_map) "a.b.c*" true))))));
      [reflexivity|discriminate|now right].
  - apply (proj1 (proj2 (proj2 (proj2 (proj2 (proj2 (get_fqn_resolution
                    (new_FqnResolver wildcard_map) "c.Foo" true))))))
             "c" "Foo"); try reflexivity.
    discriminate.
  - apply (proj2 (proj2 (proj2 (proj2 (proj2 (proj2 (get_fqn_resolution
                    (new_FqnResolver wildcard_map) EmptyString true)))))));
      reflexivity.
Defined.

(** C3, as stated, fails for a path that ends in "*": the exact entry is
    absent, the path holds a ".", the wildcard entry of its namespace exists,
    and yet the lookup is not retried; the KeyError of the path is raised. *)
Lemma star_path_is_not_retried :
  is_ok (_lookup_fqn (new_FqnResolver wildcard_map) "a.b.c*" true) = false
  /\ contains "." "a.b.c*" = true
  /\ _lookup_fqn (new_FqnResolver wildcard_map) "a.b.*" true = Ok "x.y.*"
  /\ _get_fqn (new_FqnResolver wildcard_map) "a.b.c*" true
     = Err (KeyError (VStr "a.b.c*")).
Proof. repeat split. Qed.

(** ** Codec dispatch *)

Lemma first_codec_split (cs : list (string * codec)) (v : value) (c : codec) :
  first_codec cs v = Some c ->
  exists before name after,
    cs = before ++ (name, c) :: after
    /\ Forall (rejects v) before /\ handles c v = true.
Proof.
  induction cs as [|[n c'] cs IH]; simpl; [discriminate|].
  destruct (handles c' v) eqn:H.
  - intros [= ->]. exists [], n, cs. repeat split; auto.
  - intros Hc. destruct (IH Hc) as (b & n' & a & -> & Hb & Hh).
    exists ((n, c') :: b), n', a. repeat split; auto.
Qed.

Lemma first_codec_at (before after : list (string * codec)) (name : string)
      (c : codec) (v : value) :
  Forall (rejects v) before -> handles c v = true ->
  first_codec (before ++ (name, c) :: after) v = Some c.
Proof.
  intros Hb Hc. induction Hb as [|[n c'] b Hr _ IH]; simpl.
  - now rewrite Hc.
  - unfold rejects in Hr. simpl in Hr. now rewrite Hr.
Qed.

Lemma handled_first_codec (cs : list (string * codec)) (v : value) :
  existsb (fun c => handles (snd c) v) cs = true <-> first_codec cs v <> None.
Proof.
  induction cs as [|[n c] cs IH]; simpl.
  - split; [discriminate|congruence].
  - destruct (handles c v); simpl; [split; [discriminate|reflexivity]|exact IH].
Qed.

Lemma serialise_data_handled (m : Marshall) (v : value) :
  _is_handled_by_codec m v = true ->
  serialise_data m v = _object_to_codec_dict m v.
Proof. intros H. destruct v; simpl; rewrite H; reflexivity. Qed.

Lemma dict_get_none_set (V : Type) (d : list (string * V)) (k : string) (v : V) :
  dict_mem String.eqb d k = false -> dict_set String.eqb d k v = d ++ [(k, v)].
Proof.
  unfold dict_mem. induction d as [|[k' v'] d IH]; simpl; [reflexivity|].
  destruct (String.eqb k k'); [discriminate|].
  intros H. now rewrite IH.
Qed.

Lemma register_codec_fresh (m : Marshall) (name : string) (c : codec) :
  has_codec m name = false ->
  _codecs (register_codec m name c) = _codecs m ++ [(name, c)].
Proof. intros H. simpl. now apply dict_get_none_set. Qed.

Lemma dict_mem_app (V : Type) (d d' : list (string * V)) (k : string) :
  dict_mem String.eqb (d ++ d') k
  = dict_mem String.eqb d k || dict_mem String.eqb d' k.
Proof.
  unfold dict_mem. induction d as [|[k' v'] d IH]; simpl; [reflexivity|].
  destruct (String.eqb k k'); [reflexivity|exact IH].
Qed.

Lemma dict_mem_false_notin (V : Type) (d : list (string * V)) (k : string) :
  dict_mem String.eqb d k = false <-> ~ In k (map fst d).
Proof.
  unfold dict_mem. induction d as [|[k' v'] d IH]; simpl.
  - split; auto.
  - destruct (String.eqb_spec k k') as [->|Hne].
    + split; [discriminate|]. intros H. exfalso. apply H. now left.
    + rewrite IH. split; [intros H [E|E]; [congruence|auto]|intros H E; apply H; auto].
Qed.

(** Codecs registered under names not yet in use are kept in the order of
    their registration. *)
Lemma register_all_order (m : Marshall) (cs : list (string * codec)) :
  NoDup (map fst cs) ->
  (forall n, In n (map fst cs) -> has_codec m n = false) ->
  _codecs (register_all m cs) = _codecs m ++ cs.
Proof.
  revert m. induction cs as [|[n c] cs IH]; intros m Hnd Hfresh.
  - simpl. now rewrite app_nil_r.
  - inversion Hnd as [|? ? Hn Hnd']; subst.
    change (register_all m ((n, c) :: cs))
      with (register_all (register_codec m n c) cs).
    rewrite IH; clear IH; trivial.
    + rewrite register_codec_fresh by (apply Hfresh; now left).
      now rewrite <- app_assoc.
    + intros n' Hn'. unfold has_codec.
      rewrite register_codec_fresh by (apply Hfresh; now left).
      rewrite dict_mem_app. apply orb_false_iff. split.
      * apply Hfresh. now right.
      * unfold dict_mem. simpl. destruct (String.eqb_spec n' n) as [->|]; auto.
        contradiction.
Qed.

(** C4. A value accepted by a registered codec is encoded by that codec's
    [serialise] and by nothing else: the codec test comes before the sequence,
    mapping, simple-type and generic-object branches.  Codecs are tried in the
    order of the registry and the first one that accepts the value is used; a
    codec registered afterwards under a new name is placed after the others
    and does not change the outcome. *)
Theorem codec_precedence (m : Marshall) (v : value)
        (before after : list (string * codec)) (name : string) (c : codec) :
  _codecs m = before ++ (name, c) :: after ->
  Forall (rejects v) before ->
  handles c v = true ->
  serialise_data m v = serialise c v
  /\ forall name' c',
       has_codec m name' = false ->
       _codecs (register_codec m name' c') = _codecs m ++ [(name', c')]
       /\ serialise_data (register_codec m name' c') v = serialise c v.
Proof.
  intros Hcs Hb Hc.
  assert (forall m' after', _codecs m' = before ++ (name, c) :: after' ->
                            serialise_data m' v = serialise c v) as Hgen.
  { intros m' after' Hm'.
    rewrite serialise_data_handled.
    - unfold _object_to_codec_dict. rewrite Hm'.
      now rewrite (@first_codec_at before after' name c v Hb Hc).
    - unfold _is_handled_by_codec. apply handled_first_codec. rewrite Hm'.
      rewrite (@first_codec_at before after' name c v Hb Hc). discriminate. }
  split; [now apply (Hgen m after)|].
  intros name' c' Hfresh.
  pose proof (@register_codec_fresh m name' c' Hfresh) as Hreg.
  split; [exact Hreg|].
  apply (Hgen _ (after ++ [(name', c')])).
  rewrite Hreg, Hcs, <- app_assoc. reflexivity.
Qed.


Lemma codec_precedence_witness :
  serialise_data example_marshall money = serialise money_codec money
  /\ serialise_data (new_Marshall example_resolver None) money
     = Ok (VDict [(KStr "__fqn__", VStr "shop.Money"); (KStr "amount", VInt 5)]).
Proof.
  split; [|reflexivity].
  apply (@codec_precedence example_marshall money
           [("codecs.Datetime", datetime_codec)] [] "codecs.Money" money_codec).
  - reflexivity.
  - repeat constructor.
  - reflexivity.
Defined.


(** ** Decoding: the branch a node takes *)

Section DecodeFacts.
Variable import_module : string -> result (string -> option pyclass).
Variable m : Marshall.

Local Abbreviation decode := (deserialise_data import_module m).

Lemma classify_dict (kvs : list (key * value)) :
  classify (VDict kvs) =
    if key_in "_value_" kvs && key_in "_name_" kvs then EnumEnvelope
    else if key_in "__fqn__" kvs then ObjectEnvelope
    else if key_in "__codec__" kvs then CodecEnvelope
    else PlainMapping.
Proof. unfold classify. simpl. reflexivity. Qed.

Lemma deserialise_dict (kvs : list (key * value)) :
  decode (VDict kvs) =
    match classify (VDict kvs) with
    | EnumEnvelope => _dict_to_enum import_module m kvs
    | ObjectEnvelope =>
        _dict_to_object import_module decode (_fqn_resolver m) kvs
    | CodecEnvelope => _codec_dict_to_object m kvs
    | _ =>
        items <- for_items (fun _ => true) decode kvs ;;
        Ok (VMap (assign_all key_eqb [] items))
    end.
Proof.
  rewrite classify_dict. simpl.
  destruct (key_in "_value_" kvs && key_in "_name_" kvs); [reflexivity|].
  destruct (key_in "__fqn__" kvs); [reflexivity|].
  destruct (key_in "__codec__" kvs); reflexivity.
Qed.

Lemma classify_not_dict (data : value) :
  (forall kvs, data <> VDict kvs) ->
  classify data =
    if _is_sequence data then Sequence
    else if _is_mapping data then PlainMapping else Leaf.
Proof. intros H. destruct data; try reflexivity. now destruct (H kvs). Qed.
End DecodeFacts.

(** ** Loops over items *)

Lemma bind_Ok {A B} (a : A) (f : A -> result B) : bind (Ok a) f = f a.
Proof. reflexivity. Qed.

Lemma bind_ok {A B} (x : result A) (f : A -> result B) (b : B) :
  bind x f = Ok b -> exists a, x = Ok a /\ f a = Ok b.
Proof. destruct x as [a|e]; simpl; [eauto|discriminate]. Qed.

Lemma mapM_ok {A B} (f : A -> result B) (l : list A) (r : list B) :
  mapM f l = Ok r <-> Forall2 (fun x y => f x = Ok y) l r.
Proof.
  revert r. induction l as [|x l IH]; intros r; simpl.
  - split; [intros [= <-]; constructor|inversion 1; reflexivity].
  - split.
    + intros H. apply bind_ok in H as (y & Hy & H).
      apply bind_ok in H as (ys & Hys & [= <-]).
      constructor; [exact Hy|now apply IH].
    + inversion 1 as [|? y ? ys Hy Hys]; subst.
      apply IH in Hys. now rewrite Hy, Hys.
Qed.

Lemma for_items_ok {K A B} (f : A -> result B) (l : list (K * A))
      (r : list (K * B)) :
  for_items (fun _ => true) f l = Ok r <-> Forall2 (item_of f) l r.
Proof.
  revert r. induction l as [|[k a] l IH]; intros r; simpl.
  - split; [intros [= <-]; constructor|inversion 1; reflexivity].
  - split.
    + intros H. apply bind_ok in H as (y & Hy & H).
      apply bind_ok in H as (ys & Hys & [= <-]).
      constructor; [now split|now apply IH].
    + inversion 1 as [|? [k' b] ? ys [Hk Hy] Hys]; subst.
      simpl in Hk, Hy. subst k'.
      apply IH in Hys. now rewrite Hy, Hys.
Qed.

Lemma for_items_keys {K A B} (keep : K -> bool) (f : A -> result B)
      (l : list (K * A)) (r : list (K * B)) :
  for_items keep f l = Ok r ->
  forall k, In k (map fst r) -> In k (map fst l) /\ keep k = true.
Proof.
  revert r. induction l as [|[k a] l IH]; intros r; simpl.
  - intros [= <-] k [].
  - destruct (keep k) eqn:Hk.
    + intros H. apply bind_ok in H as (y & Hy & H).
      apply bind_ok in H as (ys & Hys & [= <-]).
      intros k' [<-|Hin]; [auto|].
      destruct (IH _ Hys _ Hin). auto.
    + intros H k' Hin. destruct (IH _ H _ Hin). auto.
Qed.

Lemma dict_set_keys {K V} (eqb : K -> K -> bool) (d : list (K * V))
      (k : K) (v : V) (x : K) :
  In x (map fst (dict_set eqb d k v)) -> In x (map fst d) \/ x = k.
Proof.
  induction d as [|[k' v'] d IH]; simpl.
  - intros [<-|[]]. now right.
  - destruct (eqb k k'); simpl; [tauto|].
    intros [<-|H]; [tauto|]. destruct (IH H); tauto.
Qed.

Lemma assign_all_keys {K V} (eqb : K -> K -> bool) (items d : list (K * V))
      (x : K) :
  In x (map fst (assign_all eqb d items)) ->
  In x (map fst d) \/ In x (map fst items).
Proof.
  revert d. induction items as [|[k v] items IH]; intros d; simpl; [tauto|].
  intros H. destruct (IH _ H) as [H'|H']; [|tauto].
  destruct (dict_set_keys _ _ _ _ _ H'); [tauto|subst; tauto].
Qed.

(** ** Envelope keys *)

Lemma object_to_dict_keys (rec : value -> result value) (r : FqnResolver)
      (cls_module cls_name : string) (class_attrs : list (string * value))
      (json_data : option (list (string * value)))
      (vars : list (string * value)) (env : list (key * value)) :
  _object_to_dict rec r cls_module cls_name class_attrs json_data vars
  = Ok (VDict env) ->
  forall k, In k (map fst env) ->
  exists s, k = KStr s
    /\ (In s metadata_keys
        \/ (is_dunder s = false
            /\ In s (map fst match json_data with Some d => d | None => vars end))).
Proof.
  unfold _object_to_dict. intros H.
  apply bind_ok in H as (fqn & _ & H).
  apply bind_ok in H as (data3 & H3 & H).
  apply bind_ok in H as (fields & Hf & [= <-]).
  intros k Hk. unfold str_keys in Hk. rewrite map_map in Hk. simpl in Hk.
  apply in_map_iff in Hk as ([s v] & <- & Hin). simpl.
  exists s. split; [reflexivity|].
  apply (in_map fst) in Hin. simpl in Hin.
  apply assign_all_keys in Hin as [Hin|Hin].
  - left.
    assert (forall d2 : list (string * value),
               (forall x, In x (map fst d2) -> In x metadata_keys) ->
               forall t, In s (map fst (dict_set String.eqb d2 "__timestamp__" t))
               -> In s metadata_keys) as Hts.
    { intros d2 Hd2 t Hs. apply dict_set_keys in Hs as [Hs| ->]; [auto|].
      simpl. tauto. }
    assert (forall x,
               In x (map fst
                 match getattr class_attrs vars "__msgid__" with
                 | Some v0 =>
                     dict_set String.eqb
                       match getattr class_attrs vars "__version__" with
                       | Some v1 =>
                           dict_set String.eqb [("__fqn__", VStr fqn)]
                             "__version__" v1
                       | None => [("__fqn__", VStr fqn)]
                       end "__msgid__" v0
                 | None =>
                     match getattr class_attrs vars "__version__" with
                     | Some v1 =>
                         dict_set String.eqb [("__fqn__", VStr fqn)]
                           "__version__" v1
                     | None => [("__fqn__", VStr fqn)]
                     end
                 end) -> In x metadata_keys) as H2.
    { intros x Hx.
      destruct (getattr class_attrs vars "__msgid__");
        destruct (getattr class_attrs vars "__version__"); simpl in Hx;
        intuition (subst; simpl; tauto). }
    destruct (with_attr rec "__timestamp__" vars) as [t'|].
    + apply bind_ok in H3 as (t & _ & [= <-]). eapply Hts; eauto.
    + destruct (with_attr rec "__timestamp__" class_attrs) as [t'|].
      * apply bind_ok in H3 as (t & _ & [= <-]). eapply Hts; eauto.
      * injection H3 as <-. now apply H2.
  - right. destruct (for_items_keys _ _ _ Hf _ Hin) as [H1 H2].
    split; [|exact H1]. now destruct (is_dunder s).
Qed.

(** C5 (as amended). A decoded dict takes exactly one branch, chosen by its
    reserved keys in a fixed order: an enum envelope when it holds both
    [_value_] and [_name_], else an object envelope when it holds [__fqn__],
    else a codec envelope when it holds [__codec__], else a plain mapping.
    The reserved keys [__fqn__], [__version__], [__msgid__], [__timestamp__]
    and [__codec__] begin with the marker "__", and the encoder writes an
    exported field under a name without that marker only: every key of an
    object envelope is one of the four metadata keys or an unmarked attribute
    name of the object. *)
Theorem decode_classification
        (import_module : string -> result (string -> option pyclass))
        (m : Marshall) :
  (forall kvs,
      classify (VDict kvs) =
        if key_in "_value_" kvs && key_in "_name_" kvs then EnumEnvelope
        else if key_in "__fqn__" kvs then ObjectEnvelope
        else if key_in "__codec__" kvs then CodecEnvelope
        else PlainMapping)
  /\ (forall kvs,
        deserialise_data import_module m (VDict kvs) =
          match classify (VDict kvs) with
          | EnumEnvelope => _dict_to_enum import_module m kvs
          | ObjectEnvelope =>
              _dict_to_object import_module
                (deserialise_data import_module m) (_fqn_resolver m) kvs
          | CodecEnvelope => _codec_dict_to_object m kvs
          | _ =>
              items <- for_items (fun _ => true)
                         (deserialise_data import_module m) kvs ;;
              Ok (VMap (assign_all key_eqb [] items))
          end)
  /\ Forall (fun k => is_dunder k = true) marked_keys
  /\ (forall cls_module cls_name class_attrs json_data vars env,
        _object_to_dict (serialise_data m) (_fqn_resolver m)
          cls_module cls_name class_attrs json_data vars = Ok (VDict env) ->
        forall k, In k (map fst env) ->
        exists s, k = KStr s
          /\ (In s metadata_keys
              \/ (is_dunder s = false
                  /\ In s (map fst match json_data with
                                   | Some d => d
                                   | None => vars
                                   end)))).
Proof.
  split; [apply classify_dict|].
  split; [apply deserialise_dict|].
  split; [repeat constructor|].
  intros. eapply object_to_dict_keys; eauto.
Qed.

Lemma decode_classification_witness :
  classify (VDict [(KStr "__fqn__", VStr "shop.Item"); (KStr "__codec__", VNone)])
  = ObjectEnvelope
  /\ exists s, KStr "name" = KStr s
       /\ (In s metadata_keys
           \/ (is_dunder s = false /\ In s (map fst [("name", VStr "pen")]))).
Proof.
  split.
  - rewrite (proj1 (decode_classification example_modules plain_marshall)).
    reflexivity.
  - apply (proj2 (proj2 (proj2
             (decode_classification example_modules plain_marshall)))
             "app.shop" "Item" [] None [("name", VStr "pen")]
             [(KStr "__fqn__", VStr "shop.Item"); (KStr "name", VStr "pen")]).
    + reflexivity.
    + simpl. tauto.
Defined.

(** C5, as stated, fails: the reserved keys [params], [_name_] and [_value_]
    do not begin with the marker, and the encoder exports attributes of those
    names as ordinary fields.  The envelope the generic-object branch builds
    for an object with the attributes [_value_] and [_name_] is decoded as an
    enum envelope. *)
Lemma reserved_keys_unmarked :
  In "params" reserved_keys /\ is_dunder "params" = false
  /\ In "_name_" reserved_keys /\ is_dunder "_name_" = false
  /\ In "_value_" reserved_keys /\ is_dunder "_value_" = false
  /\ serialise_data plain_marshall colour_red
     = Ok (VDict [(KStr "__fqn__", VStr "shop.Colour");
                  (KStr "_value_", VInt 1); (KStr "_name_", VStr "RED")])
  /\ classify (VDict [(KStr "__fqn__", VStr "shop.Colour");
                      (KStr "_value_", VInt 1); (KStr "_name_", VStr "RED")])
     = EnumEnvelope.
Proof. repeat split; simpl; tauto. Qed.

(** ** Containers built by the decoder *)

(** C6 (as amended). A plain mapping node is returned as an immutable mapping
    with the same keys, each value recursively deserialised; a sequence node
    is returned as a list of the recursively deserialised elements, which is a
    mutable container; any other plain node is returned as it is and is no
    mutable container. *)
Theorem decoded_containers
        (import_module : string -> result (string -> option pyclass))
        (m : Marshall) (data r : value) :
  deserialise_data import_module m data = Ok r ->
  (classify data = PlainMapping ->
   exists kvs items,
     (data = VDict kvs \/ data = VMap kvs)
     /\ Forall2 (item_of (deserialise_data import_module m)) kvs items
     /\ r = VMap (assign_all key_eqb [] items)
     /\ is_mutable_container r = false)
  /\ (classify data = Sequence ->
      exists xs ys,
        (data = VList xs \/ data = VTuple xs)
        /\ Forall2 (fun x y => deserialise_data import_module m x = Ok y) xs ys
        /\ r = VList ys
        /\ is_mutable_container r = true)
  /\ (classify data = Leaf -> r = data /\ is_mutable_container r = false).
Proof.
  intros H. destruct data;
    try (split; [discriminate|split; [discriminate|]];
         intros _; simpl in H; injection H as <-; split; reflexivity).
  - (* list *)
    split; [discriminate|split; [|discriminate]]. intros _.
    simpl in H. apply bind_ok in H as (ys & Hys & [= <-]).
    exists xs, ys. repeat split; auto. now apply mapM_ok.
  - (* tuple *)
    split; [discriminate|split; [|discriminate]]. intros _.
    simpl in H. apply bind_ok in H as (ys & Hys & [= <-]).
    exists xs, ys. repeat split; auto. now apply mapM_ok.
  - (* dict *)
    rewrite deserialise_dict in H.
    split; [|split; intros Hc; rewrite classify_dict in Hc;
             destruct (key_in "_value_" kvs && key_in "_name_" kvs);
             [discriminate|destruct (key_in "__fqn__" kvs);
               [discriminate|destruct (key_in "__codec__" kvs); discriminate]
             |discriminate|destruct (key_in "__fqn__" kvs);
               [discriminate|destruct (key_in "__codec__" kvs); discriminate]]].
    intros Hc. rewrite Hc in H.
    apply bind_ok in H as (items & Hitems & [= <-]).
    exists kvs, items. repeat split; auto. now apply for_items_ok.
  - (* set *)
    simpl in H. discriminate.
  - (* immutable map *)
    split; [|split; discriminate]. intros _.
    simpl in H. apply bind_ok in H as (items & Hitems & [= <-]).
    exists kvs, items. repeat split; auto. now apply for_items_ok.
Qed.

Lemma decoded_containers_witness :
  exists kvs items,
    (VDict [(KStr "a", VList [VInt 1])] = VDict kvs
     \/ VDict [(KStr "a", VList [VInt 1])] = VMap kvs)
    /\ Forall2 (item_of (deserialise_data example_modules plain_marshall))
         kvs items
    /\ VMap [(KStr "a", VList [VInt 1])] = VMap (assign_all key_eqb [] items)
    /\ is_mutable_container (VMap [(KStr "a", VList [VInt 1])]) = false.
Proof.
  apply (proj1 (@decoded_containers example_modules plain_marshall
                  (VDict [(KStr "a", VList [VInt 1])])
                  (VMap [(KStr "a", VList [VInt 1])]) eq_refl)).
  reflexivity.
Defined.

(** C6, as stated, fails: a sequence is decoded to a list, and a list is a
    mutable container, also inside an immutable mapping. *)
Lemma decode_returns_list :
  from_json example_modules plain_marshall "[1,2]" = Ok (VList [VInt 1; VInt 2])
  /\ deserialise_data example_modules plain_marshall (VList [VInt 1; VInt 2])
     = Ok (VList [VInt 1; VInt 2])
  /\ is_mutable_container (VList [VInt 1; VInt 2]) = true.
Proof. repeat split; vm_compute; reflexivity. Qed.

(** ** Failures of decoding *)

Lemma classify_codec_envelope (kvs : list (key * value)) :
  classify (VDict kvs) = CodecEnvelope ->
  exists fcn, getitem kvs "__codec__" = Ok fcn.
Proof.
  rewrite classify_dict.
  destruct (key_in "_value_" kvs && key_in "_name_" kvs); [discriminate|].
  destruct (key_in "__fqn__" kvs); [discriminate|].
  unfold key_in, dict_mem, getitem.
  destruct (dict_get key_eqb kvs (KStr "__codec__")); [eauto|discriminate].
Qed.

(** A codec envelope that names a codec the registry does not hold: the
    registry subscript raises KeyError with that name. *)
Lemma unknown_codec_key_error
      (import_module : string -> result (string -> option pyclass))
      (m : Marshall) (kvs : list (key * value)) (name : string) :
  classify (VDict kvs) = CodecEnvelope ->
  getitem kvs "__codec__" = Ok (VStr name) ->
  has_codec m name = false ->
  deserialise_data import_module m (VDict kvs) = Err (KeyError (VStr name)).
Proof.
  intros Hc Hn Hm. rewrite deserialise_dict, Hc.
  unfold _codec_dict_to_object. rewrite Hn. simpl.
  unfold has_codec, dict_mem in Hm.
  destruct (dict_get String.eqb (_codecs m) name); [discriminate|reflexivity].
Qed.

(** C8. At a codec envelope naming a codec that is not registered, decoding
    fails with the KeyError of the registry subscript; [NoCodecError], the
    exception the module declares, is not what is raised. *)
Theorem unknown_codec_raises_key_error :
  has_codec example_marshall "codecs.Missing" = false
  /\ from_json example_modules example_marshall (print unknown_codec_envelope)
     = Err (KeyError (VStr "codecs.Missing"))
  /\ from_json example_modules example_marshall (print unknown_codec_envelope)
     <> Err NoCodecError.
Proof.
  split; [reflexivity|]. split; [vm_compute; reflexivity|].
  vm_compute. discriminate.
Qed.

Lemma get_fqn_error_kind (r : FqnResolver) (k : string) (public : bool) (e : exn) :
  _get_fqn r k public = Err e ->
  (k = EmptyString /\ e = IndexError) \/ exists k', e = KeyError (VStr k').
Proof.
  unfold _get_fqn.
  destruct (lookup_fqn_cases r k public) as [[p Hp]|Hp]; rewrite Hp;
    [discriminate|].
  destruct (last_char k) as [c|] eqn:Hc.
  - destruct (negb (Ascii.eqb c "*") && contains "." k).
    + cbv zeta.
      match goal with
      | |- context [_lookup_fqn r ?sk public] =>
          destruct (lookup_fqn_cases r sk public) as [[q Hq]|Hq]; rewrite Hq
      end; simpl; [discriminate|].
      intros [= <-]. right. eauto.
    + intros [= <-]. right. eauto.
  - intros [= <-]. left. split; [|reflexivity].
    destruct k as [|a k]; [reflexivity|].
    now apply last_char_nonempty in Hc.
Qed.

Lemma with_key_some {A B} (g : A -> B) (name : string) (kvs : list (key * A))
      (x : B) :
  with_key g name kvs = Some x -> exists k v, In (k, v) kvs /\ x = g v.
Proof.
  induction kvs as [|[k v] kvs IH]; [discriminate|].
  change (with_key g name ((k, v) :: kvs))
    with (if key_eqb (KStr name) k then Some (g v) else with_key g name kvs).
  destruct (key_eqb (KStr name) k).
  - intros [= E]. exists k, v. split; [now left|now symmetry].
  - intros H. destruct (IH H) as (k' & v' & Hin & E).
    exists k', v'. split; [now right|exact E].
Qed.

Lemma for_fields_total {A B} (f : A -> result B) (kvs : list (key * A)) :
  Forall (fun kv => is_text_key (fst kv) = true /\ is_ok (f (snd kv)) = true) kvs ->
  exists fields, for_fields f kvs = Ok fields.
Proof.
  induction 1 as [|[k a] kvs [Hk Ha] _ [fields IH]]; simpl; [eauto|].
  destruct k; try discriminate. rewrite IH.
  destruct (is_dunder s); [eauto|].
  simpl in Ha. destruct (f a); [simpl; eauto|discriminate].
Qed.

Lemma for_fields_err {A B} (f : A -> result B) (kvs : list (key * A))
      (e : exn) :
  for_fields f kvs = Err e ->
  exists kv, In kv kvs
             /\ (f (snd kv) = Err e
                 \/ (is_text_key (fst kv) = false /\ e = AttributeError)).
Proof.
  induction kvs as [|[k a] kvs IH]; [discriminate|].
  destruct k as [| | |s];
    try (intros [= <-]; eexists; split; [now left|right; now split]).
  change (for_fields f ((KStr s, a) :: kvs))
    with (if is_dunder s then for_fields f kvs
          else b <- f a ;; r <- for_fields f kvs ;; Ok ((s, b) :: r)).
  destruct (is_dunder s).
  - intros H. destruct (IH H) as (kv & Hin & Hkv). exists kv. split; [now right|exact Hkv].
  - destruct (f a) as [b|e0] eqn:Hb.
    + rewrite bind_Ok. destruct (for_fields f kvs) as [r|e1]; [discriminate|].
      intros [= <-]. destruct (IH eq_refl) as (kv & Hin & Hkv).
      exists kv. split; [now right|exact Hkv].
    + intros [= <-]. exists (KStr s, a). split; [now left|now left].
Qed.

(** An object envelope whose type does not resolve: the exception is the
    resolver's, unless the timestamp or a field of the envelope, which are
    decoded first, has raised its own. *)
Lemma dict_to_object_unresolved
      (import_module : string -> result (string -> option pyclass))
      (rec : value -> result value) (r : FqnResolver)
      (kvs : list (key * value)) (fqn : value) (e : exn) :
  getitem kvs "__fqn__" = Ok fqn ->
  fqn_to_type import_module r fqn = Err e ->
  exists e',
    _dict_to_object import_module rec r kvs = Err e'
    /\ (e' = e
        \/ exists kv, In kv kvs
                      /\ (rec (snd kv) = Err e'
                          \/ (is_text_key (fst kv) = false
                              /\ e' = AttributeError))).
Proof.
  intros Hfqn Hty. unfold _dict_to_object. cbv zeta.
  destruct (with_key _ "__timestamp__" kvs) as [[t'|]|] eqn:Hw.
  - apply with_key_some in Hw as (k0 & v0 & Hin0 & Hv0).
    destruct (truthy v0); [|discriminate]. injection Hv0 as ->.
    destruct (rec v0) as [t|e1] eqn:Ht.
    + rewrite !bind_Ok.
      destruct (for_fields rec kvs) as [fields|e2] eqn:Hf.
      * rewrite bind_Ok, Hfqn, bind_Ok, Hty. exists e. split; [reflexivity|now left].
      * apply for_fields_err in Hf as (kv & Hin & Hkv). exists e2.
        split; [reflexivity|right; now exists kv].
    + simpl. exists e1. split; [reflexivity|]. right.
      exists (k0, v0). split; [exact Hin0|now left].
  - rewrite bind_Ok.
    destruct (for_fields rec kvs) as [fields|e2] eqn:Hf.
    + rewrite bind_Ok, Hfqn, bind_Ok, Hty. exists e. split; [reflexivity|now left].
    + apply for_fields_err in Hf as (kv & Hin & Hkv). exists e2.
        split; [reflexivity|right; now exists kv].
  - rewrite bind_Ok.
    destruct (for_fields rec kvs) as [fields|e2] eqn:Hf.
    + rewrite bind_Ok, Hfqn, bind_Ok, Hty. exists e. split; [reflexivity|now left].
    + apply for_fields_err in Hf as (kv & Hin & Hkv). exists e2.
        split; [reflexivity|right; now exists kv].
Qed.

Lemma envelope_unresolved
      (import_module : string -> result (string -> option pyclass))
      (m : Marshall) (kvs : list (key * value)) (fqn : value) (e : exn) :
  getitem kvs "__fqn__" = Ok fqn ->
  fqn_to_type import_module (_fqn_resolver m) fqn = Err e ->
  (classify (VDict kvs) = EnumEnvelope
   \/ classify (VDict kvs) = ObjectEnvelope)
  /\ (classify (VDict kvs) = EnumEnvelope ->
      deserialise_data import_module m (VDict kvs) = Err e)
  /\ exists e',
       deserialise_data import_module m (VDict kvs) = Err e'
       /\ (e' = e
           \/ exists kv,
                In kv kvs
                /\ (deserialise_data import_module m (snd kv) = Err e'
                    \/ (is_text_key (fst kv) = false
                        /\ e' = AttributeError))).
Proof.
  intros Hfqn Hty.
  assert (key_in "__fqn__" kvs = true) as Hin.
  { unfold key_in, dict_mem. unfold getitem in Hfqn.
    destruct (dict_get key_eqb kvs (KStr "__fqn__")); [reflexivity|discriminate]. }
  assert (_dict_to_enum import_module m kvs = Err e) as Henum.
  { unfold _dict_to_enum. now rewrite Hfqn, bind_Ok, Hty. }
  rewrite deserialise_dict, classify_dict, Hin.
  destruct (key_in "_value_" kvs && key_in "_name_" kvs).
  - split; [now left|]. split; [auto|]. exists e. auto.
  - split; [now right|]. split; [discriminate|].
    exact (dict_to_object_unresolved _ _ _ _ Hfqn Hty).
Qed.

(** C9 (as amended).  Decoding an enum or object envelope whose type
    identifier has no exact and no wildcard entry in the name map never
    returns a value: it raises, and the exception is a built-in one.  For an
    identifier that is text the resolver raises KeyError, or IndexError when
    the identifier is the empty text; for an identifier that is None, a
    boolean, a number, a list or a dict it raises TypeError.  An enum
    envelope passes that exception on as it is; so does an object envelope,
    unless its timestamp or one of its fields, decoded before the type is
    resolved, has raised first. *)
Theorem unknown_type_fails
        (import_module : string -> result (string -> option pyclass))
        (m : Marshall) (kvs : list (key * value)) :
  (forall k,
      getitem kvs "__fqn__" = Ok (VStr k) ->
      is_ok (_lookup_fqn (_fqn_resolver m) k true) = false ->
      (contains "." k = false
       \/ last_char k = Some "*"%char
       \/ forall prefix entity,
            k = (prefix ++ "." ++ entity)%string ->
            contains "." entity = false ->
            is_ok (_lookup_fqn (_fqn_resolver m) (prefix ++ ".*") true) = false) ->
      exists e,
        _get_fqn (_fqn_resolver m) k true = Err e
        /\ ((k = EmptyString /\ e = IndexError)
            \/ exists k', e = KeyError (VStr k'))
        /\ (classify (VDict kvs) = EnumEnvelope
            \/ classify (VDict kvs) = ObjectEnvelope)
        /\ (classify (VDict kvs) = EnumEnvelope ->
            deserialise_data import_module m (VDict kvs) = Err e)
        /\ exists e',
             deserialise_data import_module m (VDict kvs) = Err e'
             /\ (e' = e
                 \/ exists kv,
                      In kv kvs
                      /\ (deserialise_data import_module m (snd kv) = Err e'
                          \/ (is_text_key (fst kv) = false
                              /\ e' = AttributeError))))
  /\ (forall fqn,
        getitem kvs "__fqn__" = Ok fqn ->
        (fqn = VNone \/ (exists b, fqn = VBool b) \/ (exists n, fqn = VInt n)
         \/ (exists xs, fqn = VList xs) \/ (exists d, fqn = VDict d)) ->
        (classify (VDict kvs) = EnumEnvelope
         \/ classify (VDict kvs) = ObjectEnvelope)
        /\ (classify (VDict kvs) = EnumEnvelope ->
            deserialise_data import_module m (VDict kvs) = Err TypeError)
        /\ exists e',
             deserialise_data import_module m (VDict kvs) = Err e'
             /\ (e' = TypeError
                 \/ exists kv,
                      In kv kvs
                      /\ (deserialise_data import_module m (snd kv) = Err e'
                          \/ (is_text_key (fst kv) = false
                              /\ e' = AttributeError)))).
Proof.
  split.
  - intros k Hfqn Hmiss Hstar.
    destruct (@get_fqn_error (_fqn_resolver m) k true Hmiss Hstar) as [e He].
    exists e. split; [exact He|].
    split; [eapply get_fqn_error_kind; eauto|].
    apply (envelope_unresolved import_module m _ Hfqn).
    unfold fqn_to_type. now rewrite He.
  - intros fqn Hfqn Hkind.
    apply (envelope_unresolved import_module m _ Hfqn).
    destruct Hkind as [->|[[b ->]|[[n ->]|[[xs ->]|[d ->]]]]]; reflexivity.
Qed.

Lemma unknown_type_fails_witness :
  exists e,
    _get_fqn (_fqn_resolver plain_marshall) "bank.Account" true = Err e
    /\ ((("bank.Account" : string) = EmptyString /\ e = IndexError)
        \/ exists k', e = KeyError (VStr k'))
    /\ exists e',
         deserialise_data example_modules plain_marshall
           (VDict [(KStr "__fqn__", VStr "bank.Account");
                   (KStr "owner", VStr "ann")])
         = Err e'.
Proof.
  destruct (proj1 (@unknown_type_fails example_modules plain_marshall
                     [(KStr "__fqn__", VStr "bank.Account");
                      (KStr "owner", VStr "ann")])
              "bank.Account" eq_refl eq_refl)
    as (e & He & Hkind & _ & _ & e' & He' & _).
  - right. right. intros prefix entity Hk Hent.
    assert (split "." "bank.Account" = split "." prefix ++ [entity]) as Hs.
    { rewrite Hk. apply (split_app_sep "." prefix entity Hent). }
    simpl in Hs.
    assert (prefix = "bank") as ->.
    { rewrite <- (concat_split "." prefix).
      apply (f_equal (@removelast string)) in Hs.
      rewrite removelast_last in Hs. now rewrite <- Hs. }
    reflexivity.
  - exists e. split; [exact He|]. split; [exact Hkind|]. now exists e'.
Defined.

(** C9, as stated, fails: no type-resolution error exists in the module.  An
    identifier without an entry raises the KeyError of the table subscript
    (here of the wildcard key that was tried last), an identifier that is not
    text raises TypeError, and the empty identifier raises IndexError. *)
Lemma unresolved_type_raises_builtin_error :
  from_json example_modules plain_marshall
    (print (JObj [("__fqn__", JStr "bank.Account"); ("owner", JStr "ann")]))
  = Err (KeyError (VStr "bank.*"))
  /\ from_json example_modules plain_marshall
       (print (JObj [("__fqn__", JInt 5); ("owner", JStr "ann")]))
     = Err TypeError
  /\ from_json example_modules plain_marshall
       (print (JObj [("__fqn__", JStr ""); ("owner", JStr "ann")]))
     = Err IndexError
  /\ from_json example_modules plain_marshall
       (print (JObj [("__fqn__", JStr "bank.Account"); ("_name_", JStr "A");
                     ("_value_", JInt 1)]))
     = Err (KeyError (VStr "bank.*")).
Proof. repeat split; vm_compute; reflexivity. Qed.

(** ** Induction on values *)

Section ValueInduction.
Variable P : value -> Prop.
Hypothesis HNone : P VNone.
Hypothesis HBool : forall b, P (VBool b).
Hypothesis HInt : forall n, P (VInt n).
Hypothesis HStr : forall s, P (VStr s).
Hypothesis HDatetime : forall t, P (VDatetime t).
Hypothesis HList : forall xs, Forall P xs -> P (VList xs).
Hypothesis HTuple : forall xs, Forall P xs -> P (VTuple xs).
Hypothesis HDict :
  forall kvs, Forall (fun kv => P (snd kv)) kvs -> P (VDict kvs).
Hypothesis HSet : forall ks, P (VSet ks).
Hypothesis HMap :
  forall kvs, Forall (fun kv => P (snd kv)) kvs -> P (VMap kvs).
Hypothesis HObject :
  forall cls_module cls_name class_attrs json_data vars,
    Forall (fun kv => P (snd kv)) class_attrs ->
    (forall d, json_data = Some d -> Forall (fun kv => P (snd kv)) d) ->
    Forall (fun kv => P (snd kv)) vars ->
    P (VObject cls_module cls_name class_attrs json_data vars).

Fixpoint value_nested_ind (v : value) : P v :=
  let all :=
    fix all (xs : list value) : Forall P xs :=
      match xs with
      | [] => Forall_nil _
      | x :: xs' => Forall_cons _ (value_nested_ind x) (all xs')
      end in
  let all_snd :=
    fun K : Type =>
      fix all_snd (kvs : list (K * value)) : Forall (fun kv => P (snd kv)) kvs :=
        match kvs with
        | [] => Forall_nil _
        | kv :: kvs' =>
            Forall_cons (P := fun kv => P (snd kv)) kv
              (value_nested_ind (snd kv)) (all_snd kvs')
        end in
  match v with
  | VNone => HNone
  | VBool b => HBool b
  | VInt n => HInt n
  | VStr s => HStr s
  | VDatetime t => HDatetime t
  | VList xs => HList (all xs)
  | VTuple xs => HTuple (all xs)
  | VDict kvs => HDict (all_snd key kvs)
  | VSet ks => HSet ks
  | VMap kvs => HMap (all_snd key kvs)
  | VObject cls_module cls_name class_attrs json_data vars =>
      HObject cls_module cls_name
        (all_snd string class_attrs)
        (fun d (E : json_data = Some d) =>
           match json_data as o return o = Some d -> _ with
           | Some d' =>
               fun E' => eq_ind d' (fun d => Forall (fun kv => P (snd kv)) d)
                           (all_snd string d') d
                           (f_equal (fun o => match o with
                                              | Some x => x
                                              | None => d'
                                              end) E')
           | None => fun E' => False_ind _ (eq_ind None
                        (fun o => match o with None => True | Some _ => False end)
                        I _ E')
           end E)
        (all_snd string vars)
  end.
End ValueInduction.

(** ** The store model agrees with the store-free model on pointer-free values *)

Lemma resolve_embed (st : Graph.store) (v : value) :
  Graph.resolve st (Graph.embed v) = Some (Graph.embed v).
Proof. destruct v; reflexivity. Qed.

Lemma mapM_embed (g : Graph.gvalue -> result Graph.gvalue)
      (f : value -> result value) (xs : list value) :
  Forall (fun x => g (Graph.embed x) = Graph.embed_result (f x)) xs ->
  mapM g (map Graph.embed xs) = result_map (map Graph.embed) (mapM f xs).
Proof.
  induction 1 as [|x xs Hx _ IH]; simpl; [reflexivity|].
  rewrite Hx. destruct (f x) as [y|e]; simpl; [|reflexivity].
  rewrite IH. destruct (mapM f xs); reflexivity.
Qed.

Lemma for_items_embed {K} (keep : K -> bool)
      (g : Graph.gvalue -> result Graph.gvalue)
      (f : value -> result value) (kvs : list (K * value)) :
  Forall (fun kv => g (Graph.embed (snd kv)) = Graph.embed_result (f (snd kv)))
         kvs ->
  for_items keep g (map embed_item kvs)
  = result_map (map embed_item) (for_items keep f kvs).
Proof.
  induction 1 as [|[k x] kvs Hx _ IH]; simpl; [reflexivity|].
  destruct (keep k); [|exact IH].
  simpl in Hx. rewrite Hx. destruct (f x) as [y|e]; simpl; [|reflexivity].
  rewrite IH. destruct (for_items keep f kvs); reflexivity.
Qed.

Lemma dict_set_embed {K} (eqb : K -> K -> bool) (d : list (K * value))
      (k : K) (v : value) :
  dict_set eqb (map embed_item d) k (Graph.embed v)
  = map embed_item (dict_set eqb d k v).
Proof.
  induction d as [|[k' v'] d IH]; simpl; [reflexivity|].
  destruct (eqb k k'); simpl; [reflexivity|now rewrite IH].
Qed.

Lemma assign_all_embed {K} (eqb : K -> K -> bool)
      (items d : list (K * value)) :
  assign_all eqb (map embed_item d) (map embed_item items)
  = map embed_item (assign_all eqb d items).
Proof.
  revert d. induction items as [|[k v] items IH]; intros d; [reflexivity|].
  unfold assign_all in *. simpl. rewrite dict_set_embed. apply IH.
Qed.

Lemma dict_get_embed (d : list (string * value)) (name : string) :
  dict_get String.eqb (map embed_item d) name
  = option_map Graph.embed (dict_get String.eqb d name).
Proof.
  induction d as [|[k v] d IH]; simpl; [reflexivity|].
  destruct (String.eqb name k); [reflexivity|exact IH].
Qed.

Lemma getattr_embed (class_attrs vars : list (string * value)) (name : string) :
  getattr (map embed_item class_attrs) (map embed_item vars) name
  = option_map Graph.embed (getattr class_attrs vars name).
Proof.
  unfold getattr. rewrite !dict_get_embed.
  destruct (dict_get String.eqb vars name); reflexivity.
Qed.

Lemma with_attr_embed (g : Graph.gvalue -> result Graph.gvalue)
      (f : value -> result value) (name : string) (d : list (string * value)) :
  Forall (fun kv => g (Graph.embed (snd kv)) = Graph.embed_result (f (snd kv)))
         d ->
  with_attr g name (map embed_item d)
  = option_map Graph.embed_result (with_attr f name d).
Proof.
  induction 1 as [|[k x] d Hx _ IH]; simpl; [reflexivity|].
  simpl in Hx. destruct (String.eqb name k); [now rewrite Hx|exact IH].
Qed.

Lemma str_keys_embed (d : list (string * value)) :
  Graph.str_keys (map embed_item d) = map embed_item (str_keys d).
Proof. unfold Graph.str_keys, str_keys. now rewrite !map_map. Qed.

Section Agreement.
Variables (gm : Graph.GMarshall) (m : Marshall).
Hypothesis Hagree : Graph.marshall_agrees gm m.

Lemma first_codec_embed (v : value) :
  match Graph.first_codec (Graph.g_codecs gm) (Graph.embed v),
        first_codec (_codecs m) v with
  | Some gc, Some c => Graph.codec_agrees gc c
  | None, None => True
  | _, _ => False
  end.
Proof.
  destruct Hagree as [_ Hcs].
  induction Hcs as [|[gn gc] [n c] gcs cs Hc _ IH]; simpl; [exact I|].
  simpl in Hc. destruct (Hc v) as [Hh _]. rewrite Hh.
  destruct (handles c v); [exact Hc|exact IH].
Qed.

Lemma is_handled_embed (v : value) :
  Graph._is_handled_by_codec gm (Graph.embed v) = _is_handled_by_codec m v.
Proof.
  unfold Graph._is_handled_by_codec, _is_handled_by_codec.
  destruct Hagree as [_ Hcs].
  induction Hcs as [|[gn gc] [n c] gcs cs Hc _ IH]; simpl; [reflexivity|].
  simpl in Hc. destruct (Hc v) as [Hh _]. now rewrite Hh, IH.
Qed.

Lemma object_to_codec_dict_embed (v : value) :
  Graph._object_to_codec_dict gm (Graph.embed v)
  = Graph.embed_result (_object_to_codec_dict m v).
Proof.
  unfold Graph._object_to_codec_dict, _object_to_codec_dict.
  pose proof (first_codec_embed v) as H.
  destruct (Graph.first_codec (Graph.g_codecs gm) (Graph.embed v)) as [gc|];
    destruct (first_codec (_codecs m) v) as [c|]; try contradiction.
  - now destruct (H v).
  - reflexivity.
Qed.

Lemma object_to_dict_embed (g : Graph.gvalue -> result Graph.gvalue)
      (f : value -> result value) (cls_module cls_name : string)
      (class_attrs : list (string * value))
      (json_data : option (list (string * value)))
      (vars : list (string * value)) :
  Forall (fun kv => g (Graph.embed (snd kv)) = Graph.embed_result (f (snd kv)))
         class_attrs ->
  (forall d, json_data = Some d ->
     Forall (fun kv => g (Graph.embed (snd kv)) = Graph.embed_result (f (snd kv)))
            d) ->
  Forall (fun kv => g (Graph.embed (snd kv)) = Graph.embed_result (f (snd kv)))
         vars ->
  Graph._object_to_dict g (Graph.g_fqn_resolver gm) cls_module cls_name
    (map embed_item class_attrs) (option_map (map embed_item) json_data)
    (map embed_item vars)
  = Graph.embed_result
      (_object_to_dict f (_fqn_resolver m) cls_module cls_name
         class_attrs json_data vars).
Proof.
  intros Hca Hjd Hvars.
  unfold Graph._object_to_dict, _object_to_dict.
  destruct Hagree as [-> _].
  destruct (instance_to_fqn (_fqn_resolver m) cls_module cls_name) as [fqn|e];
    [|reflexivity].
  rewrite !bind_Ok. cbv beta zeta.
  rewrite !getattr_embed.
  rewrite (with_attr_embed g f "__timestamp__" Hvars).
  rewrite (with_attr_embed g f "__timestamp__" Hca).
  set (d0 := [("__fqn__", VStr fqn)]).
  change [("__fqn__", Graph.GStr fqn)] with (map embed_item d0).
  set (d1 := match getattr class_attrs vars "__version__" with
             | Some v => dict_set String.eqb d0 "__version__" v
             | None => d0
             end).
  assert (match option_map Graph.embed (getattr class_attrs vars "__version__") with
          | Some v => dict_set String.eqb (map embed_item d0) "__version__" v
          | None => map embed_item d0
          end = map embed_item d1) as ->.
  { unfold d1. destruct (getattr class_attrs vars "__version__");
      cbn [option_map]; [apply dict_set_embed|reflexivity]. }
  set (d2 := match getattr class_attrs vars "__msgid__" with
             | Some v => dict_set String.eqb d1 "__msgid__" v
             | None => d1
             end).
  assert (match option_map Graph.embed (getattr class_attrs vars "__msgid__") with
          | Some v => dict_set String.eqb (map embed_item d1) "__msgid__" v
          | None => map embed_item d1
          end = map embed_item d2) as ->.
  { unfold d2. destruct (getattr class_attrs vars "__msgid__");
      cbn [option_map]; [apply dict_set_embed|reflexivity]. }
  set (fields_of := match json_data with Some d => d | None => vars end).
  assert (match option_map (map embed_item) json_data with
          | Some d => d
          | None => map embed_item vars
          end = map embed_item fields_of) as ->.
  { unfold fields_of. destruct json_data; reflexivity. }
  assert (Forall (fun kv => g (Graph.embed (snd kv))
                            = Graph.embed_result (f (snd kv))) fields_of) as Hf.
  { unfold fields_of. destruct json_data; [now apply Hjd|exact Hvars]. }
  rewrite (for_items_embed _ g f Hf).
  assert (forall (t' : result value) d,
             (t <- Graph.embed_result t' ;;
              Ok (dict_set String.eqb (map embed_item d) "__timestamp__" t))
             = result_map (map embed_item)
                 (t <- t' ;; Ok (dict_set String.eqb d "__timestamp__" t)))
    as Hts.
  { intros [t|e] d; simpl; [now rewrite dict_set_embed|reflexivity]. }
  assert (forall (x : result (list (string * value)))
                 (fs : result (list (string * value))),
             (data3 <- result_map (map embed_item) x ;;
              fields <- result_map (map embed_item) fs ;;
              Ok (Graph.GDict (Graph.str_keys
                                 (assign_all String.eqb data3 fields))))
             = Graph.embed_result
                 (data3 <- x ;; fields <- fs ;;
                  Ok (VDict (str_keys (assign_all String.eqb data3 fields)))))
    as Hfin.
  { intros [d3|e] [fs|e']; simpl; try reflexivity.
    rewrite assign_all_embed, str_keys_embed. reflexivity. }
  destruct (with_attr f "__timestamp__" vars) as [t'|]; simpl.
  - rewrite Hts. apply Hfin.
  - destruct (with_attr f "__timestamp__" class_attrs) as [t'|]; simpl.
    + rewrite Hts. apply Hfin.
    + apply (Hfin (Ok d2)).
Qed.
End Agreement.

Lemma depth_bound_all (xs : list value) (n : nat) :
  fold_right (fun x d => Nat.max (depth x) d) 0 xs <= n ->
  Forall (fun x => depth x <= n) xs.
Proof.
  induction xs as [|x xs IH]; simpl; intros H; constructor.
  - lia.
  - apply IH. lia.
Qed.

Lemma depth_bound_snd {K} (kvs : list (K * value)) (n : nat) :
  fold_right (fun kv d => Nat.max (depth (snd kv)) d) 0 kvs <= n ->
  Forall (fun kv => depth (snd kv) <= n) kvs.
Proof.
  induction kvs as [|x xs IH]; simpl; intros H; constructor.
  - lia.
  - apply IH. lia.
Qed.

Lemma depth_pos (v : value) : 1 <= depth v.
Proof. destruct v; simpl; lia. Qed.

Section AgreementTheorem.
Variables (gm : Graph.GMarshall) (m : Marshall) (st : Graph.store).
Hypothesis Hagree : Graph.marshall_agrees gm m.

Let agrees_at (fuel : nat) (v : value) : Prop :=
  Graph.serialise_data fuel st gm (Graph.embed v)
  = Graph.embed_result (serialise_data m v).

Lemma agrees_parts {K} (fuel : nat) (kvs : list (K * value)) :
  Forall (fun kv => forall fuel, depth (snd kv) <= fuel -> agrees_at fuel (snd kv))
         kvs ->
  fold_right (fun kv d => Nat.max (depth (snd kv)) d) 0 kvs <= fuel ->
  Forall (fun kv => Graph.serialise_data fuel st gm (Graph.embed (snd kv))
                    = Graph.embed_result (serialise_data m (snd kv))) kvs.
Proof.
  intros HP Hd. apply depth_bound_snd in Hd.
  rewrite Forall_forall in *. intros kv Hin. apply HP; auto.
Qed.

Lemma agrees_items (fuel : nat) (xs : list value) :
  Forall (fun x => forall fuel, depth x <= fuel -> agrees_at fuel x) xs ->
  fold_right (fun x d => Nat.max (depth x) d) 0 xs <= fuel ->
  Forall (fun x => Graph.serialise_data fuel st gm (Graph.embed x)
                   = Graph.embed_result (serialise_data m x)) xs.
Proof.
  intros HP Hd. apply depth_bound_all in Hd.
  rewrite Forall_forall in *. intros x Hin. apply HP; auto.
Qed.

(** On a value without pointers the encoder over the store computes what the
    store-free encoder computes, as soon as the allowed depth of calls reaches
    the structural depth of the value. *)
Lemma serialise_agrees (v : value) :
  forall fuel, depth v <= fuel -> agrees_at fuel v.
Proof.
  unfold agrees_at.
  induction v using value_nested_ind; intros fuel Hf;
    (destruct fuel as [|fuel];
     [pose proof (depth_pos VNone); simpl in Hf; lia|]);
    cbn [Graph.serialise_data]; rewrite resolve_embed;
    unfold Graph.serialise_call; rewrite (is_handled_embed Hagree);
    match goal with
    | |- context [_is_handled_by_codec m ?v] =>
        destruct (_is_handled_by_codec m v) eqn:Hh;
        [rewrite (serialise_data_handled _ _ Hh);
         apply (object_to_codec_dict_embed Hagree)|]
    end;
    simpl serialise_data; rewrite Hh; try reflexivity.
  - (* list *)
    simpl in Hf. apply Nat.succ_le_mono in Hf. cbn [Graph.embed].
    rewrite (mapM_embed _ (serialise_data m) (agrees_items H Hf)).
    destruct (mapM (serialise_data m) xs); reflexivity.
  - (* tuple *)
    simpl in Hf. apply Nat.succ_le_mono in Hf. cbn [Graph.embed].
    rewrite (mapM_embed _ (serialise_data m) (agrees_items H Hf)).
    destruct (mapM (serialise_data m) xs); reflexivity.
  - (* dict *)
    simpl in Hf. apply Nat.succ_le_mono in Hf. cbn [Graph.embed].
    change (map (fun kv => (fst kv, Graph.embed (snd kv))) kvs)
      with (map embed_item kvs).
    rewrite (for_items_embed _ _ (serialise_data m) (agrees_parts H Hf)).
    destruct (for_items _ (serialise_data m) kvs) as [items|]; simpl;
      [|reflexivity].
    change (@nil (key * Graph.gvalue)) with (map (@embed_item key) []).
    now rewrite assign_all_embed.
  - (* immutable map *)
    simpl in Hf. apply Nat.succ_le_mono in Hf. cbn [Graph.embed].
    change (map (fun kv => (fst kv, Graph.embed (snd kv))) kvs)
      with (map embed_item kvs).
    rewrite (for_items_embed _ _ (serialise_data m) (agrees_parts H Hf)).
    destruct (for_items _ (serialise_data m) kvs) as [items|]; simpl;
      [|reflexivity].
    change (@nil (key * Graph.gvalue)) with (map (@embed_item key) []).
    now rewrite assign_all_embed.
  - (* instance *)
    simpl in Hf. cbn [Graph.embed].
    destruct (String.eqb cls_module "builtins"); [reflexivity|].
    apply (object_to_dict_embed Hagree).
    + apply agrees_parts; [assumption|lia].
    + intros d ->. apply agrees_parts; [now apply H0|lia].
    + apply agrees_parts; [assumption|lia].
Qed.
End AgreementTheorem.

(** ** Self-referential structures *)

Lemma mapM_err {A B} (f : A -> result B) (xs : list A) (x : A) (e : exn) :
  In x xs -> f x = Err e -> exists e', mapM f xs = Err e'.
Proof.
  induction xs as [|y xs IH]; simpl; [contradiction|].
  intros [->|Hin] Hx.
  - rewrite Hx. simpl. eauto.
  - destruct (f y); simpl; [|eauto].
    destruct (IH Hin Hx) as [e' ->]. simpl. eauto.
Qed.

Lemma self_list_never_encodes (gm : Graph.GMarshall) (st : Graph.store)
      (a : nat) (xs : list Graph.gvalue) :
  nth_error st a = Some (Graph.GList xs) ->
  In (Graph.GPtr a) xs ->
  Graph._is_handled_by_codec gm (Graph.GList xs) = false ->
  forall fuel, exists e, Graph.serialise_data fuel st gm (Graph.GPtr a) = Err e.
Proof.
  intros Hcell Hin Hh fuel. induction fuel as [|fuel [e IH]]; simpl; [eauto|].
  rewrite Hcell. unfold Graph.serialise_call. rewrite Hh.
  destruct (mapM_err _ _ _ Hin IH) as [e' ->]. simpl. eauto.
Qed.

Lemma self_list_recursion_error (gm : Graph.GMarshall) (st : Graph.store)
      (a : nat) :
  nth_error st a = Some (Graph.GList [Graph.GPtr a]) ->
  Graph._is_handled_by_codec gm (Graph.GList [Graph.GPtr a]) = false ->
  forall fuel, Graph.serialise_data fuel st gm (Graph.GPtr a) = Err RecursionError.
Proof.
  intros Hcell Hh fuel. induction fuel as [|fuel IH]; simpl; [reflexivity|].
  rewrite Hcell. unfold Graph.serialise_call. rewrite Hh.
  simpl. now rewrite IH.
Qed.


Lemma plain_marshall_agrees : Graph.marshall_agrees plain_gmarshall plain_marshall.
Proof. split; [reflexivity|constructor]. Qed.



(** ** The decoder reads back what the encoder prints *)

Lemma string_app_cons (a : ascii) (s t : string) :
  (String a s ++ t)%string = String a (s ++ t).
Proof. reflexivity. Qed.

Lemma scan_escape_char (c : ascii) (tail : string) :
  scan_string (escape_char c ++ tail)
  = (r <- scan_string tail ;; Ok (String c (fst r), snd r)).
Proof.
  destruct c as [[] [] [] [] [] [] [] []]; reflexivity.
Qed.

Lemma scan_string_escape (s rest : string) :
  scan_string (escape s ++ String dquote rest) = Ok (s, rest).
Proof.
  induction s as [|c s IH]; [reflexivity|].
  cbn [escape]. rewrite string_app_assoc, scan_escape_char, IH. reflexivity.
Qed.

Lemma scan_quote (s rest : string) :
  exists body, (quote s ++ rest)%string = String dquote body
               /\ scan_string body = Ok (s, rest).
Proof.
  exists (escape s ++ String dquote rest)%string. split.
  - unfold quote. rewrite string_app_cons, string_app_assoc. reflexivity.
  - apply scan_string_escape.
Qed.

Lemma scan_digits_print (d : Decimal.uint) (rest : string) :
  ends_number rest ->
  scan_digits (NilEmpty.string_of_uint d ++ rest) = (d, rest).
Proof.
  intros Hrest. induction d; cbn [NilEmpty.string_of_uint];
    try (rewrite string_app_cons; cbn [scan_digits digit_of];
         rewrite IHd; reflexivity).
  destruct rest as [|c rest]; [reflexivity|].
  destruct Hrest as [Hd _]. simpl. now rewrite Hd.
Qed.

Lemma to_uint_no_leading_zero (p : positive) :
  Decimal.nzhead (Pos.to_uint p) = Pos.to_uint p.
Proof.
  pose proof (DecimalZ.to_of (Decimal.Neg (Pos.to_uint p))) as H.
  assert (Z.of_int (Decimal.Neg (Pos.to_uint p)) = Z.neg p) as E.
  { change (Decimal.Neg (Pos.to_uint p)) with (Z.to_int (Z.neg p)).
    apply DecimalZ.of_to. }
  rewrite E in H. simpl in H. unfold Decimal.norm in H.
  destruct (Decimal.nzhead (Pos.to_uint p)) eqn:Hn;
    first [discriminate | now injection H].
Qed.

Lemma scan_nat_zero (rest : string) :
  ends_number rest -> scan_nat ("0" ++ rest) = Ok (Decimal.D0 Decimal.Nil, rest).
Proof.
  intros Hrest. unfold scan_nat.
  change ("0" ++ rest)%string
    with (NilEmpty.string_of_uint (Decimal.D0 Decimal.Nil) ++ rest)%string.
  rewrite (scan_digits_print _ _ Hrest).
  destruct rest as [|c rest]; [reflexivity|].
  destruct Hrest as [_ ->]. reflexivity.
Qed.

Lemma scan_nat_pos (p : positive) (rest : string) :
  ends_number rest ->
  scan_nat (NilZero.string_of_uint (Pos.to_uint p) ++ rest)
  = Ok (Pos.to_uint p, rest).
Proof.
  intros Hrest. unfold scan_nat.
  pose proof (DecimalPos.Unsigned.to_uint_nonnil p) as Hnil.
  pose proof (to_uint_no_leading_zero p) as Hz.
  assert (NilZero.string_of_uint (Pos.to_uint p)
          = NilEmpty.string_of_uint (Pos.to_uint p)) as ->.
  { destruct (Pos.to_uint p); [contradiction|reflexivity..]. }
  rewrite (scan_digits_print _ _ Hrest).
  assert (forall u, Pos.to_uint p <> Decimal.D0 u) as Hnz.
  { intros u Hu. rewrite Hu in Hz. now apply DecimalFacts.nzhead_nonzero in Hz. }
  destruct (Pos.to_uint p) as [|u|u|u|u|u|u|u|u|u|u];
    [contradiction|now destruct (Hnz u)|..];
    (destruct rest as [|c rest]; [reflexivity|];
     destruct Hrest as [_ ->]; reflexivity).
Qed.

Section JsonInduction.
Variable P : json -> Prop.
Hypothesis HNull : P JNull.
Hypothesis HBool : forall b, P (JBool b).
Hypothesis HInt : forall n, P (JInt n).
Hypothesis HStr : forall s, P (JStr s).
Hypothesis HArr : forall items, Forall P items -> P (JArr items).
Hypothesis HObj :
  forall members, Forall (fun kv => P (snd kv)) members -> P (JObj members).

Fixpoint json_nested_ind (j : json) : P j :=
  match j with
  | JNull => HNull
  | JBool b => HBool b
  | JInt n => HInt n
  | JStr s => HStr s
  | JArr items =>
      HArr ((fix all (xs : list json) : Forall P xs :=
               match xs with
               | [] => Forall_nil _
               | x :: xs' => Forall_cons _ (json_nested_ind x) (all xs')
               end) items)
  | JObj members =>
      HObj ((fix all (kvs : list (string * json))
               : Forall (fun kv => P (snd kv)) kvs :=
               match kvs with
               | [] => Forall_nil _
               | kv :: kvs' =>
                   Forall_cons (P := fun kv => P (snd kv)) kv
                     (json_nested_ind (snd kv)) (all kvs')
               end) members)
  end.
End JsonInduction.

Lemma delimited_ends_number (rest : string) : delimited rest -> ends_number rest.
Proof.
  destruct rest as [|c rest]; [trivial|].
  intros [->|[->| ->]]; split; reflexivity.
Qed.

Lemma delimited_skip_ws (rest : string) : delimited rest -> skip_ws rest = rest.
Proof.
  destruct rest as [|c rest]; [trivial|].
  intros [->|[->| ->]]; reflexivity.
Qed.

Lemma uint_head (d : Decimal.uint) :
  d <> Decimal.Nil ->
  exists c t, NilEmpty.string_of_uint d = String c t
              /\ digit_of c <> None /\ starts_value c.
Proof.
  destruct d; [contradiction|..]; intros _; simpl;
    eexists; eexists; (split; [reflexivity|]); (split; [discriminate|]);
    repeat split.
Qed.

Lemma string_of_Z_cases (n : Z) :
  (n = 0%Z /\ string_of_Z n = "0")
  \/ (exists p, n = Z.pos p
                /\ string_of_Z n = NilEmpty.string_of_uint (Pos.to_uint p))
  \/ (exists p, n = Z.neg p
                /\ string_of_Z n
                   = String "-" (NilEmpty.string_of_uint (Pos.to_uint p))).
Proof.
  assert (forall p, NilZero.string_of_uint (Pos.to_uint p)
                    = NilEmpty.string_of_uint (Pos.to_uint p)) as H.
  { intros p. pose proof (DecimalPos.Unsigned.to_uint_nonnil p).
    destruct (Pos.to_uint p); [contradiction|reflexivity..]. }
  destruct n as [|p|p]; unfold string_of_Z; simpl.
  - now left.
  - right. left. exists p. now rewrite H.
  - right. right. exists p. now rewrite H.
Qed.

Lemma print_head (j : json) :
  exists c t, print j = String c t /\ starts_value c.
Proof.
  destruct j as [|[]|n|s|items|members]; simpl;
    try (eexists; eexists; split; [reflexivity|repeat split]).
  destruct (string_of_Z_cases n) as [[_ ->]|[(p & _ & ->)|(p & _ & ->)]].
  - eexists; eexists; split; [reflexivity|repeat split].
  - destruct (uint_head (DecimalPos.Unsigned.to_uint_nonnil p))
      as (c & t & -> & _ & Hc). eauto.
  - eexists; eexists; split; [reflexivity|repeat split].
Qed.

Lemma skip_ws_value (c : ascii) (t : string) :
  starts_value c -> skip_ws (String c t) = String c t.
Proof. intros [H _]. simpl. now rewrite H. Qed.

Lemma scan_once_digit (fuel : nat) (c : ascii) (t : string) :
  digit_of c <> None ->
  scan_once (S fuel) (String c t)
  = (r <- scan_nat (String c t) ;;
     Ok (JInt (Z.of_int (Decimal.Pos (fst r))), snd r)).
Proof.
  intros H.
  destruct c as [[] [] [] [] [] [] [] []];
    first [now destruct H | reflexivity].
Qed.

Lemma scan_once_int (fuel : nat) (n : Z) (rest : string) :
  ends_number rest ->
  scan_once (S fuel) (string_of_Z n ++ rest) = Ok (JInt n, rest).
Proof.
  intros Hrest.
  destruct (string_of_Z_cases n) as [[-> ->]|[(p & -> & ->)|(p & -> & ->)]].
  - change ("0" ++ rest)%string with (String "0" rest).
    rewrite scan_once_digit by discriminate.
    change (String "0" rest) with ("0" ++ rest)%string.
    now rewrite (scan_nat_zero _ Hrest).
  - pose proof (scan_nat_pos p _ Hrest) as Hs.
    assert (NilZero.string_of_uint (Pos.to_uint p)
            = NilEmpty.string_of_uint (Pos.to_uint p)) as E.
    { pose proof (DecimalPos.Unsigned.to_uint_nonnil p).
      destruct (Pos.to_uint p); [contradiction|reflexivity..]. }
    rewrite E in Hs.
    destruct (uint_head (DecimalPos.Unsigned.to_uint_nonnil p))
      as (c & t & Hct & Hd & _).
    rewrite Hct in *. rewrite string_app_cons in *.
    rewrite scan_once_digit by exact Hd. rewrite Hs, bind_Ok.
    cbv beta. cbn [fst snd].
    change (Decimal.Pos (Pos.to_uint p)) with (Z.to_int (Z.pos p)).
    now rewrite DecimalZ.of_to.
  - pose proof (scan_nat_pos p _ Hrest) as Hs.
    assert (NilZero.string_of_uint (Pos.to_uint p)
            = NilEmpty.string_of_uint (Pos.to_uint p)) as E.
    { pose proof (DecimalPos.Unsigned.to_uint_nonnil p).
      destruct (Pos.to_uint p); [contradiction|reflexivity..]. }
    rewrite E in Hs. rewrite string_app_cons.
    change (scan_once (S fuel)
              (String "-" (NilEmpty.string_of_uint (Pos.to_uint p) ++ rest)))
      with (r <- scan_nat (NilEmpty.string_of_uint (Pos.to_uint p) ++ rest) ;;
            Ok (JInt (Z.of_int (Decimal.Neg (fst r))), snd r)).
    rewrite Hs, bind_Ok. cbv beta. cbn [fst snd].
    change (Decimal.Neg (Pos.to_uint p)) with (Z.to_int (Z.neg p)).
    now rewrite DecimalZ.of_to.
Qed.

Lemma print_obj (members : list (string * json)) :
  print (JObj members)
  = ("{" ++ String.concat "," (map print_member members) ++ "}")%string.
Proof. reflexivity. Qed.

Lemma concat_cons2 (sep x y : string) (l : list string) :
  String.concat sep (x :: y :: l)
  = (x ++ sep ++ String.concat sep (y :: l))%string.
Proof. reflexivity. Qed.

Lemma scan_items_printed (items : list json) :
  Forall scans items -> items <> [] ->
  forall fuel rest,
    fold_right (fun x n => S (json_size x + n)) 0 items <= fuel ->
    scan_items fuel (String.concat "," (map print items) ++ String "]" rest)
    = Ok (items, rest).
Proof.
  induction 1 as [|x items Hx Hitems IH]; [contradiction|].
  intros _ fuel rest Hf. simpl in Hf.
  destruct fuel as [|fuel]; [lia|].
  unfold scans in Hx.
  destruct items as [|y items].
  - simpl map. cbn [String.concat scan_items].
    rewrite Hx; [|lia|simpl; auto]. simpl. reflexivity.
  - change (map print (x :: y :: items))
      with (print x :: print y :: map print items).
    rewrite concat_cons2, !string_app_assoc.
    set (more := (String.concat "," (print y :: map print items)
                  ++ String "]" rest)%string).
    change ("," ++ more)%string with (String "," more).
    cbn [scan_items]. rewrite Hx; [|lia|simpl; auto].
    cbn [bind snd fst].
    change (skip_ws (String "," more)) with (String "," more).
    cbv iota. change (Ascii.eqb "," ",") with true. cbv iota.
    destruct (print_head y) as (c & t & Hy & Hc).
    assert (skip_ws more = more) as ->.
    { unfold more. destruct (map print items);
        [cbn [String.concat]|rewrite concat_cons2, string_app_assoc];
        rewrite Hy, string_app_cons; now apply skip_ws_value. }
    unfold more.
    change (print y :: map print items) with (map print (y :: items)).
    rewrite IH; [reflexivity|discriminate|lia].
Qed.

Lemma scan_members_printed (members : list (string * json)) :
  Forall (fun kv => scans (snd kv)) members -> members <> [] ->
  forall fuel rest,
    fold_right (fun kv n => S (json_size (snd kv) + n)) 0 members <= fuel ->
    scan_members fuel
      (String.concat "," (map print_member members) ++ String "}" rest)
    = Ok (members, rest).
Proof.
  induction 1 as [|[k x] members Hx Hmembers IH]; [contradiction|].
  intros _ fuel rest Hf. simpl in Hf.
  destruct fuel as [|fuel]; [lia|].
  unfold scans in Hx. simpl in Hx.
  assert (forall tail, delimited tail ->
            scan_members (S fuel) (print_member (k, x) ++ tail)
            = match tail with
              | String c rest' =>
                  if Ascii.eqb c "," then
                    r' <- scan_members fuel (skip_ws rest') ;;
                    Ok ((k, x) :: fst r', snd r')
                  else if Ascii.eqb c "}" then Ok ([(k, x)], rest')
                  else Err JSONDecodeError
              | EmptyString => Err JSONDecodeError
              end) as Hone.
  { intros tail Htail. unfold print_member. cbn [fst snd].
    rewrite !string_app_assoc.
    destruct (scan_quote k (":" ++ print x ++ tail)) as (body & -> & Hbody).
    cbn [scan_members]. rewrite Ascii.eqb_refl, Hbody.
    cbn [bind snd fst]. simpl skip_ws at 1.
    change (Ascii.eqb ":" ":") with true. cbv iota.
    destruct (print_head x) as (c & t & Hpx & Hc).
    assert (skip_ws (print x ++ tail) = (print x ++ tail)%string) as ->.
    { rewrite Hpx, string_app_cons. now apply skip_ws_value. }
    rewrite Hx; [|lia|exact Htail].
    cbn [bind snd fst]. rewrite (delimited_skip_ws _ Htail). reflexivity. }
  destruct members as [|[k' y] members].
  - simpl map. cbn [String.concat].
    rewrite Hone by (simpl; auto). reflexivity.
  - change (map print_member ((k, x) :: (k', y) :: members))
      with (print_member (k, x) :: print_member (k', y)
              :: map print_member members).
    rewrite concat_cons2, !string_app_assoc.
    set (more := (String.concat "," (print_member (k', y)
                                       :: map print_member members)
                  ++ String "}" rest)%string).
    change ("," ++ more)%string with (String "," more).
    rewrite Hone by (simpl; auto).
    change (Ascii.eqb "," ",") with true. cbv iota.
    assert (skip_ws more = more) as ->.
    { unfold more. unfold print_member at 1. cbn [fst snd]. unfold quote.
      destruct (map print_member members);
        [cbn [String.concat]|rewrite concat_cons2];
        rewrite !string_app_cons; reflexivity. }
    unfold more.
    change (print_member (k', y) :: map print_member members)
      with (map print_member ((k', y) :: members)).
    rewrite IH; [reflexivity|discriminate|lia].
Qed.

Lemma scan_once_printed (j : json) : scans j.
Proof.
  induction j using json_nested_ind; intros fuel rest Hf Hrest;
    (destruct fuel as [|fuel]; [simpl in Hf; lia|]).
  - cbn. destruct rest; reflexivity.
  - destruct b; cbn; destruct rest; reflexivity.
  - apply scan_once_int. now apply delimited_ends_number.
  - cbn [print]. destruct (scan_quote s rest) as (body & -> & Hbody).
    cbn [scan_once]. now rewrite Ascii.eqb_refl, Hbody.
  - cbn [print]. rewrite !string_app_assoc.
    change ("]" ++ rest)%string with (String "]" rest).
    change ("[" ++ String.concat "," (map print items) ++ String "]" rest)%string
      with (String "[" (String.concat "," (map print items) ++ String "]" rest)).
    destruct items as [|x items]; [reflexivity|].
    set (more := (String.concat "," (map print (x :: items))
                  ++ String "]" rest)%string).
    assert (exists c t, more = String c t /\ starts_value c) as (c & t & E & Hc).
    { unfold more. destruct (print_head x) as (c & t & Hx & Hc).
      simpl map. destruct (map print items);
        [cbn [String.concat]|rewrite concat_cons2, string_app_assoc];
        rewrite Hx, string_app_cons; eauto. }
    cbn [scan_once].
    change (Ascii.eqb "[" dquote) with false.
    change (Ascii.eqb "[" "{") with false.
    change (Ascii.eqb "[" "[") with true. cbv iota.
    rewrite E, (skip_ws_value _ Hc).
    destruct Hc as (_ & -> & _). rewrite <- E. unfold more.
    rewrite (scan_items_printed H); [reflexivity|discriminate|].
    simpl in Hf |- *. lia.
  - rewrite print_obj, !string_app_assoc.
    change ("}" ++ rest)%string with (String "}" rest).
    change ("{" ++ String.concat "," (map print_member members)
            ++ String "}" rest)%string
      with (String "{" (String.concat "," (map print_member members)
                        ++ String "}" rest)).
    destruct members as [|[k x] members]; [reflexivity|].
    set (more := (String.concat "," (map print_member ((k, x) :: members))
                  ++ String "}" rest)%string).
    assert (exists t, more = String dquote t) as (t & E).
    { unfold more. simpl map. unfold print_member at 1. unfold quote.
      destruct (map print_member members);
        [cbn [String.concat]|rewrite concat_cons2];
        rewrite !string_app_cons; eauto. }
    cbn [scan_once].
    change (Ascii.eqb "{" dquote) with false.
    change (Ascii.eqb "{" "{") with true. cbv iota.
    rewrite E. change (skip_ws (String dquote t)) with (String dquote t).
    cbv iota. change (Ascii.eqb dquote "}") with false. cbv iota.
    rewrite <- E. unfold more.
    rewrite (scan_members_printed H); [reflexivity|discriminate|].
    simpl in Hf |- *. lia.
Qed.

Lemma string_length_app (s t : string) :
  String.length (s ++ t) = String.length s + String.length t.
Proof. induction s as [|a s IH]; simpl; [reflexivity|now rewrite IH]. Qed.

Lemma concat_length_lower (sep : string) (l : list string) :
  fold_right (fun x n => String.length x + n) 0 l
  <= String.length (String.concat sep l).
Proof.
  induction l as [|x l IH]; [simpl; lia|].
  destruct l as [|y l].
  - simpl. lia.
  - rewrite concat_cons2, !string_length_app.
    change (fold_right (fun x n => String.length x + n) 0 (x :: y :: l))
      with (String.length x
            + fold_right (fun x n => String.length x + n) 0 (y :: l)).
    lia.
Qed.

Lemma print_member_length (kv : string * json) :
  String.length (print (snd kv)) <= String.length (print_member kv).
Proof. unfold print_member. rewrite !string_length_app. lia. Qed.

Lemma json_size_bound (j : json) :
  json_size j + 1 <= 2 * String.length (print j).
Proof.
  induction j using json_nested_ind;
    try (destruct (print_head JNull) as (c & t & E & _);
         match goal with
         | |- json_size ?j + 1 <= _ =>
             destruct (print_head j) as (c' & t' & -> & _)
         end; simpl; lia).
  - cbn [print json_size]. rewrite !string_length_app.
    assert (fold_right (fun x n => S (json_size x + n)) 0 items
            <= 2 * fold_right (fun x n => String.length x + n) 0
                     (map print items)) as Hs.
    { induction H as [|x items Hx _ IH]; simpl; [lia|]. lia. }
    pose proof (concat_length_lower "," (map print items)) as Hl.
    simpl String.length. lia.
  - rewrite print_obj. cbn [json_size]. rewrite !string_length_app.
    assert (fold_right (fun kv n => S (json_size (snd kv) + n)) 0 members
            <= 2 * fold_right (fun x n => String.length x + n) 0
                     (map print_member members)) as Hs.
    { induction H as [|kv members Hx _ IH]; [simpl; lia|].
      cbn [fold_right map]. pose proof (print_member_length kv). lia. }
    pose proof (concat_length_lower "," (map print_member members)) as Hl.
    simpl String.length. lia.
Qed.

(** Decoding the text of a document gives the document back. *)
Lemma parse_print (j : json) : parse (print j) = Ok j.
Proof.
  unfold parse. destruct (print_head j) as (c & t & E & Hc).
  assert (skip_ws (print j) = print j) as ->.
  { rewrite E. now apply skip_ws_value. }
  pose proof (json_size_bound j) as Hb.
  rewrite <- (string_app_nil_r (print j)) at 2.
  rewrite scan_once_printed; [reflexivity| |exact I].
  rewrite ?string_app_nil_r. lia.
Qed.

(** ** Sorting by key *)

Lemma insert_sorted_map {A B} (f : A -> B) (x : key * A) (l : list (key * A)) :
  insert_sorted (on_snd f x) (map (on_snd f) l)
  = map (on_snd f) (insert_sorted x l).
Proof.
  induction l as [|y l IH]; [reflexivity|].
  cbn [map insert_sorted]. cbn [on_snd fst].
  destruct (key_le (fst x) (fst y)); [reflexivity|].
  cbn [map]. now rewrite <- IH.
Qed.

Lemma sort_by_key_map {A B} (f : A -> B) (l : list (key * A)) :
  sort_by_key (map (on_snd f) l) = map (on_snd f) (sort_by_key l).
Proof.
  induction l as [|x l IH]; [reflexivity|].
  cbn [map]. unfold sort_by_key in *. cbn [fold_right].
  now rewrite IH, insert_sorted_map.
Qed.

Lemma insert_sorted_perm {A} (x : key * A) (l : list (key * A)) :
  Permutation (insert_sorted x l) (x :: l).
Proof.
  induction l as [|y l IH]; simpl; [reflexivity|].
  destruct (key_le (fst x) (fst y)); [reflexivity|].
  rewrite IH. apply perm_swap.
Qed.

Lemma sort_by_key_perm {A} (l : list (key * A)) :
  Permutation (sort_by_key l) l.
Proof.
  induction l as [|x l IH]; [reflexivity|].
  unfold sort_by_key in *. cbn [fold_right].
  rewrite insert_sorted_perm. now constructor.
Qed.

Lemma sort_by_key_short {A} (l : list (key * A)) :
  length l <= 1 -> sort_by_key l = l.
Proof.
  destruct l as [|x [|y l]]; simpl; intros H; [reflexivity|reflexivity|lia].
Qed.

Lemma sorted_items_text {A} (l : list (key * A)) :
  Forall (fun kv => is_text_key (fst kv) = true) l ->
  sorted_items l = Ok (sort_by_key l).
Proof.
  intros H. unfold sorted_items.
  destruct l as [|x [|y l]]; [reflexivity|reflexivity|].
  assert (forallb (fun kv => is_text_key (fst kv)) (x :: y :: l) = true) as ->.
  { apply forallb_forall. intros kv Hin.
    rewrite Forall_forall in H. now apply H. }
  reflexivity.
Qed.

(** ** Dictionaries with distinct keys *)

Section DistinctKeys.
Variables (K V : Type) (eqb : K -> K -> bool).

Definition reflects_on (ks : list K) : Prop :=
  forall a b, In a ks -> In b ks -> eqb a b = true -> a = b.

Lemma dict_set_new (d : list (K * V)) (k : K) (v : V) :
  reflects_on (k :: map fst d) -> ~ In k (map fst d) ->
  dict_set eqb d k v = d ++ [(k, v)].
Proof.
  induction d as [|[k' v'] d IH]; intros Hr Hk; [reflexivity|].
  simpl. destruct (eqb k k') eqn:E.
  - exfalso. apply Hk. left. symmetry. apply Hr; simpl; auto.
  - rewrite IH; [reflexivity| |].
    + intros a b Ha Hb. apply Hr; simpl in *; tauto.
    + intros H. apply Hk. now right.
Qed.

Lemma assign_all_distinct (items d : list (K * V)) :
  reflects_on (map fst (d ++ items)) ->
  NoDup (map fst (d ++ items)) ->
  assign_all eqb d items = d ++ items.
Proof.
  revert d. induction items as [|[k v] items IH]; intros d Hr Hnd.
  - simpl. now rewrite app_nil_r.
  - unfold assign_all in *. cbn [fold_left fst snd].
    assert (~ In k (map fst d)) as Hk.
    { rewrite map_app in Hnd. simpl in Hnd.
      apply NoDup_remove_2 in Hnd. intros H. apply Hnd.
      apply in_or_app. now left. }
    rewrite dict_set_new; trivial.
    + rewrite IH; [now rewrite <- app_assoc| |];
        rewrite <- app_assoc; assumption.
    + intros a b Ha Hb. apply Hr; rewrite map_app; simpl;
        apply in_or_app; simpl in *; tauto.
Qed.
End DistinctKeys.

Lemma text_keys_reflect (ks : list key) :
  Forall (fun k => is_text_key k = true) ks -> reflects_on key_eqb ks.
Proof.
  intros H a b Ha Hb E. rewrite Forall_forall in H.
  pose proof (H _ Ha) as Ta. pose proof (H _ Hb) as Tb.
  destruct a; try discriminate. destruct b; try discriminate.
  simpl in E. apply String.eqb_eq in E. now subst.
Qed.

Lemma string_keys_reflect (ks : list string) : reflects_on String.eqb ks.
Proof. intros a b _ _ E. now apply String.eqb_eq. Qed.

Lemma assign_all_text {V} (items : list (key * V)) :
  Forall (fun kv => is_text_key (fst kv) = true) items ->
  NoDup (map fst items) ->
  assign_all key_eqb [] items = items.
Proof.
  intros Ht Hnd. apply (@assign_all_distinct _ _ key_eqb items []); trivial.
  apply text_keys_reflect. simpl. now apply Forall_map.
Qed.

(** ** Mappings across the wire *)

Lemma mapM_map_ok {A B C} (f : B -> result C) (g : A -> B) (h : A -> C)
      (l : list A) :
  (forall x, In x l -> f (g x) = Ok (h x)) ->
  mapM f (map g l) = Ok (map h l).
Proof.
  induction l as [|x l IH]; intros H; [reflexivity|].
  cbn [map mapM]. rewrite (H x) by now left.
  rewrite IH by (intros y Hy; apply H; now right). reflexivity.
Qed.

Lemma json_of_value_dict_eq (kvs : list (key * value)) :
  json_of_value (VDict kvs)
  = (items <- sorted_items
                (map (fun kv => (fst kv, json_of_value (snd kv))) kvs) ;;
     members <- mapM (fun kr => j <- snd kr ;; Ok (key_text (fst kr), j)) items ;;
     Ok (JObj members)).
Proof. reflexivity. Qed.

Lemma json_of_value_dict {A} (d_of : A -> value) (T : list (key * (A * json))) :
  Forall (fun t => is_text_key (fst t) = true) T ->
  Forall (fun t => json_of_value (d_of (fst (snd t))) = Ok (snd (snd t))) T ->
  json_of_value (VDict (map (on_snd (fun dj => d_of (fst dj))) T))
  = Ok (JObj (map wire_member (sort_by_key T))).
Proof.
  intros Ht Hj. rewrite json_of_value_dict_eq, map_map.
  assert (map (fun x => (fst (on_snd (fun dj => d_of (fst dj)) x),
                          json_of_value (snd (on_snd (fun dj => d_of (fst dj)) x))))
              T
          = map (on_snd (fun dj : A * json => Ok (snd dj))) T) as ->.
  { apply map_ext_in. intros t Hin. rewrite Forall_forall in Hj.
    unfold on_snd. cbn [fst snd]. now rewrite (Hj _ Hin). }
  rewrite sorted_items_text.
  - rewrite sort_by_key_map, bind_Ok.
    rewrite (mapM_map_ok _ _ wire_member); [reflexivity|].
    intros t _. reflexivity.
  - apply Forall_map. exact Ht.
Qed.

Lemma text_key_text (k : key) : is_text_key k = true -> KStr (key_text k) = k.
Proof. destruct k; try discriminate. reflexivity. Qed.

Lemma value_of_json_obj {A} (S : list (key * (A * json))) :
  Forall (fun t => is_text_key (fst t) = true) S ->
  NoDup (map fst S) ->
  value_of_json (JObj (map wire_member S))
  = VDict (map (on_snd (fun dj => value_of_json (snd dj))) S).
Proof.
  intros Ht Hnd. cbn [value_of_json]. rewrite map_map.
  assert (map (fun x => (KStr (fst (wire_member x)),
                         value_of_json (snd (wire_member x)))) S
          = map (on_snd (fun dj : A * json => value_of_json (snd dj))) S) as ->.
  { apply map_ext_in. intros t Hin. rewrite Forall_forall in Ht.
    unfold wire_member, on_snd. cbn [fst snd].
    now rewrite (text_key_text _ (Ht _ Hin)). }
  change (dict_of_items key_eqb ?l) with (assign_all key_eqb [] l).
  rewrite assign_all_text; [reflexivity| |].
  - apply Forall_map. exact Ht.
  - rewrite map_map. exact Hnd.
Qed.

Lemma dict_mem_existsb {K V} (eqb : K -> K -> bool) (d : list (K * V)) (k : K) :
  dict_mem eqb d k = existsb (eqb k) (map fst d).
Proof.
  unfold dict_mem. induction d as [|[k' v] d IH]; [reflexivity|].
  simpl. destruct (eqb k k'); [reflexivity|exact IH].
Qed.

Lemma existsb_perm {A} (p : A -> bool) (l l' : list A) :
  Permutation l l' -> existsb p l = existsb p l'.
Proof.
  induction 1 as [|x l l' _ IH|x y l|l l' l'' _ IH1 _ IH2]; simpl.
  - reflexivity.
  - now rewrite IH.
  - destruct (p x), (p y); reflexivity.
  - congruence.
Qed.

Lemma key_in_perm {V W} (name : string) (l : list (key * V)) (l' : list (key * W)) :
  Permutation (map fst l) (map fst l') ->
  dict_mem key_eqb l (KStr name) = dict_mem key_eqb l' (KStr name).
Proof. intros H. rewrite !dict_mem_existsb. now apply existsb_perm. Qed.

Lemma classify_perm (l l' : list (key * value)) :
  Permutation (map fst l) (map fst l') ->
  classify (VDict l) = classify (VDict l').
Proof.
  intros H. rewrite !classify_dict. unfold key_in.
  now rewrite !(key_in_perm _ l l' H).
Qed.

Lemma map_fst_on_snd {K A B} (f : A -> B) (l : list (K * A)) :
  map fst (map (on_snd f) l) = map fst l.
Proof. rewrite map_map. reflexivity. Qed.

Lemma for_items_cons {K A B} (keep : K -> bool) (f : A -> result B)
      (k : K) (a : A) (l : list (K * A)) :
  for_items keep f ((k, a) :: l)
  = if keep k
    then b <- f a ;; r <- for_items keep f l ;; Ok ((k, b) :: r)
    else for_items keep f l.
Proof. reflexivity. Qed.

Lemma for_items_map_ok {K A B C} (f : B -> result C) (g : A -> B) (h : A -> C)
      (l : list (K * A)) :
  (forall x, In x l -> f (g (snd x)) = Ok (h (snd x))) ->
  for_items (fun _ => true) f (map (on_snd g) l) = Ok (map (on_snd h) l).
Proof.
  induction l as [|[k x] l IH]; intros H; [reflexivity|].
  pose proof (H (k, x) (or_introl eq_refl)) as Hx. cbn [snd] in Hx.
  cbn [map]. unfold on_snd at 1. cbn [fst snd].
  rewrite for_items_cons, Hx, IH by (intros y Hy; apply H; now right).
  reflexivity.
Qed.

(** ** The round trip *)

Lemma decoded_handled (m : Marshall) (v : value) :
  _is_handled_by_codec m v = true -> decoded m v = v.
Proof. intros H. destruct v; simpl; rewrite H; reflexivity. Qed.

Lemma with_attr_dict_get {A B} (f : A -> B) (name : string)
      (l : list (string * A)) :
  with_attr f name l = option_map f (dict_get String.eqb l name).
Proof.
  induction l as [|[k a] l IH]; [reflexivity|].
  simpl. destruct (String.eqb name k); [reflexivity|exact IH].
Qed.

Lemma with_key_dict_get {A B} (f : A -> B) (name : string)
      (l : list (key * A)) :
  with_key f name l = option_map f (dict_get key_eqb l (KStr name)).
Proof.
  induction l as [|[k a] l IH]; [reflexivity|].
  change (with_key f name ((k, a) :: l))
    with (if key_eqb (KStr name) k then Some (f a) else with_key f name l).
  change (dict_get key_eqb ((k, a) :: l) (KStr name))
    with (if key_eqb (KStr name) k then Some a
          else dict_get key_eqb l (KStr name)).
  destruct (key_eqb (KStr name) k); [reflexivity|exact IH].
Qed.

Lemma for_items_filter {K A B} (keep : K -> bool) (f : A -> result B)
      (l : list (K * A)) :
  for_items keep f l
  = for_items (fun _ => true) f (filter (fun kv => keep (fst kv)) l).
Proof.
  induction l as [|[k a] l IH]; [reflexivity|].
  rewrite for_items_cons. cbn [filter fst].
  destruct (keep k); [|exact IH].
  rewrite for_items_cons, IH. reflexivity.
Qed.

Lemma dict_get_none {K V} (eqb : K -> K -> bool) (d : list (K * V)) (k : K) :
  (forall k', In k' (map fst d) -> eqb k k' = false) ->
  dict_get eqb d k = None.
Proof.
  induction d as [|[k' v] d IH]; intros H; [reflexivity|].
  simpl. rewrite (H k') by now left.
  apply IH. intros k'' Hin. apply H. now right.
Qed.

Lemma dict_get_in {K V} (eqb : K -> K -> bool) (d : list (K * V)) (k : K) (v : V) :
  reflects_on eqb (map fst d) -> (forall a, eqb a a = true) ->
  NoDup (map fst d) -> In (k, v) d -> dict_get eqb d k = Some v.
Proof.
  intros Hr Hrefl. induction d as [|[k' v'] d IH]; intros Hnd Hin; [contradiction|].
  simpl. destruct Hin as [[= -> ->]|Hin].
  - now rewrite Hrefl.
  - destruct (eqb k k') eqn:E.
    + exfalso. assert (k = k') as ->.
      { apply Hr; simpl; auto. right. now apply (in_map fst) in Hin. }
      inversion Hnd as [|? ? Hn _]; subst. apply Hn.
      now apply (in_map fst) in Hin.
    + apply IH; trivial.
      * intros a b Ha Hb. apply Hr; now right.
      * now inversion Hnd.
Qed.

Lemma key_eqb_refl (k : key) : key_eqb k k = true.
Proof.
  destruct k as [|[]| |]; simpl; auto using Z.eqb_refl, String.eqb_refl.
Qed.

Lemma for_fields_map_ok {A} (f : value -> result value) (g h : A -> value)
      (l : list (key * A)) :
  Forall (fun t => is_text_key (fst t) = true) l ->
  (forall t, In t l -> field_of h t <> [] -> f (g (snd t)) = Ok (h (snd t))) ->
  for_fields f (map (on_snd g) l) = Ok (flat_map (field_of h) l).
Proof.
  induction 1 as [|[k a] l Hk _ IH]; intros H; [reflexivity|].
  destruct k as [| | |s]; try discriminate.
  cbn [map flat_map]. unfold on_snd at 1. cbn [fst snd].
  change (for_fields f ((KStr s, g a) :: map (on_snd g) l))
    with (if is_dunder s then for_fields f (map (on_snd g) l)
          else b <- f (g a) ;; r <- for_fields f (map (on_snd g) l) ;;
               Ok ((s, b) :: r)).
  unfold field_of at 1. cbn [fst snd].
  pose proof (H (KStr s, a) (or_introl eq_refl)) as Hx.
  unfold field_of in Hx. cbn [fst snd] in Hx.
  rewrite IH by (intros t Ht; apply H; now right).
  destruct (is_dunder s); [reflexivity|].
  rewrite Hx by discriminate. reflexivity.
Qed.

Lemma flat_map_perm {A B} (f : A -> list B) (l l' : list A) :
  Permutation l l' -> Permutation (flat_map f l) (flat_map f l').
Proof.
  induction 1 as [|x l l' _ IH|x y l|l l' l'' _ IH1 _ IH2]; simpl.
  - reflexivity.
  - now apply Permutation_app_head.
  - rewrite !app_assoc. apply Permutation_app_tail, Permutation_app_comm.
  - now transitivity (flat_map f l').
Qed.

Lemma dict_get_absent {V} (d : list (string * V)) (k : string) :
  ~ In k (map fst d) -> dict_get String.eqb d k = None.
Proof.
  induction d as [|[a x] d IH]; simpl; intros H; [reflexivity|].
  destruct (String.eqb k a) eqn:E.
  - apply String.eqb_eq in E. subst a. exfalso. apply H. now left.
  - apply IH. intros Hin. apply H. now right.
Qed.

Lemma serialise_data_eq (m : Marshall) (data : value) :
  serialise_data m data
  = if _is_handled_by_codec m data then _object_to_codec_dict m data
    else
      match data with
      | VList xs | VTuple xs =>
          new_sequence <- mapM (serialise_data m) xs ;;
          Ok (VList new_sequence)
      | VDict kvs | VMap kvs =>
          items <- for_items (fun _ => true) (serialise_data m) kvs ;;
          Ok (VDict (assign_all key_eqb [] items))
      | VSet _ => Err AttributeError
      | VObject cls_module cls_name class_attrs json_data vars =>
          if String.eqb cls_module "builtins" then Ok data
          else _object_to_dict (serialise_data m) (_fqn_resolver m)
                 cls_module cls_name class_attrs json_data vars
      | _ => Ok data
      end.
Proof. destruct data; reflexivity. Qed.

Lemma str_keys_get (l : list (string * value)) (name : string) :
  dict_get key_eqb (str_keys l) (KStr name) = dict_get String.eqb l name.
Proof.
  induction l as [|[a x] l IH]; [reflexivity|].
  simpl. destruct (String.eqb name a); [reflexivity|exact IH].
Qed.

Lemma dict_get_some_in {V} (d : list (string * V)) (k : string) (v : V) :
  dict_get String.eqb d k = Some v -> In (k, v) d.
Proof.
  induction d as [|[a x] d IH]; simpl; [discriminate|].
  destruct (String.eqb k a) eqn:E.
  - apply String.eqb_eq in E. subst a. intros [= ->]. now left.
  - intros H. right. now apply IH.
Qed.

Lemma dict_get_of_in {V} (d : list (string * V)) (k : string) (v : V) :
  NoDup (map fst d) -> In (k, v) d -> dict_get String.eqb d k = Some v.
Proof.
  induction d as [|[a x] d IH]; simpl; intros Hnd Hin; [contradiction|].
  inversion Hnd as [|? ? Ha Hd]; subst.
  destruct Hin as [[= -> ->]|Hin].
  - now rewrite String.eqb_refl.
  - destruct (String.eqb k a) eqn:E; [|now apply IH].
    apply String.eqb_eq in E. subst a. exfalso. apply Ha.
    apply in_map_iff. now exists (k, v).
Qed.

Lemma getattr_in {A} (class_attrs vars : list (string * A)) (name : string)
      (x : A) :
  getattr class_attrs vars name = Some x ->
  In x (map snd vars) \/ In x (map snd class_attrs).
Proof.
  unfold getattr. destruct (dict_get String.eqb vars name) as [y|] eqn:E.
  - intros [= <-]. left. apply dict_get_some_in in E.
    now apply (in_map snd) in E.
  - intros H. right. apply dict_get_some_in in H. now apply (in_map snd) in H.
Qed.

Lemma dict_get_app {K V} (eqb : K -> K -> bool) (l1 l2 : list (K * V)) (k : K) :
  dict_get eqb (l1 ++ l2) k
  = match dict_get eqb l1 k with
    | Some v => Some v
    | None => dict_get eqb l2 k
    end.
Proof.
  induction l1 as [|[a x] l1 IH]; [reflexivity|].
  simpl. destruct (eqb k a); [reflexivity|exact IH].
Qed.

Lemma dict_get_map_snd {K A B} (eqb : K -> K -> bool) (f : A -> B)
      (l : list (K * A)) (k : K) :
  dict_get eqb (map (on_snd f) l) k = option_map f (dict_get eqb l k).
Proof.
  induction l as [|[a x] l IH]; [reflexivity|].
  simpl. destruct (eqb k a); [reflexivity|exact IH].
Qed.

Lemma text_entry_get {A} (L : list (string * A)) (name : string) :
  dict_get key_eqb (map text_entry L) (KStr name) = dict_get String.eqb L name.
Proof.
  induction L as [|[a x] L IH]; [reflexivity|].
  simpl. destruct (String.eqb name a); [reflexivity|exact IH].
Qed.

Lemma dict_get_text_in {V} (l : list (key * V)) (name : string) (v : V) :
  Forall (fun kv => is_text_key (fst kv) = true) l ->
  dict_get key_eqb l (KStr name) = Some v -> In (KStr name, v) l.
Proof.
  induction 1 as [|[k x] l Hk _ IH]; [discriminate|].
  simpl in Hk. destruct k as [| | |s]; try discriminate.
  simpl. destruct (String.eqb_spec name s) as [->|_].
  - intros [= ->]. now left.
  - intros H. right. now apply IH.
Qed.

Lemma dict_get_text_perm {V} (l l' : list (key * V)) (name : string) :
  Forall (fun kv => is_text_key (fst kv) = true) l ->
  NoDup (map fst l) -> Permutation l l' ->
  dict_get key_eqb l (KStr name) = dict_get key_eqb l' (KStr name).
Proof.
  intros Ht Hnd Hp.
  assert (Ht' : Forall (fun kv => is_text_key (fst kv) = true) l').
  { rewrite Forall_forall in *. intros kv Hin. apply Ht.
    now apply (Permutation_in _ (Permutation_sym Hp)). }
  assert (Hnd' : NoDup (map fst l'))
    by (eapply Permutation_NoDup; [apply Permutation_map; exact Hp|exact Hnd]).
  assert (Hget : forall (d : list (key * V)) v,
             Forall (fun kv => is_text_key (fst kv) = true) d ->
             NoDup (map fst d) -> In (KStr name, v) d ->
             dict_get key_eqb d (KStr name) = Some v).
  { intros d v Hd Hn Hin. apply dict_get_in; trivial.
    - apply text_keys_reflect. now apply Forall_map.
    - apply key_eqb_refl. }
  destruct (dict_get key_eqb l' (KStr name)) as [v|] eqn:E'.
  - apply (dict_get_text_in _ Ht') in E'. apply Hget; trivial.
    now apply (Permutation_in _ (Permutation_sym Hp)).
  - destruct (dict_get key_eqb l (KStr name)) as [v|] eqn:E; [|reflexivity].
    apply (dict_get_text_in _ Ht) in E.
    apply (Permutation_in _ Hp) in E. rewrite (Hget _ _ Ht' Hnd' E) in E'.
    discriminate.
Qed.

(** What the text holds under a key of a written dict: the entry of the
    dict, read back. *)
Lemma wire_get {A} (T : list (key * (A * json))) (name : string) :
  Forall (fun t => is_text_key (fst t) = true) T ->
  NoDup (map fst T) ->
  dict_get key_eqb
    (map (on_snd (fun dj : A * json => value_of_json (snd dj))) (sort_by_key T))
    (KStr name)
  = option_map (fun dj => value_of_json (snd dj)) (dict_get key_eqb T (KStr name)).
Proof.
  intros Ht Hnd. rewrite <- dict_get_map_snd.
  apply dict_get_text_perm.
  - apply Forall_map. rewrite Forall_forall in *. intros t Hin. apply Ht.
    now apply (Permutation_in _ (sort_by_key_perm T)).
  - rewrite map_fst_on_snd. eapply Permutation_NoDup; [|exact Hnd].
    apply Permutation_map. symmetry. apply sort_by_key_perm.
  - apply Permutation_map. apply sort_by_key_perm.
Qed.

Section RoundTrip.
Variable import_module : string -> result (string -> option pyclass).
Variable m : Marshall.

Local Abbreviation encode := (serialise_data m).
Local Abbreviation decode := (deserialise_data import_module m).
Local Abbreviation safe := (wire_safe import_module m).

(** [v] is encoded to [d], [d] is written as the document [j], and the value
    read from [j] is decoded to [decoded m v]. *)
Definition trips (v d : value) (j : json) : Prop :=
  encode v = Ok d
  /\ json_of_value d = Ok j
  /\ decode (value_of_json j) = Ok (decoded m v).

Definition v_of (t : value * value * json) : value := fst (fst t).
Definition d_of (t : value * value * json) : value := snd (fst t).
Definition j_of (t : value * value * json) : json := snd t.
Definition trip_of (t : value * value * json) : Prop :=
  trips (v_of t) (d_of t) (j_of t).

Lemma collect_items (xs : list value) :
  Forall (fun x => safe x -> exists d j, trips x d j) xs ->
  Forall safe xs ->
  exists T, map v_of T = xs /\ Forall trip_of T.
Proof.
  induction 1 as [|x xs Hx _ IH]; intros Hs.
  - exists []. split; constructor.
  - inversion Hs as [|? ? Hsx Hsxs]; subst.
    destruct (Hx Hsx) as (d & j & Ht). destruct (IH Hsxs) as (T & <- & HT).
    exists ((x, d, j) :: T). split; [reflexivity|now constructor].
Qed.

Lemma collect_keyed {K} (kvs : list (K * value)) :
  Forall (fun kv => safe (snd kv) -> exists d j, trips (snd kv) d j) kvs ->
  Forall (fun kv => safe (snd kv)) kvs ->
  exists T : list (K * (value * value * json)),
    map (on_snd v_of) T = kvs /\ Forall (fun t => trip_of (snd t)) T.
Proof.
  induction 1 as [|[k x] kvs Hx _ IH]; intros Hs.
  - exists []. split; constructor.
  - inversion Hs as [|? ? Hsx Hsxs]; subst.
    destruct (Hx Hsx) as (d & j & Ht). destruct (IH Hsxs) as (T & <- & HT).
    exists ((k, (x, d, j)) :: T). split; [reflexivity|now constructor].
Qed.

Lemma codec_trips (v : value) :
  _is_handled_by_codec m v = true -> safe v -> exists d j, trips v d j.
Proof.
  intros Hh Hs.
  assert (codec_inverts m v)
    as (c & env & name & params & wp & c' & Hc & He & Htext & Hnd & Hcls & Hjs
        & Hname & Hparams & Hrb & Hreg & Hdes).
  { inversion Hs; subst; congruence. }
  (* the entries of the envelope, each with its document *)
  assert (exists T : list (key * (value * json)),
             map (on_snd fst) T = env
             /\ Forall (fun t => json_of_value (fst (snd t)) = Ok (snd (snd t))) T)
    as (T & HT & HTj).
  { clear - Hjs. induction Hjs as [|[k x] env Hx _ (T & <- & HT)].
    - exists []. split; constructor.
    - simpl in Hx. destruct (json_of_value x) as [jx|] eqn:E; [|discriminate].
      exists ((k, (x, jx)) :: T). split; [reflexivity|]. now constructor. }
  assert (HtextT : Forall (fun t : key * (value * json) =>
                             is_text_key (fst t) = true) T).
  { rewrite Forall_forall in *. intros t Hin.
    apply (Htext (on_snd fst t)). rewrite <- HT. now apply in_map. }
  assert (HndT : NoDup (map fst T))
    by (rewrite <- HT, map_fst_on_snd in Hnd; exact Hnd).
  pose proof (sort_by_key_perm T) as Hperm.
  assert (HtextS : Forall (fun t : key * (value * json) =>
                             is_text_key (fst t) = true) (sort_by_key T)).
  { rewrite Forall_forall in *. intros t Hin. apply HtextT.
    now apply (Permutation_in _ Hperm). }
  assert (HndS : NoDup (map fst (sort_by_key T))).
  { eapply Permutation_NoDup; [|exact HndT].
    apply Permutation_map. now symmetry. }
  assert (Hread : forall key x,
             dict_get key_eqb env (KStr key) = Some x ->
             exists jx, json_of_value x = Ok jx
               /\ dict_get key_eqb
                    (map (on_snd (fun dj : value * json => value_of_json (snd dj)))
                       (sort_by_key T)) (KStr key)
                  = Some (value_of_json jx)).
  { intros key x Hx. rewrite (wire_get _ HtextT HndT).
    rewrite <- HT, dict_get_map_snd in Hx.
    destruct (dict_get key_eqb T (KStr key)) as [[x' jx]|] eqn:E; [|discriminate].
    injection Hx as ->. exists jx. split; [|reflexivity].
    apply (dict_get_text_in _ HtextT) in E.
    rewrite Forall_forall in HTj. exact (HTj _ E). }
  exists (VDict env), (JObj (map wire_member (sort_by_key T))).
  split; [|split].
  - rewrite (serialise_data_handled _ _ Hh).
    unfold _object_to_codec_dict. now rewrite Hc.
  - rewrite <- HT. exact (@json_of_value_dict _ (fun x => x) T HtextT HTj).
  - rewrite (value_of_json_obj HtextS HndS), deserialise_dict.
    rewrite (classify_perm _ env), Hcls.
    + unfold _codec_dict_to_object, getitem.
      destruct (Hread _ _ Hname) as (jn & Hjn & ->).
      injection Hjn as <-. cbn [value_of_json]. rewrite bind_Ok.
      cbn [hashable negb]. rewrite Hreg.
      destruct (Hread _ _ Hparams) as (jp & Hjp & ->).
      rewrite bind_Ok. unfold read_back in Hrb. rewrite Hjp in Hrb.
      injection Hrb as <-. rewrite Hdes.
      now rewrite (decoded_handled _ _ Hh).
    + rewrite map_fst_on_snd, <- HT, map_fst_on_snd.
      now apply Permutation_map.
Qed.

Lemma on_snd_compose {K A B C} (f : B -> C) (g : A -> B) (l : list (K * A)) :
  map (on_snd f) (map (on_snd g) l) = map (on_snd (fun a => f (g a))) l.
Proof. rewrite map_map. reflexivity. Qed.

(** A plain mapping, as a dict or as an immutable mapping. *)
Lemma mapping_trips (T : list (key * (value * value * json))) :
  plain_keys (map (on_snd v_of) T) ->
  Forall (fun t => trip_of (snd t)) T ->
  exists d j,
    (items <- for_items (fun _ => true) encode (map (on_snd v_of) T) ;;
     Ok (VDict (assign_all key_eqb [] items))) = Ok d
    /\ json_of_value d = Ok j
    /\ decode (value_of_json j)
       = Ok (VMap (sort_by_key (map (on_snd (decoded m))
                                  (map (on_snd v_of) T)))).
Proof.
  intros (Htext & Hnd & Hplain) HT.
  rewrite map_fst_on_snd in Hnd.
  assert (Forall (fun t : key * (value * value * json) =>
                    is_text_key (fst t) = true) T) as HtextT.
  { rewrite Forall_forall in *. intros t Hin.
    apply (Htext (on_snd v_of t)). now apply in_map. }
  pose proof (sort_by_key_perm T) as Hperm.
  assert (Forall (fun t : key * (value * value * json) =>
                    is_text_key (fst t) = true) (sort_by_key T)) as HtextS.
  { rewrite Forall_forall in *. intros t Hin. apply HtextT.
    now apply (Permutation_in _ Hperm). }
  assert (NoDup (map fst (sort_by_key T))) as HndS.
  { eapply Permutation_NoDup; [|exact Hnd].
    apply Permutation_map. now symmetry. }
  exists (VDict (map (on_snd d_of) T)),
         (JObj (map wire_member (sort_by_key T))).
  split; [|split].
  - rewrite (for_items_map_ok encode v_of d_of).
    + rewrite bind_Ok, assign_all_text; [reflexivity| |].
      * apply Forall_map. exact HtextT.
      * now rewrite map_fst_on_snd.
    + intros t Hin. rewrite Forall_forall in HT. apply (HT _ Hin).
  - apply (@json_of_value_dict _ snd T HtextT).
    rewrite Forall_forall in *. intros t Hin. apply (HT _ Hin).
  - rewrite (value_of_json_obj HtextS HndS), deserialise_dict.
    rewrite (classify_perm _ (map (on_snd v_of) T)), Hplain.
    + rewrite (for_items_map_ok decode _ (fun t => decoded m (v_of t))).
      * rewrite bind_Ok, assign_all_text.
        -- now rewrite on_snd_compose, sort_by_key_map.
        -- apply Forall_map. exact HtextS.
        -- now rewrite map_fst_on_snd.
      * intros t Hin. rewrite Forall_forall in HT.
        apply (HT t). now apply (Permutation_in _ Hperm).
    + rewrite !map_fst_on_snd. now apply Permutation_map.
Qed.

Lemma getattr_none {A} (class_attrs vars : list (string * A)) (name : string) :
  getattr class_attrs vars name = None ->
  dict_get String.eqb vars name = None
  /\ dict_get String.eqb class_attrs name = None.
Proof.
  unfold getattr. destruct (dict_get String.eqb vars name); [discriminate|auto].
Qed.

Lemma field_of_text_entries {A} (h : A -> value) (T : list (string * A)) :
  Forall (fun t => is_dunder (fst t) = false) T ->
  flat_map (field_of h) (map text_entry T) = map (on_snd h) T.
Proof.
  induction 1 as [|[s a] T Hs _ IH]; [reflexivity|].
  cbn [map flat_map]. unfold field_of at 1, text_entry at 1. cbn [fst snd] in *.
  rewrite Hs, IH. reflexivity.
Qed.

Lemma str_keys_text_entry {A} (f : A -> value) (T : list (string * A)) :
  str_keys (map (on_snd f) T) = map (on_snd f) (map text_entry T).
Proof. unfold str_keys. rewrite !map_map. reflexivity. Qed.

Lemma KStr_map_nodup (ks : list string) :
  NoDup ks -> NoDup (map KStr ks).
Proof.
  induction 1 as [|k ks Hk _ IH]; simpl; constructor; [|exact IH].
  intros Hin. apply in_map_iff in Hin as (k' & [= ->] & Hin). contradiction.
Qed.

Lemma is_dunder_text_absent {A} (name : string) (L : list (key * A)) :
  is_dunder name = true ->
  Forall (fun t => exists s, fst t = KStr s /\ (s = "__fqn__" \/ is_dunder s = false)) L ->
  name <> "__fqn__" ->
  dict_get key_eqb L (KStr name) = None.
Proof.
  intros Hd HL Hne. apply dict_get_none. intros k' Hin.
  apply in_map_iff in Hin as (t & <- & Hin).
  rewrite Forall_forall in HL. destruct (HL _ Hin) as (s & -> & Hs).
  simpl. apply String.eqb_neq. intros ->. destruct Hs; congruence.
Qed.

Lemma object_to_dict_eq (f : value -> result value) (r : FqnResolver)
      (cls_module cls_name : string) (class_attrs : list (string * value))
      (json_data : option (list (string * value)))
      (vars : list (string * value)) :
  _object_to_dict f r cls_module cls_name class_attrs json_data vars
  = (fqn <- instance_to_fqn r cls_module cls_name ;;
     data3 <-
       match getattr class_attrs vars "__timestamp__" with
       | Some timestamp =>
           t <- f timestamp ;;
           Ok ((("__fqn__", VStr fqn)
                :: opt_entry "__version__" (getattr class_attrs vars "__version__")
                ++ opt_entry "__msgid__" (getattr class_attrs vars "__msgid__"))
               ++ [("__timestamp__", t)])
       | None =>
           Ok (("__fqn__", VStr fqn)
               :: opt_entry "__version__" (getattr class_attrs vars "__version__")
               ++ opt_entry "__msgid__" (getattr class_attrs vars "__msgid__"))
       end ;;
     fields <-
       for_items (fun attr => negb (is_dunder attr)) f
         match json_data with Some d => d | None => vars end ;;
     Ok (VDict (str_keys (assign_all String.eqb data3 fields)))).
Proof.
  unfold _object_to_dict.
  destruct (instance_to_fqn r cls_module cls_name) as [fqn|e]; [|reflexivity].
  rewrite !bind_Ok. cbv zeta. rewrite !with_attr_dict_get.
  set (gv := getattr class_attrs vars "__version__").
  set (gm := getattr class_attrs vars "__msgid__").
  unfold getattr.
  destruct (dict_get String.eqb vars "__timestamp__") as [ts|];
    [|destruct (dict_get String.eqb class_attrs "__timestamp__") as [ts|]];
    destruct gv, gm; reflexivity.
Qed.

Lemma meta_names {A} (o1 o2 o3 : option A) :
  NoDup (map fst (opt_entry "__version__" o1 ++ opt_entry "__msgid__" o2
                  ++ opt_entry "__timestamp__" o3))
  /\ Forall (fun e => is_dunder (fst e) = true /\ fst e <> "__fqn__")
       (opt_entry "__version__" o1 ++ opt_entry "__msgid__" o2
        ++ opt_entry "__timestamp__" o3).
Proof.
  destruct o1, o2, o3; simpl; split;
    repeat first [apply NoDup_nil | apply NoDup_cons | apply Forall_nil
                 | apply Forall_cons | split];
    simpl; try reflexivity; try intuition discriminate.
Qed.

Lemma meta_get {A} (x : A) (o1 o2 o3 : option A) (T : list (string * A)) :
  Forall (fun t => is_dunder (fst t) = false) T ->
  dict_get String.eqb
    (("__fqn__", x)
     :: (opt_entry "__version__" o1 ++ opt_entry "__msgid__" o2
         ++ opt_entry "__timestamp__" o3) ++ T) "__fqn__" = Some x
  /\ dict_get String.eqb
       (("__fqn__", x)
        :: (opt_entry "__version__" o1 ++ opt_entry "__msgid__" o2
            ++ opt_entry "__timestamp__" o3) ++ T) "__msgid__" = o2
  /\ dict_get String.eqb
       (("__fqn__", x)
        :: (opt_entry "__version__" o1 ++ opt_entry "__msgid__" o2
            ++ opt_entry "__timestamp__" o3) ++ T) "__timestamp__" = o3
  /\ forall n, is_dunder n = false ->
       dict_get String.eqb
         (("__fqn__", x)
          :: (opt_entry "__version__" o1 ++ opt_entry "__msgid__" o2
              ++ opt_entry "__timestamp__" o3) ++ T) n
       = dict_get String.eqb T n.
Proof.
  intros HT.
  assert (Habs : forall n, is_dunder n = true -> dict_get String.eqb T n = None).
  { intros n Hn. apply dict_get_absent. intros Hin.
    apply in_map_iff in Hin as (t & <- & Hin).
    rewrite Forall_forall in HT. rewrite (HT _ Hin) in Hn. discriminate. }
  split; [reflexivity|]. split; [|split].
  - destruct o1, o2, o3; simpl; try reflexivity; now apply Habs.
  - destruct o1, o2, o3; simpl; try reflexivity; now apply Habs.
  - intros n Hn.
    assert (E : forall k, is_dunder k = true -> String.eqb n k = false).
    { intros k Hk. apply String.eqb_neq. intros ->. congruence. }
    destruct o1, o2, o3; simpl;
      rewrite ?(E "__fqn__" eq_refl), ?(E "__version__" eq_refl),
        ?(E "__msgid__" eq_refl), ?(E "__timestamp__" eq_refl); reflexivity.
Qed.

Lemma marked_entries_no_field {A} (h : A -> value) (M : list (string * A)) :
  Forall (fun e => is_dunder (fst e) = true) M ->
  flat_map (field_of h) (map text_entry M) = [].
Proof.
  induction 1 as [|[n a] M Hn _ IH]; [reflexivity|].
  cbn [map flat_map]. unfold field_of at 1, text_entry at 1. cbn [fst snd] in *.
  now rewrite Hn, IH.
Qed.

Lemma object_trips (cls_module cls_name : string)
      (class_attrs : list (string * value))
      (json_data : option (list (string * value)))
      (vars : list (string * value))
      (T : list (string * (value * value * json)))
      (ver_t msg_t ts_t : option (value * value * json)) :
  let obj := VObject cls_module cls_name class_attrs json_data vars in
  let exported :=
    filter (fun kv => negb (is_dunder (fst kv)))
      match json_data with Some d => d | None => vars end in
  map (on_snd v_of) T = exported ->
  Forall (fun t => trip_of (snd t)) T ->
  _is_handled_by_codec m obj = false ->
  String.eqb cls_module "builtins" = false ->
  getattr class_attrs vars "__version__" = option_map v_of ver_t ->
  (forall t, ver_t = Some t ->
             d_of t = v_of t /\ json_of_value (v_of t) = Ok (j_of t)) ->
  getattr class_attrs vars "__msgid__" = option_map v_of msg_t ->
  (forall t, msg_t = Some t ->
             d_of t = v_of t /\ json_of_value (v_of t) = Ok (j_of t)) ->
  getattr class_attrs vars "__timestamp__" = option_map v_of ts_t ->
  (forall t, ts_t = Some t -> trip_of t) ->
  NoDup (map fst exported) ->
  _is_enum_dict (VDict (str_keys exported)) = false ->
  class_rebuilds import_module m cls_module cls_name
    (metadata_kwargs m class_attrs vars ++ map (on_snd (decoded m)) exported)
    (decoded m obj) ->
  exists d j, trips obj d j.
Proof.
  intros obj exported HT Htrips Hh Hb Hver Hverj Hmsg Hmsgj Hts Htsj Hnd Henum
         (fqn & cls & Hfqn & Hcls & Hcall).
  set (fqn_t := (VStr fqn, VStr fqn, JStr fqn) : value * value * json).
  set (M := opt_entry "__version__" ver_t ++ opt_entry "__msgid__" msg_t
            ++ opt_entry "__timestamp__" ts_t).
  set (L := ("__fqn__", fqn_t) :: M ++ T).
  set (T' := map text_entry L).
  destruct (meta_names ver_t msg_t ts_t) as [HndM HdM]. fold M in HndM, HdM.
  destruct (meta_get fqn_t ver_t msg_t ts_t) with (T := T)
    as (Gf & Gm & Gt & Gn).
  { rewrite Forall_forall. intros t Hin.
    assert (In (on_snd v_of t) exported) as Hin'
      by (rewrite <- HT; now apply in_map).
    apply filter_In in Hin' as [_ Hk]. cbn [on_snd fst] in Hk.
    now destruct (is_dunder (fst t)). }
  fold M in Gf, Gm, Gt, Gn. fold L in Gf, Gm, Gt, Gn.
  (* the exported names carry no marker *)
  assert (Forall (fun t : string * (value * value * json) =>
                    is_dunder (fst t) = false) T) as HplainT.
  { rewrite Forall_forall. intros t Hin.
    assert (In (on_snd v_of t) exported) as Hin'
      by (rewrite <- HT; now apply in_map).
    apply filter_In in Hin' as [_ Hk]. cbn [on_snd fst] in Hk.
    now destruct (is_dunder (fst t)). }
  assert (map fst T = map fst exported) as Hkeys
    by (rewrite <- HT; now rewrite map_fst_on_snd).
  assert (HndL : NoDup (map fst L)).
  { unfold L. cbn [map fst]. rewrite map_app. constructor.
    - intros Hin. apply in_app_or in Hin as [Hin|Hin];
        apply in_map_iff in Hin as (e & He & Hin).
      + rewrite Forall_forall in HdM. destruct (HdM _ Hin) as [_ Hne].
        now apply Hne.
      + rewrite Forall_forall in HplainT. specialize (HplainT _ Hin).
        rewrite He in HplainT. discriminate.
    - apply NoDup_app; [exact HndM|now rewrite Hkeys|].
      intros a Ha Ha'.
      apply in_map_iff in Ha as (e & He & Hin).
      apply in_map_iff in Ha' as (t & Ht & Hin').
      rewrite Forall_forall in HdM, HplainT.
      destruct (HdM _ Hin) as [Hd _]. specialize (HplainT _ Hin').
      congruence. }
  assert (HjL : Forall (fun t : string * (value * value * json) =>
                          json_of_value (d_of (snd t)) = Ok (j_of (snd t))) L).
  { assert (Hopt : forall n (o : option (value * value * json)),
               (forall t, o = Some t -> json_of_value (d_of t) = Ok (j_of t)) ->
               Forall (fun t : string * (value * value * json) =>
                         json_of_value (d_of (snd t)) = Ok (j_of (snd t)))
                 (opt_entry n o)).
    { intros n [t|] H; simpl; constructor; auto. }
    unfold L. constructor; [reflexivity|].
    apply Forall_app. split.
    - unfold M. apply Forall_app. split; [|apply Forall_app; split]; apply Hopt.
      + intros t Ht. destruct (Hverj _ Ht) as [-> Hj]. exact Hj.
      + intros t Ht. destruct (Hmsgj _ Ht) as [-> Hj]. exact Hj.
      + intros t Ht. exact (proj1 (proj2 (Htsj _ Ht))).
    - rewrite Forall_forall in *. intros t Hin.
      exact (proj1 (proj2 (Htrips _ Hin))). }
  assert (Forall (fun t : key * (value * value * json) =>
                    is_text_key (fst t) = true) T') as HtextT'.
  { unfold T'. apply Forall_map. rewrite Forall_forall. reflexivity. }
  assert (NoDup (map fst T')) as HndT'.
  { unfold T'. rewrite map_map.
    change (map (fun x : string * (value * value * json) => fst (text_entry x)) L)
      with (map (fun x : string * (value * value * json) => KStr (fst x)) L).
    rewrite <- (map_map fst KStr). now apply KStr_map_nodup. }
  pose proof (sort_by_key_perm T') as Hperm.
  assert (Forall (fun t : key * (value * value * json) =>
                    is_text_key (fst t) = true) (sort_by_key T')) as HtextS.
  { rewrite Forall_forall in *. intros t Hin. apply HtextT'.
    now apply (Permutation_in _ Hperm). }
  assert (NoDup (map fst (sort_by_key T'))) as HndS.
  { eapply Permutation_NoDup; [|exact HndT'].
    apply Permutation_map. now symmetry. }
  exists (VDict (map (on_snd d_of) T')),
         (JObj (map wire_member (sort_by_key T'))).
  split; [|split].
  - (* encoding *)
    assert (Henc : encode obj
                   = _object_to_dict encode (_fqn_resolver m) cls_module cls_name
                       class_attrs json_data vars).
    { unfold obj in *. rewrite serialise_data_eq. now rewrite Hh, Hb. }
    rewrite Henc, object_to_dict_eq, Hfqn, bind_Ok, Hver, Hmsg, Hts.
    match goal with
    | |- bind ?X _ = _ =>
        assert (Hd3 : X = Ok (map (on_snd d_of) (("__fqn__", fqn_t) :: M)))
    end.
    { unfold M.
      destruct ver_t as [tv|], msg_t as [tm|], ts_t as [tt|];
        cbn [option_map opt_entry app map];
        try (rewrite (proj1 (Htsj _ eq_refl)), bind_Ok);
        unfold on_snd; cbn [fst snd];
        try rewrite (proj1 (Hverj _ eq_refl));
        try rewrite (proj1 (Hmsgj _ eq_refl)); reflexivity. }
    rewrite Hd3, bind_Ok, for_items_filter.
    fold exported. rewrite <- HT.
    rewrite (for_items_map_ok encode v_of d_of);
      [|intros t Hin; rewrite Forall_forall in Htrips; apply (Htrips _ Hin)].
    rewrite bind_Ok, assign_all_distinct.
    + rewrite <- map_app. unfold T'.
      change (("__fqn__", fqn_t) :: M) with ([("__fqn__", fqn_t)] ++ M).
      rewrite <- app_assoc. cbn [app]. fold L.
      now rewrite str_keys_text_entry.
    + apply string_keys_reflect.
    + rewrite <- map_app, map_fst_on_snd. exact HndL.
  - (* the document *)
    apply (@json_of_value_dict _ snd T' HtextT').
    unfold T'. apply Forall_map. exact HjL.
  - (* decoding *)
    rewrite (value_of_json_obj HtextS HndS), deserialise_dict.
    set (wv := fun dj : value * value * json => value_of_json (snd dj)).
    set (W := map (on_snd wv) (sort_by_key T')).
    assert (HW : forall n, dict_get key_eqb W (KStr n)
                           = option_map wv (dict_get String.eqb L n)).
    { intros n. unfold W, wv. rewrite (wire_get _ HtextT' HndT').
      unfold T'. now rewrite text_entry_get. }
    assert (classify (VDict W) = ObjectEnvelope) as ->.
    { rewrite classify_dict. unfold key_in, dict_mem.
      rewrite !HW, Gf, !Gn by reflexivity. cbn [option_map].
      unfold _is_enum_dict, key_in, dict_mem in Henum.
      rewrite !str_keys_get, <- HT, !dict_get_map_snd in Henum.
      destruct (dict_get String.eqb T "_value_"),
               (dict_get String.eqb T "_name_");
        cbn [option_map andb] in *; try reflexivity; discriminate. }
    unfold _dict_to_object. cbv zeta.
    rewrite with_key_dict_get, !HW, Gm, Gt.
    match goal with
    | |- bind ?X _ = _ =>
        assert (Hk1 : X = Ok (metadata_kwargs m class_attrs vars))
    end.
    { unfold metadata_kwargs. rewrite Hmsg, Hts.
      destruct msg_t as [tm|], ts_t as [tt|]; cbn [option_map].
      - unfold read_back. rewrite (proj2 (Hmsgj _ eq_refl)), bind_Ok.
        destruct (Htsj _ eq_refl) as (He & Hj & Hd).
        unfold wire_of, read_back. rewrite He, bind_Ok, Hj, bind_Ok.
        change (wv tm) with (value_of_json (j_of tm)).
        change (wv tt) with (value_of_json (j_of tt)).
        destruct (truthy (value_of_json (j_of tm))),
                 (truthy (value_of_json (j_of tt)));
          rewrite ?Hd; reflexivity.
      - unfold read_back. rewrite (proj2 (Hmsgj _ eq_refl)), bind_Ok.
        change (wv tm) with (value_of_json (j_of tm)).
        destruct (truthy (value_of_json (j_of tm))); reflexivity.
      - destruct (Htsj _ eq_refl) as (He & Hj & Hd).
        unfold wire_of, read_back. rewrite He, bind_Ok, Hj, bind_Ok.
        change (wv tt) with (value_of_json (j_of tt)).
        destruct (truthy (value_of_json (j_of tt))); rewrite ?Hd; reflexivity.
      - reflexivity. }
    rewrite Hk1, bind_Ok. unfold W.
    rewrite (for_fields_map_ok decode _ (fun t => decoded m (v_of t)) HtextS).
    + rewrite bind_Ok.
      assert (Permutation
                (flat_map (field_of (fun t => decoded m (v_of t)))
                   (sort_by_key T'))
                (map (on_snd (decoded m)) exported)) as Hfields.
      { rewrite (flat_map_perm _ Hperm). unfold T', L. cbn [map flat_map].
        unfold field_of at 1. cbn [fst text_entry app].
        change (is_dunder "__fqn__") with true. cbv iota. cbn [app].
        rewrite map_app, flat_map_app.
        rewrite marked_entries_no_field
          by (eapply Forall_impl; [|exact HdM]; now intros e [He _]).
        cbn [app].
        rewrite (field_of_text_entries _ HplainT), <- HT, on_snd_compose.
        reflexivity. }
      rewrite assign_all_distinct.
      * fold W. unfold getitem. rewrite HW, Gf. cbn [option_map].
        change (wv fqn_t) with (VStr fqn).
        rewrite bind_Ok, Hcls, bind_Ok. apply Hcall.
        now apply Permutation_app_head.
      * apply string_keys_reflect.
      * rewrite map_app. apply NoDup_app.
        -- unfold metadata_kwargs.
           destruct (getattr class_attrs vars "__msgid__") as [x|];
             [destruct (read_back x) as [w|]; [destruct (truthy w)|]|];
             (destruct (getattr class_attrs vars "__timestamp__") as [y|];
              [destruct (wire_of m y) as [w'|]; [destruct (truthy w')|]|]);
             simpl;
             repeat first [apply NoDup_nil | apply NoDup_cons];
             simpl; intuition discriminate.
        -- eapply Permutation_NoDup.
           ++ apply Permutation_map. symmetry. exact Hfields.
           ++ now rewrite map_fst_on_snd.
        -- intros a Ha Ha'.
           assert (is_dunder a = true) as Hda.
           { revert Ha. unfold metadata_kwargs.
             destruct (getattr class_attrs vars "__msgid__") as [x|];
               [destruct (read_back x) as [w|]; [destruct (truthy w)|]|];
               (destruct (getattr class_attrs vars "__timestamp__") as [y|];
                [destruct (wire_of m y) as [w'|]; [destruct (truthy w')|]|]);
               simpl; intros Ha;
               repeat (destruct Ha as [<-|Ha]; [reflexivity|]); destruct Ha. }
           apply (Permutation_in _ (Permutation_map fst Hfields)) in Ha'.
           rewrite map_fst_on_snd in Ha'.
           apply in_map_iff in Ha' as (kv & <- & Hin).
           apply filter_In in Hin as [_ Hk]. rewrite Hda in Hk. discriminate.
    + intros t Hin Hfield.
      apply (Permutation_in _ Hperm) in Hin.
      unfold T' in Hin. apply in_map_iff in Hin as (l & <- & Hin).
      unfold L in Hin. destruct Hin as [<-|Hin]; [exfalso; now apply Hfield|].
      apply in_app_or in Hin as [Hin|Hin].
      * exfalso. apply Hfield. rewrite Forall_forall in HdM.
        destruct (HdM _ Hin) as [Hd _].
        unfold field_of, text_entry. cbn [fst snd]. now rewrite Hd.
      * rewrite Forall_forall in Htrips.
        exact (proj2 (proj2 (Htrips _ Hin))).
Qed.

Lemma wire_safe_trips (v : value) : safe v -> exists d j, trips v d j.
Proof.
  induction v using value_nested_ind; intros Hs;
    match goal with
    | |- exists d j, trips ?v d j =>
        destruct (_is_handled_by_codec m v) eqn:Hh;
        [now apply codec_trips|]
    end;
    inversion Hs; subst; try congruence.
  - exists VNone, JNull. unfold trips. simpl. rewrite Hh. auto.
  - exists (VBool b), (JBool b). unfold trips. simpl. rewrite Hh. auto.
  - exists (VInt n), (JInt n). unfold trips. simpl. rewrite Hh. auto.
  - exists (VStr s), (JStr s). unfold trips. simpl. rewrite Hh. auto.
  - (* list *)
    destruct (collect_items H) as (T & <- & HT); [assumption|].
    rewrite Forall_forall in HT.
    exists (VList (map d_of T)), (JArr (map j_of T)). split; [|split].
    + cbn [serialise_data]. rewrite Hh.
      rewrite (mapM_map_ok encode v_of d_of); [reflexivity|].
      intros t Hin. apply (HT _ Hin).
    + cbn [json_of_value].
      rewrite (mapM_map_ok json_of_value d_of j_of); [reflexivity|].
      intros t Hin. apply (HT _ Hin).
    + cbn [value_of_json deserialise_data]. rewrite map_map.
      rewrite (mapM_map_ok decode (fun t => value_of_json (j_of t))
                 (fun t => decoded m (v_of t))).
      * cbn [decoded]. rewrite Hh, map_map. reflexivity.
      * intros t Hin. apply (HT _ Hin).
  - (* dict *)
    destruct (collect_keyed H) as (T & <- & HT); [assumption|].
    destruct (@mapping_trips T) as (d & j & Hd & Hj & Hdec); trivial.
    exists d, j. split; [|split]; trivial.
    + cbn [serialise_data]. rewrite Hh. exact Hd.
    + cbn [decoded]. rewrite Hh. exact Hdec.
  - (* immutable mapping *)
    destruct (collect_keyed H) as (T & <- & HT); [assumption|].
    destruct (@mapping_trips T) as (d & j & Hd & Hj & Hdec); trivial.
    exists d, j. split; [|split]; trivial.
    + cbn [serialise_data]. rewrite Hh. exact Hd.
    + cbn [decoded]. rewrite Hh. exact Hdec.
  - (* instance *)
    match goal with
    | Hv : forall version, getattr _ _ "__version__" = Some version -> _,
      Hm : forall msgid, getattr _ _ "__msgid__" = Some msgid -> _,
      Ht : forall timestamp, getattr _ _ "__timestamp__" = Some timestamp -> _
      |- _ => rename Hv into Hver; rename Hm into Hmsg; rename Ht into Hts
    end.
    assert (Hjson : forall name,
               (forall x, getattr class_attrs vars name = Some x ->
                          is_ok (json_of_value x) = true) ->
               exists t : option (value * value * json),
                 getattr class_attrs vars name = option_map v_of t
                 /\ forall t', t = Some t' ->
                      d_of t' = v_of t'
                      /\ json_of_value (v_of t') = Ok (j_of t')).
    { intros name Hx. destruct (getattr class_attrs vars name) as [x|].
      - specialize (Hx x eq_refl).
        destruct (json_of_value x) as [jx|] eqn:Ej; [|discriminate].
        exists (Some (x, x, jx)). split; [reflexivity|].
        intros t' [= <-]. now split.
      - exists None. split; [reflexivity|discriminate]. }
    destruct (Hjson _ Hver) as (ver_t & Ever & Hverj).
    destruct (Hjson _ Hmsg) as (msg_t & Emsg & Hmsgj).
    assert (exists ts_t : option (value * value * json),
               getattr class_attrs vars "__timestamp__" = option_map v_of ts_t
               /\ forall t, ts_t = Some t -> trip_of t)
      as (ts_t & Ets & Htsj).
    { destruct (getattr class_attrs vars "__timestamp__") as [ts|] eqn:E.
      - assert (exists d j, trips ts d j) as (d & j & Ht).
        { destruct (getattr_in _ _ _ E) as [Hin|Hin];
            apply in_map_iff in Hin as (kv & <- & Hin);
            rewrite Forall_forall in H, H1; [apply (H1 _ Hin)|apply (H _ Hin)];
            now apply Hts. }
        exists (Some (ts, d, j)). split; [reflexivity|]. now intros t [= <-].
      - exists None. split; [reflexivity|discriminate]. }
    match goal with
    | Hsafe : Forall (fun kv => safe (snd kv)) ?exported |- _ =>
        destruct (@collect_keyed string exported) as (T & HTeq & HT);
        [|exact Hsafe|]
    end.
    + rewrite Forall_forall in *. intros kv Hin.
      apply filter_In in Hin as [Hin _].
      destruct json_data as [d|]; [|now apply H1].
      specialize (H0 d eq_refl). rewrite Forall_forall in H0. now apply H0.
    + eapply (@object_trips cls_module cls_name class_attrs json_data vars T
                ver_t msg_t ts_t); eauto.
Qed.

(** C1 (as amended).  Let [v] be built from None, booleans, integers, text,
    lists, mappings whose keys are distinct texts and that do not have the
    shape of an envelope, values taken by a codec, and instances.  A codec
    that takes a value writes for it a codec envelope [json.dumps] accepts,
    under the name of a registered codec that rebuilds the value from the
    parameters as [json.loads] returns them.  An instance has a version and a
    message identifier, if any, that [json.dumps] accepts, a timestamp, if
    any, and exported fields in the same domain, the names of the fields
    distinct and not both [_name_] and [_value_]; its class resolves to a
    public name and back to a class whose constructor rebuilds the instance
    from the named arguments of the decoder: the message identifier and the
    timestamp, where the text holds a true value for them, and the exported
    fields.  Then [to_json] returns a text and [from_json] of that text
    returns [decoded m v]: [v] with every mapping replaced by an immutable
    mapping. *)
Theorem round_trip (v : value) :
  wire_safe import_module m v ->
  exists text,
    to_json m v = Ok text
    /\ from_json import_module m text = Ok (decoded m v).
Proof.
  intros Hs. destruct (wire_safe_trips Hs) as (d & j & He & Hj & Hd).
  exists (print j). split.
  - unfold to_json, json_dumps. now rewrite He, bind_Ok, Hj.
  - unfold from_json, json_loads. now rewrite parse_print, !bind_Ok.
Qed.
End RoundTrip.

Lemma datetime_inverts (import_module : string -> result (string -> option pyclass))
      (m : Marshall) (t : Z) :
  first_codec (_codecs m) (VDatetime t) = Some datetime_codec ->
  dict_get String.eqb (_codecs m) "codecs.Datetime" = Some datetime_codec ->
  codec_inverts m (VDatetime t).
Proof.
  intros Hf Hr.
  exists datetime_codec,
         [(KStr "__codec__", VStr "codecs.Datetime");
          (KStr "params", VDict [(KStr "timestamp", VInt t)])],
         "codecs.Datetime", (VDict [(KStr "timestamp", VInt t)]),
         (VDict [(KStr "timestamp", VInt t)]), datetime_codec.
  split; [exact Hf|]. split; [reflexivity|].
  split; [repeat constructor|].
  split; [constructor; [intros [H|[]]; discriminate|];
          constructor; [intros []|constructor]|].
  split; [reflexivity|].
  split; [repeat constructor|].
  split; [reflexivity|]. split; [reflexivity|].
  split; [reflexivity|]. split; [exact Hr|reflexivity].
Qed.

Lemma order_wire_safe : wire_safe example_modules example_marshall order.
Proof.
  apply safe_dict; [reflexivity| |].
  - repeat split; repeat constructor; simpl; intuition discriminate.
  - constructor; [|constructor; [|constructor]]; cbn [snd].
    + apply safe_list; [reflexivity|]. constructor; [|constructor].
      apply safe_object; try reflexivity; try (intros x [=]).
      * simpl. constructor; [simpl; tauto|constructor].
      * simpl. constructor; [|constructor]. apply safe_str. reflexivity.
      * exists "shop.Tag", tag_class. split; [reflexivity|].
        split; [reflexivity|].
        intros kwargs Hp. apply Permutation_sym in Hp.
        apply Permutation_length_1_inv in Hp. subst kwargs. reflexivity.
    + apply safe_codec; [reflexivity|].
      now apply (datetime_inverts example_modules).
Qed.

Lemma forallb_perm {A} (p : A -> bool) (l l' : list A) :
  Permutation l l' -> forallb p l = forallb p l'.
Proof.
  induction 1 as [|x l l' _ IH|x y l|l l' l'' _ IH1 _ IH2]; simpl.
  - reflexivity.
  - now rewrite IH.
  - destruct (p x), (p y); reflexivity.
  - congruence.
Qed.

Lemma forallb_eq {A} (f g : A -> bool) (l : list A) :
  (forall x, f x = g x) -> forallb f l = forallb g l.
Proof. intros E. induction l as [|x l IH]; simpl; [reflexivity|now rewrite E, IH]. Qed.

Lemma dict_get_string_perm {V} (l l' : list (string * V)) (k : string) :
  NoDup (map fst l) -> Permutation l' l ->
  dict_get String.eqb l' k = dict_get String.eqb l k.
Proof.
  intros Hnd Hp.
  assert (Hnd' : NoDup (map fst l')).
  { eapply Permutation_NoDup; [|exact Hnd].
    apply Permutation_map. now symmetry. }
  destruct (dict_get String.eqb l k) as [v|] eqn:E.
  - apply dict_get_some_in in E. apply dict_get_of_in; trivial.
    now apply (Permutation_in _ (Permutation_sym Hp)).
  - destruct (dict_get String.eqb l' k) as [v|] eqn:E'; [|reflexivity].
    apply dict_get_some_in in E'. apply (Permutation_in _ Hp) in E'.
    rewrite (dict_get_of_in _ _ _ Hnd E') in E. discriminate.
Qed.

(** The constructor does not look at the order of its named arguments. *)
Lemma init_with_perm (class_attrs : list (string * value))
      (cls_module cls_name : string) (params : list string)
      (kwargs kwargs' : list (string * value)) :
  NoDup (map fst kwargs) -> Permutation kwargs' kwargs ->
  init_with class_attrs cls_module cls_name params kwargs'
  = init_with class_attrs cls_module cls_name params kwargs.
Proof.
  intros Hnd Hp. unfold init_with.
  rewrite (forallb_perm _ Hp).
  rewrite (forallb_eq (dict_mem String.eqb kwargs') (dict_mem String.eqb kwargs))
    by (intros p; unfold dict_mem; now rewrite (dict_get_string_perm p Hnd Hp)).
  destruct (_ && _); [|reflexivity].
  do 2 f_equal. apply map_ext. intros p.
  now rewrite (dict_get_string_perm p Hnd Hp).
Qed.

Lemma placed_wire_safe :
  wire_safe event_modules event_marshall (placed "m-1" 7 "x").
Proof.
  apply safe_object; try reflexivity.
  - intros version [= <-]. reflexivity.
  - intros msgid [= <-]. reflexivity.
  - intros timestamp [= <-]. apply safe_codec; [reflexivity|].
    now apply (datetime_inverts event_modules).
  - simpl. constructor; [intros []|constructor].
  - simpl. constructor; [|constructor]. apply safe_str. reflexivity.
  - exists "events.Placed", placed_class. split; [reflexivity|].
    split; [reflexivity|].
    intros kwargs' Hp.
    change (cls_call placed_class kwargs')
      with (init_with placed_attrs "app.events" "Placed"
              ["__msgid__"; "__timestamp__"; "sku"] kwargs').
    rewrite (fun Hn => @init_with_perm placed_attrs "app.events" "Placed"
                         ["__msgid__"; "__timestamp__"; "sku"] _ kwargs' Hn Hp);
      [reflexivity|].
    vm_compute. repeat constructor; simpl; intuition discriminate.
Qed.

Lemma round_trip_witness :
  (exists text,
      to_json example_marshall order = Ok text
      /\ from_json example_modules example_marshall text
         = Ok (VMap [(KStr "at", VDatetime 1600000000);
                     (KStr "tags", VList [tag "new"])]))
  /\ exists text,
       to_json event_marshall (placed "m-1" 7 "x") = Ok text
       /\ from_json event_modules event_marshall text
          = Ok (placed "m-1" 7 "x").
Proof.
  split.
  - exact (round_trip order_wire_safe).
  - exact (round_trip placed_wire_safe).
Defined.

(** C1, as stated, fails.  A mapping with an integer key comes back with a
    text key, under which the original key finds nothing; a tuple comes back
    as a list; a mapping that holds the key [__codec__] is written but not
    read back. *)
Lemma round_trip_changes_value :
  (exists text,
      to_json plain_marshall (VDict [(KInt 1, VStr "a")]) = Ok text
      /\ from_json example_modules plain_marshall text
         = Ok (VMap [(KStr "1", VStr "a")]))
  /\ dict_get key_eqb [(KInt 1, VStr "a")] (KInt 1) = Some (VStr "a")
  /\ dict_get key_eqb [(KStr "1", VStr "a")] (KInt 1) = None
  /\ (exists text,
         to_json plain_marshall (VTuple [VInt 1; VInt 2]) = Ok text
         /\ from_json example_modules plain_marshall text
            = Ok (VList [VInt 1; VInt 2]))
  /\ (exists text,
         to_json plain_marshall (VDict [(KStr "__codec__", VStr "x")]) = Ok text
         /\ from_json example_modules plain_marshall text
            = Err (KeyError (VStr "x"))).
Proof.
  split; [|split; [|split; [|split]]]; try reflexivity;
    eexists; (split; [reflexivity|vm_compute; reflexivity]).
Qed.

(** ** The order of keys *)

Lemma string_leb_iff (s t : string) :
  String.leb s t = true <-> OrderedTypeEx.String_as_OT.lt s t \/ s = t.
Proof.
  unfold String.leb.
  pose proof (OrderedTypeEx.String_as_OT.cmp_lt s t) as Hlt.
  pose proof (OrderedTypeEx.String_as_OT.cmp_eq s t) as Heq.
  unfold OrderedTypeEx.String_as_OT.cmp in *.
  destruct (String.compare s t); split; intros H; try discriminate; auto.
  - right. now apply Heq.
  - left. now apply Hlt.
  - destruct H as [H|H]; [apply Hlt in H|apply Heq in H]; discriminate.
Qed.

Lemma string_leb_trans (s t u : string) :
  String.leb s t = true -> String.leb t u = true -> String.leb s u = true.
Proof.
  rewrite !string_leb_iff. intros [H1| ->] [H2| ->]; auto.
  left. eapply OrderedTypeEx.String_as_OT.lt_trans; eauto.
Qed.

Lemma key_le_trans (a b c : key) :
  key_le a b = true -> key_le b c = true -> key_le a c = true.
Proof.
  unfold key_le, key_leb.
  destruct a as [|[]|x|s], b as [|[]|y|t], c as [|[]|z|u]; cbn [key_num];
    intros H1 H2; try discriminate; try reflexivity;
    try (apply Z.leb_le; apply Z.leb_le in H1, H2; lia).
  eapply string_leb_trans; eauto.
Qed.

Lemma key_le_antisym (a b : key) :
  key_le a b = true -> key_le b a = true -> key_eqb a b = true.
Proof.
  unfold key_le, key_leb, key_eqb.
  destruct a as [|[]|x|s], b as [|[]|y|t]; cbn [key_num];
    intros H1 H2; try discriminate; try reflexivity;
    try (apply Z.eqb_eq; apply Z.leb_le in H1, H2; lia).
  apply String.eqb_eq. now apply String.leb_antisym.
Qed.

Lemma key_le_total (a b : key) :
  (is_text_key a = true /\ is_text_key b = true)
  \/ (is_num_key a = true /\ is_num_key b = true) ->
  key_le a b = true \/ key_le b a = true.
Proof.
  unfold key_le, key_leb, is_num_key.
  destruct a as [|[]|x|s], b as [|[]|y|t]; cbn [key_num is_text_key];
    intros [[H1 H2]|[H1 H2]]; try discriminate;
    try (rewrite !Z.leb_le; lia).
  apply String.leb_total.
Qed.

Lemma same_kind_total (ks : list key) (a b : key) :
  same_kind ks -> In a ks -> In b ks ->
  key_le a b = true \/ key_le b a = true.
Proof.
  intros [H|H] Ha Hb; rewrite Forall_forall in H; apply key_le_total; auto.
Qed.

(** Inserting two items with keys in strict order, in either order. *)
Lemma insert_sorted_comm {A} (x y : key * A) (l : list (key * A)) :
  key_le (fst x) (fst y) = true -> key_le (fst y) (fst x) = false ->
  insert_sorted x (insert_sorted y l) = insert_sorted y (insert_sorted x l).
Proof.
  intros Hxy Hyx. induction l as [|e l IH]; simpl.
  - now rewrite Hxy, Hyx.
  - destruct (key_le (fst x) (fst e)) eqn:Hxe;
      destruct (key_le (fst y) (fst e)) eqn:Hye; simpl;
      rewrite ?Hxy, ?Hyx, ?Hxe, ?Hye; try reflexivity.
    + rewrite (@key_le_trans _ _ _ Hxy Hye) in Hxe. discriminate.
    + now rewrite IH.
Qed.

Lemma key_eqb_sym (a b : key) : key_eqb a b = key_eqb b a.
Proof.
  unfold key_eqb.
  destruct a as [|[]|x|s], b as [|[]|y|t]; cbn [key_num]; try reflexivity;
    auto using Z.eqb_sym, String.eqb_sym.
Qed.

Lemma distinct_keys_perm (ks ks' : list key) :
  Permutation ks ks' -> distinct_keys ks -> distinct_keys ks'.
Proof.
  unfold distinct_keys.
  induction 1 as [|x l l' Hp IH|x y l|l l' l'' _ IH1 _ IH2]; intros H; auto.
  - inversion H as [|? ? Hx Hl]; subst. constructor; [|auto].
    rewrite Forall_forall in *. intros b Hb. apply Hx.
    now apply (Permutation_in _ (Permutation_sym Hp)).
  - inversion H as [|? ? Hy Hl]; subst.
    inversion Hl as [|? ? Hx Hl']; subst.
    inversion Hy as [|? ? Hyx Hyl]; subst.
    constructor; [constructor; [now rewrite key_eqb_sym|exact Hx]|].
    constructor; assumption.
Qed.

Lemma sort_by_key_unique {A} (l l' : list (key * A)) :
  Permutation l l' ->
  same_kind (map fst l) -> distinct_keys (map fst l) ->
  sort_by_key l = sort_by_key l'.
Proof.
  unfold sort_by_key.
  induction 1 as [|x l l' Hp IH|x y l|l l' l'' Hp1 IH1 Hp2 IH2];
    intros Hk Hd.
  - reflexivity.
  - cbn [fold_right]. rewrite IH; [reflexivity| |].
    + destruct Hk as [Hk|Hk]; [left|right]; now inversion Hk.
    + now inversion Hd.
  - cbn [fold_right].
    assert (key_eqb (fst y) (fst x) = false) as Hne.
    { inversion Hd as [|? ? Hy _]; subst. now inversion Hy. }
    destruct (same_kind_total (fst x) (fst y) Hk) as [H|H];
      try (simpl; tauto).
    + symmetry. apply insert_sorted_comm; [exact H|].
      destruct (key_le (fst y) (fst x)) eqn:E; [|reflexivity].
      rewrite (@key_le_antisym _ _ E H) in Hne. discriminate.
    + apply insert_sorted_comm; [exact H|].
      destruct (key_le (fst x) (fst y)) eqn:E; [|reflexivity].
      rewrite (@key_le_antisym _ _ H E) in Hne. discriminate.
  - rewrite IH1, IH2; trivial.
    + destruct Hk as [Hk|Hk]; [left|right];
        rewrite Forall_forall in *; intros k Hin; apply Hk;
        apply (Permutation_in _ (Permutation_sym (Permutation_map fst Hp1)));
        exact Hin.
    + eapply distinct_keys_perm; [|exact Hd]. now apply Permutation_map.
Qed.

Lemma insert_sorted_in_order {A} (x : key * A) (l : list (key * A)) :
  same_kind (map fst (x :: l)) ->
  in_key_order l -> in_key_order (insert_sorted x l).
Proof.
  unfold in_key_order. intros Hk Hs.
  induction Hs as [|y l Hl IH Hy]; simpl.
  - repeat constructor.
  - destruct (key_le (fst x) (fst y)) eqn:E.
    + constructor; [now constructor|]. constructor. exact E.
    + assert (key_le (fst y) (fst x) = true) as Hyx.
      { destruct (same_kind_total (fst y) (fst x) Hk) as [H|H];
          simpl; auto. congruence. }
      constructor.
      * apply IH. destruct Hk as [Hk|Hk]; [left|right];
          inversion Hk as [|? ? ? Hk']; subst; constructor; trivial;
          now inversion Hk'.
      * destruct l as [|z l]; simpl.
        -- constructor. exact Hyx.
        -- destruct (key_le (fst x) (fst z)); constructor; trivial.
           now inversion Hy.
Qed.

Lemma sort_by_key_in_order {A} (l : list (key * A)) :
  same_kind (map fst l) -> in_key_order (sort_by_key l).
Proof.
  unfold sort_by_key. induction l as [|x l IH]; intros Hk.
  - constructor.
  - cbn [fold_right]. apply insert_sorted_in_order.
    + destruct Hk as [Hk|Hk]; [left|right]; rewrite Forall_forall in *;
        intros k Hin; apply Hk; simpl in *; destruct Hin as [<-|Hin]; auto;
        right;
        apply (Permutation_in _ (Permutation_map fst (sort_by_key_perm l)));
        exact Hin.
    + apply IH. destruct Hk as [Hk|Hk]; [left|right]; now inversion Hk.
Qed.

(** ** One text for every order of the entries *)

Lemma forallb_on_map {A B} (p : B -> bool) (f : A -> B) (l : list A) :
  forallb p (map f l) = forallb (fun x => p (f x)) l.
Proof. induction l as [|x l IH]; simpl; [reflexivity|now rewrite IH]. Qed.

Lemma sorted_items_perm {A} (l S : list (key * A)) :
  sorted_items l = Ok S -> Permutation S l.
Proof.
  unfold sorted_items. destruct l as [|x [|y l]].
  - intros [= <-]. reflexivity.
  - intros [= <-]. reflexivity.
  - destruct (_ || _); [|discriminate]. intros [= <-].
    exact (sort_by_key_perm (x :: y :: l)).
Qed.

Lemma sorted_items_map {A B} (f : A -> B) (l : list (key * A)) :
  sorted_items (map (on_snd f) l)
  = result_map (map (on_snd f)) (sorted_items l).
Proof.
  unfold sorted_items. destruct l as [|x [|y l]]; [reflexivity|reflexivity|].
  change (map (on_snd f) (x :: y :: l))
    with (on_snd f x :: on_snd f y :: map (on_snd f) l).
  change (on_snd f x :: on_snd f y :: map (on_snd f) l)
    with (map (on_snd f) (x :: y :: l)).
  rewrite !forallb_on_map. cbn [on_snd fst].
  destruct (_ || _); [|reflexivity].
  cbn [result_map]. now rewrite sort_by_key_map.
Qed.

Lemma same_kind_forallb {A} (l : list (key * A)) :
  forallb (fun kv => is_text_key (fst kv)) l
  || forallb (fun kv => is_num_key (fst kv)) l = true ->
  same_kind (map fst l).
Proof.
  intros H. apply orb_true_iff in H as [H|H]; [left|right];
    apply Forall_map, Forall_forall; intros kv Hin;
    rewrite forallb_forall in H; now apply H.
Qed.

Lemma sorted_items_unique {A} (l l' : list (key * A)) :
  Permutation l l' -> distinct_keys (map fst l) ->
  sorted_items l = sorted_items l'.
Proof.
  intros Hp Hd. pose proof (Permutation_length Hp) as Hlen.
  unfold sorted_items.
  destruct l as [|x [|y l]].
  - apply Permutation_nil in Hp. now subst.
  - apply Permutation_length_1_inv in Hp. now subst.
  - destruct l' as [|x' [|y' l']]; try discriminate.
    rewrite <- (forallb_perm _ Hp), <- (forallb_perm _ Hp).
    destruct (_ || _) eqn:E; [|reflexivity].
    f_equal. apply sort_by_key_unique; trivial.
    now apply same_kind_forallb.
Qed.

Lemma ok_items_exist {K A B} (f : A -> result B) (kvs : list (K * A)) :
  (forall kv, In kv kvs -> exists b, f (snd kv) = Ok b) ->
  exists items, Forall2 (item_of f) kvs items.
Proof.
  induction kvs as [|[k a] kvs IH]; intros H.
  - exists []. constructor.
  - destruct (H (k, a) (or_introl eq_refl)) as [b Hb].
    destruct IH as [items Hitems]; [intros kv Hin; apply H; now right|].
    exists ((k, b) :: items). constructor; [now split|exact Hitems].
Qed.

Lemma items_as_results {K A B} (f : A -> result B) (kvs : list (K * A))
      (items : list (K * B)) :
  Forall2 (item_of f) kvs items ->
  map (fun kv => (fst kv, f (snd kv))) kvs = map (on_snd Ok) items.
Proof.
  induction 1 as [|[k a] [k' b] kvs items [Hk Hb] _ IH]; [reflexivity|].
  cbn [fst snd] in *. subst k'. cbn [map]. rewrite IH. unfold on_snd at 1.
  cbn [fst snd]. now rewrite Hb.
Qed.

Lemma items_keys {K A B} (f : A -> result B) (kvs : list (K * A))
      (items : list (K * B)) :
  Forall2 (item_of f) kvs items -> map fst items = map fst kvs.
Proof.
  induction 1 as [|kv item kvs items [Hk _] _ IH]; [reflexivity|].
  cbn [map]. now rewrite IH, Hk.
Qed.

Lemma mapM_all_ok {A B} (f : A -> result B) (l : list A) (r : list B) :
  mapM f l = Ok r -> forall x, In x l -> exists b, f x = Ok b.
Proof.
  intros H. apply mapM_ok in H.
  induction H as [|x b l r Hx _ IH]; intros y []; subst; eauto.
Qed.

Lemma json_of_value_dict_fwd (kvs : list (key * value)) (KJ S : list (key * json)) :
  Forall2 (item_of json_of_value) kvs KJ ->
  sorted_items KJ = Ok S ->
  json_of_value (VDict kvs) = Ok (JObj (map json_member S)).
Proof.
  intros HKJ HS. rewrite json_of_value_dict_eq, (items_as_results HKJ).
  rewrite sorted_items_map, HS. cbn [result_map]. rewrite bind_Ok.
  rewrite (mapM_map_ok _ _ json_member); [reflexivity|].
  intros kj _. reflexivity.
Qed.

Lemma json_of_value_dict_inv (kvs : list (key * value)) (j : json) :
  json_of_value (VDict kvs) = Ok j ->
  exists KJ S,
    Forall2 (item_of json_of_value) kvs KJ
    /\ sorted_items KJ = Ok S
    /\ j = JObj (map json_member S).
Proof.
  rewrite json_of_value_dict_eq. intros H.
  apply bind_ok in H as (SE & HSE & H).
  apply bind_ok in H as (members & Hm & [= <-]).
  destruct (@ok_items_exist _ _ _ json_of_value kvs) as [KJ HKJ].
  { intros kv Hin.
    assert (In (fst kv, json_of_value (snd kv)) SE) as Hin'.
    { apply (Permutation_in _ (Permutation_sym (sorted_items_perm _ HSE))).
      now apply (in_map (fun kv => (fst kv, json_of_value (snd kv)))). }
    destruct (mapM_all_ok _ _ Hm _ Hin') as [b Hb]. cbn [snd fst] in Hb.
    destruct (json_of_value (snd kv)); [eauto|discriminate]. }
  rewrite (items_as_results HKJ), sorted_items_map in HSE.
  destruct (sorted_items KJ) as [S|e] eqn:HS; [|discriminate].
  injection HSE as <-.
  exists KJ, S. repeat split; trivial.
  rewrite (mapM_map_ok _ _ json_member) in Hm by (intros; reflexivity).
  now injection Hm as <-.
Qed.

Lemma json_items_transport {K} (kvs mid : list (K * value))
      (KJ : list (K * json)) :
  Forall (fun kv => forall d' j,
            same_value (snd kv) d' -> well_formed (snd kv) ->
            json_of_value (snd kv) = Ok j -> json_of_value d' = Ok j) kvs ->
  Forall (fun kv => well_formed (snd kv)) kvs ->
  Forall2 (same_item same_value) kvs mid ->
  Forall2 (item_of json_of_value) kvs KJ ->
  Forall2 (item_of json_of_value) mid KJ.
Proof.
  intros HP Hwf Hsame. revert KJ.
  induction Hsame as [|kv kv' kvs mid [Hk Hv] _ IH]; intros KJ HKJ.
  - inversion HKJ. constructor.
  - inversion HKJ as [|? kj ? KJ' [Hkj Hj] HKJ']; subst.
    inversion HP; subst. inversion Hwf; subst.
    constructor; [|now apply IH].
    split; [congruence|]. eauto.
Qed.

Lemma json_list_transport (xs ys : list value) (js : list json) :
  Forall (fun x => forall d' j,
            same_value x d' -> well_formed x ->
            json_of_value x = Ok j -> json_of_value d' = Ok j) xs ->
  Forall well_formed xs ->
  Forall2 same_value xs ys ->
  mapM json_of_value xs = Ok js ->
  mapM json_of_value ys = Ok js.
Proof.
  intros HP Hwf Hsame H. apply mapM_ok in H. apply mapM_ok.
  revert js H.
  induction Hsame as [|x y xs ys Hxy _ IH]; intros js H.
  - inversion H. constructor.
  - inversion H as [|? j ? js' Hj Hjs]; subst.
    inversion HP; subst. inversion Hwf; subst.
    constructor; [eauto|now apply IH].
Qed.

(** Values that are the same up to the order of their entries are written as
    the same document. *)
Lemma json_of_value_same (d : value) :
  forall d' j,
    same_value d d' -> well_formed d ->
    json_of_value d = Ok j -> json_of_value d' = Ok j.
Proof.
  induction d using value_nested_ind; intros d' j Hsame Hwf Hj;
    inversion Hsame; subst; try exact Hj; try discriminate.
  - (* list *)
    cbn [json_of_value] in *. inversion Hwf; subst.
    apply bind_ok in Hj as (js & Hjs & [= <-]).
    assert (E : mapM json_of_value ys = Ok js)
      by (eapply json_list_transport; eassumption).
    now rewrite E.
  - (* tuple *)
    cbn [json_of_value] in *. inversion Hwf; subst.
    apply bind_ok in Hj as (js & Hjs & [= <-]).
    assert (E : mapM json_of_value ys = Ok js)
      by (eapply json_list_transport; eassumption).
    now rewrite E.
  - (* dict *)
    inversion Hwf as [| | | | | | |? Hd Hvals| | |]; subst.
    destruct (json_of_value_dict_inv _ Hj) as (KJ & S & HKJ & HS & ->).
    assert (Hmid : Forall2 (item_of json_of_value) mid KJ)
      by (eapply json_items_transport; eassumption).
    match goal with
    | Hp : Permutation mid _ |- _ =>
        destruct (Permutation_Forall2 Hp Hmid) as (KJ' & Hperm & HKJ')
    end.
    apply (json_of_value_dict_fwd HKJ').
    rewrite <- (sorted_items_unique Hperm); [exact HS|].
    now rewrite (items_keys HKJ).
Qed.

(** ** Encoding does not look at the order of entries *)

Lemma same_item_impl {K} (T T' : value -> value -> Prop)
      (l l' : list (K * value)) :
  (forall x x', T x x' -> T' x x') ->
  Forall2 (same_item T) l l' -> Forall2 (same_item T') l l'.
Proof.
  intros HT. induction 1 as [|kv kv' l l' [Hk Hx] _ IH]; constructor; trivial.
  split; auto.
Qed.

Lemma same_item_keys {K} (T : value -> value -> Prop)
      (l l' : list (K * value)) :
  Forall2 (same_item T) l l' -> map fst l = map fst l'.
Proof.
  induction 1 as [|kv kv' l l' [Hk _] _ IH]; [reflexivity|].
  cbn [map]. now rewrite Hk, IH.
Qed.

Lemma dict_get_same {K} (eqb : K -> K -> bool) (T : value -> value -> Prop)
      (l l' : list (K * value)) (k : K) :
  Forall2 (same_item T) l l' ->
  same_option T (dict_get eqb l k) (dict_get eqb l' k).
Proof.
  induction 1 as [|[a x] [a' x'] l l' [Hk Hx] _ IH]; simpl; [exact I|].
  simpl in Hk, Hx. subst a'. destruct (eqb k a); [exact Hx|exact IH].
Qed.

Lemma getattr_same (T : value -> value -> Prop)
      (ca ca' vars vars' : list (string * value)) (name : string) :
  Forall2 (same_item T) ca ca' -> Forall2 (same_item T) vars vars' ->
  same_option T (getattr ca vars name) (getattr ca' vars' name).
Proof.
  intros Hc Hv. unfold getattr.
  pose proof (@dict_get_same _ String.eqb T vars vars' name Hv) as H.
  destruct (dict_get String.eqb vars name), (dict_get String.eqb vars' name);
    simpl in H; try contradiction; [exact H|].
  exact (@dict_get_same _ String.eqb T ca ca' name Hc).
Qed.

Lemma dict_set_same {K} (eqb : K -> K -> bool) (T : value -> value -> Prop)
      (d d' : list (K * value)) (k : K) (v v' : value) :
  Forall2 (same_item T) d d' -> T v v' ->
  Forall2 (same_item T) (dict_set eqb d k v) (dict_set eqb d' k v').
Proof.
  intros Hd Hv.
  induction Hd as [|[a x] [a' x'] d d' [Hk Hx] Hd IH]; simpl.
  - constructor; [now split|constructor].
  - simpl in Hk, Hx. subst a'.
    destruct (eqb k a); constructor; trivial; now split.
Qed.

Lemma assign_all_same {K} (eqb : K -> K -> bool) (T : value -> value -> Prop)
      (items items' d d' : list (K * value)) :
  Forall2 (same_item T) items items' -> Forall2 (same_item T) d d' ->
  Forall2 (same_item T) (assign_all eqb d items) (assign_all eqb d' items').
Proof.
  intros Hi. revert d d'.
  induction Hi as [|[k v] [k' v'] items items' [Hk Hv] _ IH]; intros d d' Hd;
    [exact Hd|].
  simpl in Hk, Hv. subst k'.
  change (Forall2 (same_item T)
            (assign_all eqb (dict_set eqb d k v) items)
            (assign_all eqb (dict_set eqb d' k v') items')).
  apply IH. now apply dict_set_same.
Qed.

Lemma str_keys_same (T : value -> value -> Prop) (l l' : list (string * value)) :
  Forall2 (same_item T) l l' -> Forall2 (same_item T) (str_keys l) (str_keys l').
Proof.
  induction 1 as [|kv kv' l l' [Hk Hx] _ IH]; simpl; constructor; trivial.
  split; simpl; congruence.
Qed.

Lemma set_attr_same (T : value -> value -> Prop)
      (ca ca' vars vars' d d' : list (string * value)) (name : string) :
  Forall2 (same_item T) ca ca' -> Forall2 (same_item T) vars vars' ->
  Forall2 (same_item T) d d' ->
  Forall2 (same_item T)
    match getattr ca vars name with
    | Some v => dict_set String.eqb d name v
    | None => d
    end
    match getattr ca' vars' name with
    | Some v => dict_set String.eqb d' name v
    | None => d'
    end.
Proof.
  intros Hc Hv Hd. pose proof (getattr_same name Hc Hv) as H.
  destruct (getattr ca vars name), (getattr ca' vars' name); simpl in H;
    try contradiction; [|exact Hd].
  now apply dict_set_same.
Qed.

Lemma mapM_carried (f : value -> result value) (R Q : value -> value -> Prop)
      (xs xs' ds : list value) :
  Forall2 (carried f R Q) xs xs' -> mapM f xs = Ok ds ->
  exists ds', mapM f xs' = Ok ds' /\ Forall2 Q ds ds'.
Proof.
  intros H. revert ds.
  induction H as [|x x' xs xs' [_ Hx] _ IH]; intros ds Hds.
  - injection Hds as <-. exists []. split; [reflexivity|constructor].
  - simpl in Hds. apply bind_ok in Hds as (d & Hd & Hds).
    apply bind_ok in Hds as (r & Hr & [= <-]).
    destruct (Hx _ Hd) as (d' & Hd' & Hq).
    destruct (IH _ Hr) as (r' & Hr' & Hqs).
    exists (d' :: r'). split; [simpl; now rewrite Hd', Hr'|now constructor].
Qed.

Lemma for_items_carried {K} (f : value -> result value)
      (R Q : value -> value -> Prop) (keep : K -> bool)
      (l l' : list (K * value)) (items : list (K * value)) :
  Forall2 (same_item (carried f R Q)) l l' ->
  for_items keep f l = Ok items ->
  exists items',
    for_items keep f l' = Ok items' /\ Forall2 (same_item Q) items items'.
Proof.
  intros H. revert items.
  induction H as [|[k x] [k' x'] l l' [Hk [_ Hx]] _ IH]; intros items Hi.
  - injection Hi as <-. exists []. split; [reflexivity|constructor].
  - simpl in Hk, Hx. subst k'. rewrite for_items_cons in Hi.
    rewrite for_items_cons. destruct (keep k).
    + apply bind_ok in Hi as (d & Hd & Hi).
      apply bind_ok in Hi as (r & Hr & [= <-]).
      destruct (Hx _ Hd) as (d' & Hd' & Hq).
      destruct (IH _ Hr) as (r' & Hr' & Hqs).
      exists ((k, d') :: r'). split; [now rewrite Hd', Hr'|].
      constructor; [now split|exact Hqs].
    + exact (IH _ Hi).
Qed.

Lemma with_attr_carried (f : value -> result value)
      (R Q : value -> value -> Prop) (name : string)
      (l l' : list (string * value)) :
  Forall2 (same_item (carried f R Q)) l l' ->
  match with_attr f name l, with_attr f name l' with
  | Some r, Some r' => forall t, r = Ok t -> exists t', r' = Ok t' /\ Q t t'
  | None, None => True
  | _, _ => False
  end.
Proof.
  induction 1 as [|[k x] [k' x'] l l' [Hk [_ Hx]] _ IH]; simpl; [exact I|].
  simpl in Hk, Hx. subst k'. destruct (String.eqb name k); [exact Hx|exact IH].
Qed.

Lemma alike_all (ds ds' : list value) :
  Forall2 alike ds ds' -> Forall2 same_value ds ds' /\ Forall well_formed ds.
Proof.
  induction 1 as [|d d' ds ds' [Hs Hw] _ [IH1 IH2]]; split; constructor; trivial.
Qed.

Lemma alike_items {K} (l l' : list (K * value)) :
  Forall2 (same_item alike) l l' ->
  Forall2 (same_item same_value) l l'
  /\ Forall (fun kv => well_formed (snd kv)) l.
Proof.
  induction 1 as [|kv kv' l l' [Hk [Hs Hw]] _ [IH1 IH2]]; split;
    constructor; trivial.
  now split.
Qed.

(** *** Keys that stay apart *)

Lemma dict_set_nodup {V} (d : list (string * V)) (k : string) (v : V) :
  NoDup (map fst d) -> NoDup (map fst (dict_set String.eqb d k v)).
Proof.
  induction d as [|[k' v'] d IH]; intros Hnd; simpl.
  - constructor; [intros []|constructor].
  - inversion Hnd as [|? ? Hk' Hd]; subst.
    destruct (String.eqb k k') eqn:E; simpl; [now constructor|].
    constructor; [|now apply IH].
    intros Hin. destruct (dict_set_keys _ _ _ _ _ Hin) as [H|H]; [contradiction|].
    subst k'. now rewrite String.eqb_refl in E.
Qed.

Lemma assign_all_nodup {V} (items d : list (string * V)) :
  NoDup (map fst d) -> NoDup (map fst (assign_all String.eqb d items)).
Proof.
  revert d. induction items as [|[k v] items IH]; intros d Hd; [exact Hd|].
  change (NoDup (map fst (assign_all String.eqb (dict_set String.eqb d k v) items))).
  apply IH. now apply dict_set_nodup.
Qed.

Lemma set_attr_nodup (ca vars d : list (string * value)) (name : string) :
  NoDup (map fst d) ->
  NoDup (map fst match getattr ca vars name with
                 | Some v => dict_set String.eqb d name v
                 | None => d
                 end).
Proof.
  intros Hd. destruct (getattr ca vars name); [now apply dict_set_nodup|exact Hd].
Qed.

Lemma str_keys_distinct (l : list (string * value)) :
  NoDup (map fst l) -> distinct_keys (map fst (str_keys l)).
Proof.
  unfold distinct_keys, str_keys. rewrite map_map. cbn [fst].
  induction l as [|[k v] l IH]; intros Hnd; simpl; [constructor|].
  inversion Hnd as [|? ? Hk Hl]; subst. constructor; [|now apply IH].
  rewrite Forall_map, Forall_forall. intros [k' v'] Hin. simpl.
  apply String.eqb_neq. intros ->. apply Hk.
  apply in_map_iff. now exists (k', v').
Qed.

Lemma ordered_pairs_before {A} (R : A -> A -> Prop) (l1 l2 : list A) (x : A) :
  ForallOrdPairs R (l1 ++ x :: l2) -> Forall (fun a => R a x) l1.
Proof.
  induction l1 as [|a l1 IH]; intros H; [constructor|].
  inversion H as [|? ? Ha Hl]; subst. constructor; [|now apply IH].
  rewrite Forall_forall in Ha. apply Ha. apply in_elt.
Qed.

Lemma dict_set_apart {V} (d : list (key * V)) (k : key) (v : V) :
  Forall (fun k' => key_eqb k' k = false) (map fst d) ->
  dict_set key_eqb d k v = d ++ [(k, v)].
Proof.
  induction d as [|[k' v'] d IH]; intros H; [reflexivity|].
  simpl in *. inversion H as [|? ? Hk Hd]; subst.
  rewrite key_eqb_sym, Hk. now rewrite IH.
Qed.

Lemma assign_all_apart {V} (items d : list (key * V)) :
  distinct_keys (map fst (d ++ items)) ->
  assign_all key_eqb d items = d ++ items.
Proof.
  revert d. induction items as [|[k v] items IH]; intros d Hd.
  - simpl. now rewrite app_nil_r.
  - change (assign_all key_eqb (dict_set key_eqb d k v) items
            = d ++ (k, v) :: items).
    rewrite dict_set_apart.
    + rewrite IH; rewrite <- app_assoc; [reflexivity|exact Hd].
    + rewrite map_app in Hd. exact (ordered_pairs_before _ _ _ Hd).
Qed.

Lemma first_codec_same (cs : list (string * codec)) (v v' : value) :
  Forall (fun nc => codec_respects_order (snd nc)) cs ->
  same_value v v' -> first_codec cs v' = first_codec cs v.
Proof.
  induction 1 as [|[n c] cs [Hh _] _ IH]; intros Hs; simpl; [reflexivity|].
  simpl in Hh. rewrite <- (Hh _ _ Hs).
  destruct (handles c v); [reflexivity|now apply IH].
Qed.

Lemma handled_same (m : Marshall) (v v' : value) :
  Forall (fun nc => codec_respects_order (snd nc)) (_codecs m) ->
  same_value v v' -> _is_handled_by_codec m v' = _is_handled_by_codec m v.
Proof.
  unfold _is_handled_by_codec.
  induction 1 as [|[n c] cs [Hh _] _ IH]; intros Hs; simpl; [reflexivity|].
  simpl in Hh. now rewrite <- (Hh _ _ Hs), IH.
Qed.

Lemma first_codec_respects (cs : list (string * codec)) (v : value) (c : codec) :
  Forall (fun nc => codec_respects_order (snd nc)) cs ->
  first_codec cs v = Some c -> codec_respects_order c.
Proof.
  intros H Hc. destruct (first_codec_split _ _ Hc) as (b & n & a & -> & _).
  apply Forall_app in H as [_ H]. now inversion H.
Qed.

Lemma codec_dict_same (m : Marshall) (v v' d : value) :
  Forall (fun nc => codec_respects_order (snd nc)) (_codecs m) ->
  alike v v' -> _object_to_codec_dict m v = Ok d ->
  exists d', _object_to_codec_dict m v' = Ok d' /\ alike d d'.
Proof.
  intros Hm [Hs Hw]. unfold _object_to_codec_dict.
  rewrite (first_codec_same Hm Hs).
  destruct (first_codec (_codecs m) v) as [c|] eqn:E.
  - destruct (first_codec_respects _ Hm E) as (_ & Hser & Hwf).
    intros Hd. destruct (Hser _ _ _ Hs Hd) as (d' & Hd' & Hdd).
    exists d'. repeat split; eauto.
  - intros [= <-]. exists VNone. repeat split; constructor.
Qed.

Lemma timestamp_same (f : value -> result value)
      (ca ca' vars vars' d2 d2' d3 : list (string * value)) :
  Forall2 (same_item (carried f alike alike)) ca ca' ->
  Forall2 (same_item (carried f alike alike)) vars vars' ->
  Forall2 (same_item alike) d2 d2' ->
  match with_attr f "__timestamp__" vars with
  | Some t' => t <- t' ;; Ok (dict_set String.eqb d2 "__timestamp__" t)
  | None =>
      match with_attr f "__timestamp__" ca with
      | Some t' => t <- t' ;; Ok (dict_set String.eqb d2 "__timestamp__" t)
      | None => Ok d2
      end
  end = Ok d3 ->
  exists d3',
    match with_attr f "__timestamp__" vars' with
    | Some t' => t <- t' ;; Ok (dict_set String.eqb d2' "__timestamp__" t)
    | None =>
        match with_attr f "__timestamp__" ca' with
        | Some t' => t <- t' ;; Ok (dict_set String.eqb d2' "__timestamp__" t)
        | None => Ok d2'
        end
    end = Ok d3'
    /\ Forall2 (same_item alike) d3 d3'.
Proof.
  intros Hca Hvars Hd.
  pose proof (with_attr_carried "__timestamp__" Hvars) as Hv.
  pose proof (with_attr_carried "__timestamp__" Hca) as Hc.
  destruct (with_attr f "__timestamp__" vars) as [r|],
           (with_attr f "__timestamp__" vars') as [r'|]; try contradiction.
  - intros H. apply bind_ok in H as (t & Ht & [= <-]).
    destruct (Hv _ Ht) as (t' & -> & Htt).
    eexists. split; [reflexivity|]. now apply dict_set_same.
  - destruct (with_attr f "__timestamp__" ca) as [r|],
             (with_attr f "__timestamp__" ca') as [r'|]; try contradiction.
    + intros H. apply bind_ok in H as (t & Ht & [= <-]).
      destruct (Hc _ Ht) as (t' & -> & Htt).
      eexists. split; [reflexivity|]. now apply dict_set_same.
    + intros [= <-]. eauto.
Qed.

Lemma timestamp_nodup (f : value -> result value)
      (ca vars d2 d3 : list (string * value)) :
  NoDup (map fst d2) ->
  match with_attr f "__timestamp__" vars with
  | Some t' => t <- t' ;; Ok (dict_set String.eqb d2 "__timestamp__" t)
  | None =>
      match with_attr f "__timestamp__" ca with
      | Some t' => t <- t' ;; Ok (dict_set String.eqb d2 "__timestamp__" t)
      | None => Ok d2
      end
  end = Ok d3 ->
  NoDup (map fst d3).
Proof.
  intros Hd.
  destruct (with_attr f "__timestamp__" vars) as [r|].
  - intros H. apply bind_ok in H as (t & Ht & [= <-]). now apply dict_set_nodup.
  - destruct (with_attr f "__timestamp__" ca) as [r|].
    + intros H. apply bind_ok in H as (t & Ht & [= <-]).
      now apply dict_set_nodup.
    + now intros [= <-].
Qed.

Lemma object_to_dict_same (f : value -> result value) (r : FqnResolver)
      (cls_module cls_name : string)
      (ca ca' : list (string * value))
      (jd jd' : option (list (string * value)))
      (vars vars' : list (string * value)) (d : value) :
  Forall2 (same_item (carried f alike alike)) ca ca' ->
  Forall2 (same_item (carried f alike alike)) vars vars' ->
  Forall2 (same_item (carried f alike alike))
    match jd with Some x => x | None => vars end
    match jd' with Some x => x | None => vars' end ->
  _object_to_dict f r cls_module cls_name ca jd vars = Ok d ->
  exists d',
    _object_to_dict f r cls_module cls_name ca' jd' vars' = Ok d'
    /\ alike d d'.
Proof.
  intros Hca Hvars Hfields. unfold _object_to_dict. intros H.
  apply bind_ok in H as (fqn & Hfqn & H). rewrite Hfqn, bind_Ok.
  cbv zeta in H. cbv zeta.
  apply bind_ok in H as (d3 & H3 & H).
  apply bind_ok in H as (fields & Hf & [= <-]).
  assert (HcaA : Forall2 (same_item alike) ca ca')
    by (apply (same_item_impl (T := carried f alike alike)); [now intros ? ? []|trivial]).
  assert (HvarsA : Forall2 (same_item alike) vars vars')
    by (apply (same_item_impl (T := carried f alike alike)); [now intros ? ? []|trivial]).
  assert (H0 : Forall2 (same_item alike)
                 [("__fqn__", VStr fqn)] [("__fqn__", VStr fqn)])
    by (repeat constructor).
  pose proof (set_attr_same "__msgid__" HcaA HvarsA
                (set_attr_same "__version__" HcaA HvarsA H0)) as H2.
  destruct (timestamp_same Hca Hvars H2 H3) as (d3' & H3' & Hd3).
  destruct (for_items_carried _ Hfields Hf) as (fields' & Hf' & Hff).
  rewrite H3', bind_Ok, Hf', bind_Ok.
  eexists. split; [reflexivity|].
  pose proof (assign_all_same String.eqb Hff Hd3) as HA.
  apply str_keys_same in HA. apply alike_items in HA as [HA1 HA2].
  split.
  - econstructor; [exact HA1|reflexivity].
  - constructor; [|exact HA2].
    apply str_keys_distinct, assign_all_nodup.
    apply (fun Hn => @timestamp_nodup f ca vars _ d3 Hn H3).
    apply set_attr_nodup, set_attr_nodup. simpl. constructor; [intros []|constructor].
Qed.

Lemma carried_all (f : value -> result value) (xs ys : list value) :
  Forall (fun x => forall x', alike x x' -> carried f alike alike x x') xs ->
  Forall well_formed xs -> Forall2 same_value xs ys ->
  Forall2 (carried f alike alike) xs ys.
Proof.
  intros HP Hw Hs. induction Hs as [|x y xs ys Hxy _ IH]; constructor.
  - inversion HP as [|? ? Hx _]; inversion Hw; subst. apply Hx. now split.
  - inversion HP; inversion Hw; subst. auto.
Qed.

Lemma carried_items {K} (f : value -> result value) (l l' : list (K * value)) :
  Forall (fun kv => forall x', alike (snd kv) x' ->
                               carried f alike alike (snd kv) x') l ->
  Forall (fun kv => well_formed (snd kv)) l ->
  Forall2 (same_item same_value) l l' ->
  Forall2 (same_item (carried f alike alike)) l l'.
Proof.
  intros HP Hw Hs. induction Hs as [|x y xs ys [Hk Hxy] _ IH]; constructor.
  - inversion HP as [|? ? Hx _]; inversion Hw; subst.
    split; [exact Hk|]. apply Hx. now split.
  - inversion HP; inversion Hw; subst. auto.
Qed.

Lemma mapping_same (f : value -> result value)
      (kvs mid kvs' : list (key * value)) (d : value) :
  Forall (fun kv => forall x', alike (snd kv) x' ->
                               carried f alike alike (snd kv) x') kvs ->
  distinct_keys (map fst kvs) ->
  Forall (fun kv => well_formed (snd kv)) kvs ->
  Forall2 (same_item same_value) kvs mid -> Permutation mid kvs' ->
  (items <- for_items (fun _ => true) f kvs ;;
   Ok (VDict (assign_all key_eqb [] items))) = Ok d ->
  exists d',
    (items <- for_items (fun _ => true) f kvs' ;;
     Ok (VDict (assign_all key_eqb [] items))) = Ok d'
    /\ alike d d'.
Proof.
  intros HP Hd Hw Hs Hp H.
  apply bind_ok in H as (items & Hi & [= <-]).
  pose proof (carried_items HP Hw Hs) as Hc.
  destruct (for_items_carried _ Hc Hi) as (imid & Him & Hq).
  apply alike_items in Hq as [Hq1 Hq2].
  apply for_items_ok in Him. apply for_items_ok in Hi.
  destruct (Permutation_Forall2 Hp Him) as (items' & Hp' & Hi').
  pose proof (items_keys Hi) as Ek. pose proof (items_keys Hi') as Ek'.
  pose proof (same_item_keys Hs) as Em.
  assert (Hd' : distinct_keys (map fst kvs')).
  { apply (@distinct_keys_perm (map fst mid)); [now apply Permutation_map|].
    now rewrite <- Em. }
  apply for_items_ok in Hi'. rewrite Hi', bind_Ok.
  rewrite !assign_all_apart by (simpl; congruence).
  eexists. split; [reflexivity|]. simpl. split.
  - econstructor; eassumption.
  - constructor; [congruence|exact Hq2].
Qed.

Section OrderFree.
Variable m : Marshall.
Hypothesis codecs_respect :
  Forall (fun nc => codec_respects_order (snd nc)) (_codecs m).

Lemma serialise_data_same (v : value) :
  forall v', alike v v' -> carried (serialise_data m) alike alike v v'.
Proof.
  induction v using value_nested_ind; intros v' [Hs Hw];
    (split; [now split|]); intros d Hd;
    rewrite serialise_data_eq in Hd; rewrite serialise_data_eq;
    rewrite (@handled_same m _ _ codecs_respect Hs);
    (destruct (_is_handled_by_codec m _) eqn:Hh;
     [exact (@codec_dict_same m _ _ _ codecs_respect (conj Hs Hw) Hd)|]);
    inversion Hs; subst; inversion Hw; subst;
    try (injection Hd as <-; eexists; split; [reflexivity|now split]);
    try discriminate.
  - (* list *)
    apply bind_ok in Hd as (ds & Hds & [= <-]).
    destruct (mapM_carried (carried_all H ltac:(eassumption) ltac:(eassumption)) Hds)
      as (ds' & -> & Hq).
    apply alike_all in Hq as [Hq1 Hq2].
    eexists. split; [reflexivity|]. split; now constructor.
  - (* tuple *)
    apply bind_ok in Hd as (ds & Hds & [= <-]).
    destruct (mapM_carried (carried_all H ltac:(eassumption) ltac:(eassumption)) Hds)
      as (ds' & -> & Hq).
    apply alike_all in Hq as [Hq1 Hq2].
    eexists. split; [reflexivity|]. split; now constructor.
  - (* dict *)
    eapply mapping_same; eassumption.
  - (* immutable mapping *)
    eapply mapping_same; eassumption.
  - (* instance without get_json_data *)
    destruct (String.eqb cls_module "builtins").
    + injection Hd as <-. eexists. split; [reflexivity|now split].
    + eapply object_to_dict_same; [| | |exact Hd];
        eapply carried_items; eauto.
  - (* instance with get_json_data *)
    destruct (String.eqb cls_module "builtins").
    + injection Hd as <-. eexists. split; [reflexivity|now split].
    + match goal with
      | Hj : forall d0, Some _ = Some d0 -> _ /\ _ |- _ =>
          destruct (Hj _ eq_refl) as [_ Hjw]
      end.
      eapply object_to_dict_same; [| | |exact Hd];
        eapply carried_items; eauto.
Qed.
End OrderFree.

(** ** The order of the members of a written object *)

Lemma sorted_map {A B} (R : B -> B -> Prop) (f : A -> B) (l : list A) :
  Sorted (fun a b => R (f a) (f b)) l -> Sorted R (map f l).
Proof.
  induction 1 as [|a l _ IH Hd]; simpl; constructor; trivial.
  destruct Hd; simpl; constructor; trivial.
Qed.

Lemma sorted_text_keys (ks : list key) :
  Forall (fun k => is_text_key k = true) ks ->
  Sorted (fun a b => key_le a b = true) ks -> lexicographic (map key_text ks).
Proof.
  intros Ht Hs. induction Hs as [|a l Hs IH Hd]; simpl; [constructor|].
  inversion Ht as [|? ? Ha Hl]; subst. constructor; [now apply IH|].
  destruct Hd as [|b l Hab]; simpl; constructor.
  inversion Hl; subst. destruct a, b; try discriminate. exact Hab.
Qed.

Lemma key_le_order (a b : key) : key_le a b = true -> key_order a b.
Proof.
  unfold key_le, key_leb, key_order.
  destruct a as [|[]|x|s], b as [|[]|y|t]; cbn [key_num]; try discriminate;
    trivial; intros H; do 2 eexists; (split; [reflexivity|]);
    (split; [reflexivity|]); now apply Z.leb_le.
Qed.

Lemma in_key_order_sorted {A} (S : list (key * A)) :
  in_key_order S -> Sorted (fun a b => key_order (fst a) (fst b)) S.
Proof.
  unfold in_key_order. induction 1 as [|a S' _ IH Hd]; constructor; [exact IH|].
  destruct Hd; constructor. now apply key_le_order.
Qed.

Lemma sorted_items_in_order {A} (l S : list (key * A)) :
  sorted_items l = Ok S -> Sorted (fun a b => key_order (fst a) (fst b)) S.
Proof.
  unfold sorted_items. destruct l as [|x [|y l]].
  - intros [= <-]. constructor.
  - intros [= <-]. repeat constructor.
  - destruct (_ || _) eqn:E; [|discriminate]. intros [= <-].
    apply in_key_order_sorted.
    exact (@sort_by_key_in_order _ _ (same_kind_forallb _ E)).
Qed.

Lemma sorted_by_keys {A B} (R : key -> key -> Prop)
      (l : list (key * A)) (l' : list (key * B)) :
  map fst l = map fst l' ->
  Sorted (fun a b => R (fst a) (fst b)) l ->
  Sorted (fun a b => R (fst a) (fst b)) l'.
Proof.
  intros E H. revert l' E.
  induction H as [|a l _ IH Hd]; intros l' E.
  - destruct l'; [constructor|discriminate].
  - destruct l' as [|a' l']; [discriminate|].
    injection E as Ea El. constructor; [now apply IH|].
    destruct Hd as [|b l Hab]; destruct l' as [|b' l']; try discriminate;
      constructor.
    injection El as Eb _. now rewrite <- Ea, <- Eb.
Qed.

(** The document of a value has the members of every object in the order of
    the keys they were written from. *)
Lemma json_of_value_written (d : value) :
  forall j, json_of_value d = Ok j -> written d j.
Proof.
  induction d using value_nested_ind; intros j Hj; try discriminate;
    try (injection Hj as <-; constructor).
  - (* list *)
    cbn [json_of_value] in Hj. apply bind_ok in Hj as (js & Hjs & [= <-]).
    constructor. apply mapM_ok in Hjs.
    induction Hjs as [|x y xs ys Hxy _ IH]; constructor;
      inversion H; subst; auto.
  - (* tuple *)
    cbn [json_of_value] in Hj. apply bind_ok in Hj as (js & Hjs & [= <-]).
    constructor. apply mapM_ok in Hjs.
    induction Hjs as [|x y xs ys Hxy _ IH]; constructor;
      inversion H; subst; auto.
  - (* dict *)
    destruct (json_of_value_dict_inv _ Hj) as (KJ & S & HKJ & HS & ->).
    pose proof (sorted_items_perm _ HS) as Hperm.
    apply Forall2_flip in HKJ.
    destruct (Permutation_Forall2 (Permutation_sym Hperm) HKJ)
      as (entries & Hpe & Hent).
    assert (Hkeys : map fst S = map fst entries).
    { clear - Hent. induction Hent as [|s e S entries [Hk _] _ IH];
        [reflexivity|]. cbn [map]. now rewrite Hk, IH. }
    apply written_dict with (entries := entries).
    + now symmetry.
    + exact (@sorted_by_keys _ _ key_order S entries Hkeys
               (sorted_items_in_order _ HS)).
    + assert (Hall : Forall (fun kv => forall j, json_of_value (snd kv) = Ok j
                                                 -> written (snd kv) j) entries).
      { rewrite Forall_forall in *. intros kv Hin. apply H.
        now apply (Permutation_in _ (Permutation_sym Hpe)). }
      clear - Hent Hall.
      induction Hent as [|s e S entries [Hk Hv] _ IH]; [constructor|].
      inversion Hall; subst. cbn [map]. constructor; [|now apply IH].
      unfold json_member. cbn [fst snd]. split; [now rewrite Hk|auto].
Qed.

(** ** No blank outside a string literal *)

Lemma lex_app (st : lex_state) (s t : string) :
  lex st (s ++ t)
  = match lex st s with Some st' => lex st' t | None => None end.
Proof.
  revert st. induction s as [|c s IH]; intros st; simpl; [reflexivity|].
  destruct st; [destruct (is_ws c); [reflexivity|apply IH]|apply IH|apply IH].
Qed.

Lemma lex_escape_char (c : ascii) : lex Inside (escape_char c) = Some Inside.
Proof. destruct c as [[] [] [] [] [] [] [] []]; vm_compute; reflexivity. Qed.

Lemma lex_escape (s : string) : lex Inside (escape s) = Some Inside.
Proof.
  induction s as [|c s IH]; [reflexivity|].
  cbn [escape]. now rewrite lex_app, lex_escape_char.
Qed.

Lemma lex_quote (s : string) : lex Outside (quote s) = Some Outside.
Proof.
  unfold quote.
  change (lex Inside (escape s ++ String dquote "") = Some Outside).
  now rewrite lex_app, lex_escape.
Qed.

Lemma lex_uint (d : Decimal.uint) :
  lex Outside (NilEmpty.string_of_uint d) = Some Outside.
Proof. induction d; simpl; auto. Qed.

Lemma lex_string_of_Z (n : Z) : lex Outside (string_of_Z n) = Some Outside.
Proof.
  destruct (string_of_Z_cases n) as [[_ ->]|[(p & _ & ->)|(p & _ & ->)]];
    [reflexivity|apply lex_uint|].
  change (lex Outside (NilEmpty.string_of_uint (Pos.to_uint p)) = Some Outside).
  apply lex_uint.
Qed.

Lemma lex_concat (l : list string) :
  Forall (fun s => lex Outside s = Some Outside) l ->
  lex Outside (String.concat "," l) = Some Outside.
Proof.
  induction 1 as [|x l Hx Hl IH]; [reflexivity|].
  destruct l as [|y l]; [exact Hx|].
  rewrite concat_cons2, lex_app, Hx.
  change (lex Outside (String.concat "," (y :: l)) = Some Outside).
  exact IH.
Qed.

(** The printed text of a document holds no blank outside its string
    literals. *)
Lemma print_compact (j : json) : compact (print j).
Proof.
  unfold compact. induction j using json_nested_ind.
  - reflexivity.
  - destruct b; reflexivity.
  - apply lex_string_of_Z.
  - apply lex_quote.
  - cbn [print].
    change (lex Outside (String.concat "," (map print items) ++ "]")
            = Some Outside).
    rewrite lex_app, lex_concat; [reflexivity|].
    now apply Forall_map.
  - rewrite print_obj.
    change (lex Outside (String.concat "," (map print_member members) ++ "}")
            = Some Outside).
    rewrite lex_app, lex_concat; [reflexivity|].
    apply Forall_map. eapply Forall_impl; [|eassumption].
    intros [k j] Hj. unfold print_member. cbn [fst snd] in *.
    rewrite lex_app, lex_quote.
    change (lex Outside (print j) = Some Outside). exact Hj.
Qed.

(** ** One text for one value *)

Lemma same_value_refl (v : value) : same_value v v.
Proof.
  assert (items : forall K (l : list (K * value)),
             Forall (fun kv => same_value (snd kv) (snd kv)) l ->
             Forall2 (same_item same_value) l l).
  { intros K l. induction 1; constructor; trivial. now split. }
  induction v using value_nested_ind; try constructor.
  - induction H; constructor; auto.
  - induction H; constructor; auto.
  - econstructor; [apply items; exact H|reflexivity].
  - econstructor; [apply items; exact H|reflexivity].
  - destruct json_data as [d|]; constructor; auto.
Qed.

Lemma datetime_codec_respects : codec_respects_order datetime_codec.
Proof.
  split; [|split].
  - intros v v' H. destruct H; reflexivity.
  - intros v v' d H. destruct H; simpl; try discriminate.
    intros [= <-]. eexists. split; [reflexivity|apply same_value_refl].
  - intros v d _. destruct v; simpl; try discriminate. intros [= <-].
    constructor.
    + repeat constructor.
    + repeat constructor.
Qed.

Lemma money_codec_respects : codec_respects_order money_codec.
Proof.
  split; [|split].
  - intros v v' H. destruct H; reflexivity.
  - intros v v' d H. destruct H; simpl; try discriminate;
      intros [= <-]; eexists; (split; [reflexivity|]);
      (econstructor; [|reflexivity]);
      (constructor; [split; [reflexivity|apply same_value_refl]|]);
      (constructor; [|constructor]); (split; [reflexivity|]);
      (econstructor; [|reflexivity]); now apply str_keys_same.
  - intros v d Hw. destruct v; simpl; try discriminate. intros [= <-].
    inversion Hw; subst.
    constructor; [repeat constructor|].
    constructor; [constructor|].
    constructor; [|constructor]. cbn [snd].
    constructor; [now apply str_keys_distinct|].
    unfold str_keys. now apply Forall_map.
Qed.

(** X1.  One text for one value.  [to_json] does not look at the order in
    which the entries of a mapping were inserted: when the registered codecs do
    not look at that order either, two values with the same entries are
    written as the same text.  That text is the printed form of the document
    of the encoded value, and [json.loads] reads the document back from it;
    it holds no blank outside its string literals, and the members of each of
    its objects are the entries of the mapping it was written from, in the
    order of their keys: lexicographic for text keys, increasing for numeric
    keys. *)
Theorem to_json_deterministic (m : Marshall) (v v' : value) (text : string) :
  Forall (fun nc => codec_respects_order (snd nc)) (_codecs m) ->
  well_formed v -> same_value v v' ->
  to_json m v = Ok text ->
  to_json m v' = Ok text
  /\ compact text
  /\ exists d j,
       serialise_data m v = Ok d
       /\ json_of_value d = Ok j
       /\ written d j
       /\ text = print j
       /\ parse text = Ok j.
Proof.
  intros Hm Hw Hs H. unfold to_json in *.
  apply bind_ok in H as (d & Hd & H). unfold json_dumps in H.
  apply bind_ok in H as (j & Hj & [= <-]).
  destruct (@serialise_data_same m Hm v v' (conj Hs Hw)) as [_ Hc].
  destruct (Hc _ Hd) as (d' & Hd' & Hdd' & Hwd).
  split; [|split].
  - rewrite Hd', bind_Ok. unfold json_dumps.
    now rewrite (@json_of_value_same d d' j Hdd' Hwd Hj).
  - apply print_compact.
  - exists d, j. repeat split; trivial.
    + exact (json_of_value_written _ Hj).
    + apply parse_print.
Qed.

Lemma example_codecs_respect :
  Forall (fun nc => codec_respects_order (snd nc)) (_codecs example_marshall).
Proof.
  change (_codecs example_marshall) with example_codecs.
  constructor; [exact datetime_codec_respects|].
  constructor; [exact money_codec_respects|constructor].
Qed.

Lemma money_well_formed : well_formed money.
Proof.
  apply wf_object.
  - constructor.
  - intros d [=].
  - constructor; [intros []|constructor].
  - repeat constructor.
Qed.

Lemma ledger_well_formed : well_formed ledger.
Proof.
  apply wf_dict; [repeat constructor|].
  constructor; [exact money_well_formed|].
  constructor; [apply wf_datetime|].
  constructor; [|constructor]. cbn [snd].
  apply wf_list. constructor; [|constructor].
  apply wf_dict; repeat constructor.
Qed.

Lemma ledger_same : same_value ledger ledger_reordered.
Proof.
  unfold ledger, ledger_reordered.
  apply same_dict with
    (mid := [(KStr "total", money); (KStr "at", VDatetime 7);
             (KStr "lines",
               VList [VDict [(KStr "sku", VStr "x"); (KStr "qty", VInt 2)]])]).
  - constructor; [split; [reflexivity|apply same_value_refl]|].
    constructor; [split; [reflexivity|apply same_value_refl]|].
    constructor; [|constructor]. split; [reflexivity|]. cbn [snd].
    constructor. constructor; [|constructor].
    apply same_dict with (mid := [(KStr "qty", VInt 2); (KStr "sku", VStr "x")]).
    + repeat constructor.
    + apply perm_swap.
  - apply Permutation_sym.
    exact (Permutation_cons_append
             [(KStr "total", money); (KStr "at", VDatetime 7)]
             (KStr "lines",
               VList [VDict [(KStr "sku", VStr "x"); (KStr "qty", VInt 2)]])).
Qed.

Lemma to_json_deterministic_witness :
  exists text,
    to_json example_marshall ledger = Ok text
    /\ to_json example_marshall ledger_reordered = Ok text
    /\ compact text
    /\ exists d j,
         serialise_data example_marshall ledger = Ok d
         /\ json_of_value d = Ok j
         /\ written d j
         /\ text = print j
         /\ parse text = Ok j.
Proof.
  eexists. split; [vm_compute; reflexivity|].
  apply (@to_json_deterministic example_marshall ledger ledger_reordered).
  - exact example_codecs_respect.
  - exact ledger_well_formed.
  - exact ledger_same.
  - vm_compute. reflexivity.
Defined.

(** Numeric keys are written in increasing order, which is not the
    lexicographic order of their texts: 9 stands before 10. *)
Lemma numeric_keys_not_lexicographic :
  to_json plain_marshall numbered
  = Ok (print (JObj [("9", JStr "a"); ("10", JStr "b")]))
  /\ ~ lexicographic ["9"; "10"]
  /\ lexicographic ["10"; "9"].
Proof.
  split; [vm_compute; reflexivity|split].
  - intros H. inversion H as [|? ? _ Hd]; subst.
    inversion Hd; subst. discriminate.
  - repeat constructor.
Qed.

(** * Further properties of the engine *)

(** ** The registry of codecs *)

Lemma dict_get_set_same {V} (d : list (string * V)) (k : string) (v : V) :
  dict_get String.eqb (dict_set String.eqb d k v) k = Some v.
Proof.
  induction d as [|[k' v'] d IH]; simpl.
  - now rewrite String.eqb_refl.
  - destruct (String.eqb k k') eqn:E; simpl; rewrite E; [reflexivity|exact IH].
Qed.

Lemma dict_get_set_other {V} (d : list (string * V)) (k k' : string) (v : V) :
  k' <> k ->
  dict_get String.eqb (dict_set String.eqb d k v) k' = dict_get String.eqb d k'.
Proof.
  intros Hne. apply String.eqb_neq in Hne.
  induction d as [|[a x] d IH]; simpl.
  - now rewrite Hne.
  - destruct (String.eqb k a) eqn:E; simpl.
    + apply String.eqb_eq in E. subst a. now rewrite Hne.
    + now rewrite IH.
Qed.

Lemma dict_set_names {V} (d : list (string * V)) (k : string) (v : V) :
  map fst (dict_set String.eqb d k v)
  = if dict_mem String.eqb d k then map fst d else map fst d ++ [k].
Proof.
  unfold dict_mem. induction d as [|[a x] d IH]; simpl; [reflexivity|].
  destruct (String.eqb k a); simpl; [reflexivity|].
  rewrite IH. now destruct (dict_get String.eqb d k).
Qed.

Lemma dict_get_del_other {V} (d : list (string * V)) (k k' : string) :
  k' <> k ->
  dict_get String.eqb (dict_del String.eqb d k) k' = dict_get String.eqb d k'.
Proof.
  intros Hne. induction d as [|[a x] d IH]; simpl; [reflexivity|].
  destruct (String.eqb k a) eqn:E; simpl.
  - apply String.eqb_eq in E. subst a.
    apply String.eqb_neq in Hne. now rewrite Hne.
  - now rewrite IH.
Qed.

Lemma dict_del_names {V} (d : list (string * V)) (k : string) :
  NoDup (map fst d) ->
  map fst (dict_del String.eqb d k)
  = filter (fun n => negb (String.eqb k n)) (map fst d).
Proof.
  induction d as [|[a x] d IH]; simpl; intros Hnd; [reflexivity|].
  inversion Hnd as [|? ? Ha Hd]; subst.
  destruct (String.eqb k a) eqn:E; simpl.
  - apply String.eqb_eq in E. subst a.
    symmetry. apply forallb_filter_id, forallb_forall.
    intros n Hn. apply negb_true_iff, String.eqb_neq. intros ->. contradiction.
  - now rewrite IH.
Qed.

Lemma dict_del_set_fresh {V} (d : list (string * V)) (k : string) (v : V) :
  dict_mem String.eqb d k = false ->
  dict_del String.eqb (dict_set String.eqb d k v) k = d.
Proof.
  unfold dict_mem. induction d as [|[a x] d IH]; simpl.
  - now rewrite String.eqb_refl.
  - destruct (String.eqb k a) eqn:E; [discriminate|].
    intros H. simpl. rewrite E. now rewrite IH.
Qed.

(** X2.  Registering a codec makes [has_codec] answer yes for its name and
    leaves every other name as it was.  A name that was registered before
    keeps its place in the order of the registry, which is the order of
    dispatch; a new name goes to the end. *)
Theorem register_codec_lookup (m : Marshall) (fcn : string) (c : codec) :
  has_codec (register_codec m fcn c) fcn = true
  /\ dict_get String.eqb (_codecs (register_codec m fcn c)) fcn = Some c
  /\ (forall fcn', fcn' <> fcn ->
        dict_get String.eqb (_codecs (register_codec m fcn c)) fcn'
        = dict_get String.eqb (_codecs m) fcn')
  /\ map fst (_codecs (register_codec m fcn c))
     = (if has_codec m fcn then map fst (_codecs m)
        else map fst (_codecs m) ++ [fcn])
  /\ _fqn_resolver (register_codec m fcn c) = _fqn_resolver m.
Proof.
  unfold has_codec, dict_mem, register_codec. cbn [_codecs _fqn_resolver].
  rewrite dict_get_set_same. repeat split.
  - intros fcn' Hne. now apply dict_get_set_other.
  - apply dict_set_names.
Qed.

(** X3.  Removing a codec: a name that is not registered raises KeyError; a
    registered name is removed, and every other name keeps its codec and its
    place in the order of dispatch. *)
Theorem deregister_codec_result (m : Marshall) (fcn : string) :
  NoDup (map fst (_codecs m)) ->
  match deregister_codec m fcn with
  | Ok m' =>
      has_codec m fcn = true
      /\ has_codec m' fcn = false
      /\ (forall fcn', fcn' <> fcn ->
            dict_get String.eqb (_codecs m') fcn'
            = dict_get String.eqb (_codecs m) fcn')
      /\ map fst (_codecs m')
         = filter (fun n => negb (String.eqb fcn n)) (map fst (_codecs m))
      /\ _fqn_resolver m' = _fqn_resolver m
  | Err e => has_codec m fcn = false /\ e = KeyError (VStr fcn)
  end.
Proof.
  intros Hnd. unfold deregister_codec, has_codec.
  destruct (dict_mem String.eqb (_codecs m) fcn) eqn:E; [|now split].
  cbn [_codecs _fqn_resolver]. repeat split.
  - unfold dict_mem. rewrite dict_get_absent; [reflexivity|].
    rewrite dict_del_names by exact Hnd. intros Hin.
    apply filter_In in Hin as [_ Hin]. now rewrite String.eqb_refl in Hin.
  - intros fcn' Hne. now apply dict_get_del_other.
  - now apply dict_del_names.
Qed.

Lemma example_codec_names : NoDup (map fst (_codecs example_marshall)).
Proof.
  change (NoDup ["codecs.Datetime"; "codecs.Money"]).
  constructor; [intros [H|[]]; discriminate|].
  constructor; [intros []|constructor].
Qed.

Lemma deregister_codec_result_witness :
  match deregister_codec example_marshall "codecs.Money" with
  | Ok m' =>
      has_codec example_marshall "codecs.Money" = true
      /\ has_codec m' "codecs.Money" = false
      /\ (forall fcn', fcn' <> "codecs.Money" ->
            dict_get String.eqb (_codecs m') fcn'
            = dict_get String.eqb (_codecs example_marshall) fcn')
      /\ map fst (_codecs m')
         = filter (fun n => negb (String.eqb "codecs.Money" n))
             (map fst (_codecs example_marshall))
      /\ _fqn_resolver m' = _fqn_resolver example_marshall
  | Err e =>
      has_codec example_marshall "codecs.Money" = false
      /\ e = KeyError (VStr "codecs.Money")
  end.
Proof.
  apply (deregister_codec_result example_marshall "codecs.Money").
  exact example_codec_names.
Defined.

(** X4.  Registering a codec under a new name and removing it again gives the
    engine back as it was. *)
Theorem register_then_deregister (m : Marshall) (fcn : string) (c : codec) :
  has_codec m fcn = false ->
  deregister_codec (register_codec m fcn c) fcn = Ok m.
Proof.
  intros H. unfold deregister_codec, register_codec. cbn [_codecs _fqn_resolver].
  unfold dict_mem. rewrite dict_get_set_same.
  rewrite dict_del_set_fresh by exact H. now destruct m.
Qed.

Lemma register_then_deregister_witness :
  deregister_codec (register_codec example_marshall "codecs.New" datetime_codec)
    "codecs.New"
  = Ok example_marshall.
Proof.
  apply (register_then_deregister example_marshall "codecs.New" datetime_codec).
  reflexivity.
Defined.

(** ** The two tables of the resolver *)

Lemma assign_all_app {K V} (eqb : K -> K -> bool) (d l1 l2 : list (K * V)) :
  assign_all eqb d (l1 ++ l2) = assign_all eqb (assign_all eqb d l1) l2.
Proof. unfold assign_all. apply fold_left_app. Qed.

Lemma assign_all_get_absent {V} (items d : list (string * V)) (k : string) :
  ~ In k (map fst items) ->
  dict_get String.eqb (assign_all String.eqb d items) k = dict_get String.eqb d k.
Proof.
  revert d. induction items as [|[a x] items IH]; intros d H; [reflexivity|].
  change (assign_all String.eqb d ((a, x) :: items))
    with (assign_all String.eqb (dict_set String.eqb d a x) items).
  rewrite IH by (intros Hin; apply H; now right).
  apply dict_get_set_other. intros ->. apply H. now left.
Qed.

Lemma assign_all_get_last {V} (l1 l2 d : list (string * V)) (k : string) (v : V) :
  ~ In k (map fst l2) ->
  dict_get String.eqb (assign_all String.eqb d (l1 ++ (k, v) :: l2)) k = Some v.
Proof.
  intros H. rewrite assign_all_app.
  change (assign_all String.eqb (assign_all String.eqb d l1) ((k, v) :: l2))
    with (assign_all String.eqb
            (dict_set String.eqb (assign_all String.eqb d l1) k v) l2).
  rewrite assign_all_get_absent by exact H. apply dict_get_set_same.
Qed.

Lemma assign_all_get_in {V} (items d : list (string * V)) (k : string) (v : V) :
  dict_get String.eqb (assign_all String.eqb d items) k = Some v ->
  dict_get String.eqb d k = Some v \/ In (k, v) items.
Proof.
  revert d. induction items as [|[a x] items IH]; intros d H; [now left|].
  change (assign_all String.eqb d ((a, x) :: items))
    with (assign_all String.eqb (dict_set String.eqb d a x) items) in H.
  destruct (IH _ H) as [H'|H']; [|right; now right].
  destruct (String.eqb_spec k a) as [->|Hne].
  - rewrite dict_get_set_same in H'. injection H' as ->. right. now left.
  - rewrite dict_get_set_other in H' by exact Hne. now left.
Qed.

Lemma reverse_lookup_last (l1 l2 : list (string * string)) (pub priv : string) :
  ~ In priv (map snd l2) ->
  _lookup_fqn (new_FqnResolver (l1 ++ (pub, priv) :: l2)) priv false = Ok pub.
Proof.
  intros H. unfold _lookup_fqn, new_FqnResolver. cbn [_private_to_public].
  rewrite map_app. cbn [map fst snd].
  change (dict_of_items String.eqb
            (map (fun ab => (snd ab, fst ab)) l1
             ++ (priv, pub) :: map (fun ab => (snd ab, fst ab)) l2))
    with (assign_all String.eqb []
            (map (fun ab => (snd ab, fst ab)) l1
             ++ (priv, pub) :: map (fun ab => (snd ab, fst ab)) l2)).
  rewrite assign_all_get_last; [reflexivity|].
  now rewrite map_map.
Qed.

Lemma reverse_lookup_in (fqn_map : list (string * string)) (pub priv : string) :
  _lookup_fqn (new_FqnResolver fqn_map) priv false = Ok pub ->
  In (pub, priv) fqn_map.
Proof.
  unfold _lookup_fqn, new_FqnResolver. cbn [_private_to_public].
  change (dict_of_items String.eqb (map (fun ab => (snd ab, fst ab)) fqn_map))
    with (assign_all String.eqb [] (map (fun ab => (snd ab, fst ab)) fqn_map)).
  destruct (dict_get _ _ priv) as [p|] eqn:E; [|discriminate].
  intros [= ->]. apply assign_all_get_in in E as [E|E]; [discriminate|].
  apply in_map_iff in E as ([a b] & [= <- <-] & Hin). exact Hin.
Qed.

Lemma public_lookup_of_in (fqn_map : list (string * string)) (pub priv : string) :
  NoDup (map fst fqn_map) -> In (pub, priv) fqn_map ->
  _lookup_fqn (new_FqnResolver fqn_map) pub true = Ok priv.
Proof.
  intros Hnd Hin. unfold _lookup_fqn, new_FqnResolver. cbn [_public_to_private].
  now rewrite (dict_get_of_in _ _ _ Hnd Hin).
Qed.

Lemma public_lookup_in (fqn_map : list (string * string)) (pub priv : string) :
  _lookup_fqn (new_FqnResolver fqn_map) pub true = Ok priv ->
  In (pub, priv) fqn_map.
Proof.
  unfold _lookup_fqn, new_FqnResolver. cbn [_public_to_private].
  destruct (dict_get _ _ pub) as [p|] eqn:E; [|discriminate].
  intros [= ->]. now apply dict_get_some_in.
Qed.

(** X5.  The reverse table of a resolver is built entry by entry: when several
    public names stand for one private path, the path is written back as the
    last of them. *)
Theorem reverse_table_last_wins (fqn_map l1 l2 : list (string * string))
        (pub priv : string) :
  fqn_map = l1 ++ (pub, priv) :: l2 ->
  ~ In priv (map snd l2) ->
  _lookup_fqn (new_FqnResolver fqn_map) priv false = Ok pub.
Proof. intros ->. apply reverse_lookup_last. Qed.

Lemma reverse_table_last_wins_witness :
  _lookup_fqn
    (new_FqnResolver [("shop.Item", "app.Item"); ("legacy.Item", "app.Item");
                      ("shop.Tag", "app.Tag")])
    "app.Item" false
  = Ok "legacy.Item".
Proof.
  apply (@reverse_table_last_wins _ [("shop.Item", "app.Item")]
           [("shop.Tag", "app.Tag")] "legacy.Item" "app.Item").
  - reflexivity.
  - simpl. intros [H|[]]. discriminate.
Defined.

(** X6.  When no two public names stand for the same private path, the two
    tables of a resolver are inverse to each other. *)
Theorem lookup_fqn_inverse (fqn_map : list (string * string))
        (pub priv : string) :
  NoDup (map fst fqn_map) -> NoDup (map snd fqn_map) ->
  _lookup_fqn (new_FqnResolver fqn_map) pub true = Ok priv
  <-> _lookup_fqn (new_FqnResolver fqn_map) priv false = Ok pub.
Proof.
  intros Hk Hv. split; intros H.
  - apply public_lookup_in in H. apply in_split in H as (l1 & l2 & ->).
    apply reverse_lookup_last.
    rewrite map_app in Hv. cbn [map snd] in Hv.
    apply NoDup_remove_2 in Hv. intros Hin. apply Hv.
    apply in_or_app. now right.
  - apply reverse_lookup_in in H. now apply public_lookup_of_in.
Qed.

Lemma lookup_fqn_inverse_witness :
  _lookup_fqn (new_FqnResolver override_map) "a.b.C" true = Ok "x.y.Special"
  <-> _lookup_fqn (new_FqnResolver override_map) "x.y.Special" false
      = Ok "a.b.C".
Proof.
  apply (lookup_fqn_inverse override_map "a.b.C" "x.y.Special").
  - simpl. constructor; [intros [H|[]]; discriminate|].
    constructor; [intros []|constructor].
  - simpl. constructor; [intros [H|[]]; discriminate|].
    constructor; [intros []|constructor].
Defined.

(** ** A public name resolves back to the class it was written for *)

Lemma drop_last_star (s : string) : drop_last (s ++ ".*") = (s ++ ".")%string.
Proof.
  induction s as [|a s IH]; [reflexivity|].
  cbn [append drop_last]. rewrite IH.
  destruct s; reflexivity.
Qed.

Lemma last_segment_unique (p p' e e' : string) :
  contains "." e = false -> contains "." e' = false ->
  (p ++ "." ++ e)%string = (p' ++ "." ++ e')%string -> p = p' /\ e = e'.
Proof.
  intros He He' H.
  assert (Hs : split "." p ++ [e] = split "." p' ++ [e']).
  { rewrite <- (split_app_sep "." p e He), <- (split_app_sep "." p' e' He').
    exact (f_equal (split ".") H). }
  apply app_inj_tail in Hs as [Hp ->]. split; [|reflexivity].
  rewrite <- (concat_split "." p), <- (concat_split "." p'). now rewrite Hp.
Qed.

Lemma rsplit1_class_path (cm cn : string) :
  contains "." cn = false -> rsplit1 (class_path cm cn) = Some (cm, cn).
Proof.
  intros H. unfold rsplit1, class_path.
  change (cm ++ "." ++ cn)%string with (cm ++ String "." cn)%string.
  rewrite (split_app_sep "." cm cn H).
  pose proof (split_not_nil "." cm) as Hn.
  destruct (split "." cm) as [|a l] eqn:E; [contradiction|].
  cbn [app]. destruct (l ++ [cn]) as [|b l'] eqn:El.
  - destruct l; discriminate.
  - rewrite <- El.
    change (a :: l ++ [cn]) with ((a :: l) ++ [cn]).
    rewrite removelast_last, last_last, <- E.
    now rewrite (concat_split "." cm).
Qed.

Lemma resolves_back (fqn_map : list (string * string)) (cm cn fqn : string) :
  NoDup (map fst fqn_map) ->
  (forall a P, In (a, (P ++ ".*")%string) fqn_map ->
               exists Q, a = (Q ++ ".*")%string) ->
  contains "." cn = false ->
  instance_to_fqn (new_FqnResolver fqn_map) cm cn = Ok fqn ->
  (forall p, _lookup_fqn (new_FqnResolver fqn_map) fqn true = Ok p ->
             p = class_path cm cn) ->
  _get_fqn (new_FqnResolver fqn_map) fqn true = Ok (class_path cm cn).
Proof.
  intros Hnd Hpat Hcn Hfwd Hown.
  destruct (lookup_fqn_cases (new_FqnResolver fqn_map) fqn true) as [[p Hp]|Hp].
  - rewrite (Hown _ Hp) in Hp. now apply get_fqn_exact.
  - unfold instance_to_fqn in Hfwd.
    apply get_fqn_ok_inv in Hfwd
      as [Hex|(_ & _ & Hlast & prefix & entity & W & Hk & Hent & Hstar & ->)].
    + exfalso. apply reverse_lookup_in in Hex.
      rewrite (public_lookup_of_in _ _ _ Hnd Hex) in Hp. discriminate.
    + unfold class_path in Hk.
      destruct (last_segment_unique _ _ _ _ Hcn Hent Hk) as [<- <-].
      apply reverse_lookup_in in Hstar.
      destruct (Hpat _ _ Hstar) as [Q ->].
      rewrite drop_last_star, string_app_assoc in Hp |- *.
      rewrite (@get_fqn_wildcard (new_FqnResolver fqn_map) true Q cn
                 (cm ++ ".*")%string).
      * rewrite drop_last_star, string_app_assoc. reflexivity.
      * change (Q ++ "." ++ cn)%string with (Q ++ String "." cn)%string.
        change (Q ++ "." ++ cn)%string with (Q ++ String "." cn)%string in Hp.
        now rewrite Hp.
      * exact Hcn.
      * unfold class_path in Hlast.
        change (cm ++ "." ++ cn)%string with (cm ++ String "." cn)%string in Hlast.
        change (Q ++ "." ++ cn)%string with (Q ++ String "." cn)%string.
        rewrite last_char_app_cons in *. exact Hlast.
      * now apply public_lookup_of_in.
Qed.

(** X7.  The public name [instance_to_fqn] writes for an instance is resolved
    by [fqn_to_type] to the module and the class of that instance, through an
    exact entry or through a wildcard entry, when the wildcard entries of the
    map pair a public pattern with a private pattern and no other entry
    claims the public name. *)
Theorem resolver_round_trip
        (import_module : string -> result (string -> option pyclass))
        (fqn_map : list (string * string)) (cm cn fqn : string) :
  NoDup (map fst fqn_map) ->
  (forall a P, In (a, (P ++ ".*")%string) fqn_map ->
               exists Q, a = (Q ++ ".*")%string) ->
  contains "." cn = false ->
  instance_to_fqn (new_FqnResolver fqn_map) cm cn = Ok fqn ->
  (forall p, _lookup_fqn (new_FqnResolver fqn_map) fqn true = Ok p ->
             p = class_path cm cn) ->
  _get_fqn (new_FqnResolver fqn_map) fqn true = Ok (class_path cm cn)
  /\ fqn_to_type import_module (new_FqnResolver fqn_map) (VStr fqn)
     = (md <- import_module cm ;;
        match md cn with
        | Some c => Ok c
        | None => Err AttributeError
        end).
Proof.
  intros Hnd Hpat Hcn Hfwd Hown.
  pose proof (@resolves_back fqn_map cm cn fqn Hnd Hpat Hcn Hfwd Hown) as Hget.
  split; [exact Hget|].
  unfold fqn_to_type. rewrite Hget, bind_Ok.
  now rewrite (@rsplit1_class_path cm cn Hcn).
Qed.

Lemma resolver_round_trip_witness :
  _get_fqn (new_FqnResolver [("shop.*", "app.shop.*")]) "shop.Item" true
  = Ok (class_path "app.shop" "Item")
  /\ fqn_to_type example_modules (new_FqnResolver [("shop.*", "app.shop.*")])
       (VStr "shop.Item")
     = (md <- example_modules "app.shop" ;;
        match md "Item" with
        | Some c => Ok c
        | None => Err AttributeError
        end).
Proof.
  apply (@resolver_round_trip example_modules [("shop.*", "app.shop.*")]
           "app.shop" "Item" "shop.Item").
  - constructor; [intros []|constructor].
  - intros a P [H|[]]. injection H as <- _. now exists "shop".
  - reflexivity.
  - reflexivity.
  - intros p H. discriminate.
Defined.

(** ** What the encoder leaves alone, and what it never encodes *)

Lemma mapM_fixed {A} (f : A -> result A) (xs : list A) :
  Forall (fun x => f x = Ok x) xs -> mapM f xs = Ok xs.
Proof.
  induction 1 as [|x xs Hx _ IH]; [reflexivity|].
  simpl. now rewrite Hx, IH.
Qed.

Lemma for_items_fixed {K A} (f : A -> result A) (l : list (K * A)) :
  Forall (fun kv => f (snd kv) = Ok (snd kv)) l ->
  for_items (fun _ => true) f l = Ok l.
Proof.
  induction 1 as [|[k a] l Hx _ IH]; [reflexivity|].
  rewrite for_items_cons. simpl in Hx. now rewrite Hx, IH.
Qed.

Lemma for_items_err {K A B} (keep : K -> bool) (f : A -> result B)
      (l : list (K * A)) (kv : K * A) (e : exn) :
  In kv l -> keep (fst kv) = true -> f (snd kv) = Err e ->
  exists e', for_items keep f l = Err e'.
Proof.
  induction l as [|[k a] l IH]; [contradiction|].
  intros [<-|Hin] Hk Hx; rewrite for_items_cons.
  - simpl in Hk, Hx. rewrite Hk, Hx. simpl. eauto.
  - destruct (keep k); [|now apply IH].
    destruct (f a); simpl; [|eauto].
    destruct (IH Hin Hk Hx) as [e' ->]. simpl. eauto.
Qed.

(** X8.  Data that is ready for JSON comes out of the encoder as it went in:
    scalars, lists and dicts of them, where no codec takes any part. *)
Theorem serialise_data_fixes (m : Marshall) (v : value) :
  json_ready m v -> serialise_data m v = Ok v.
Proof.
  induction v using value_nested_ind; intros Hr; rewrite serialise_data_eq;
    inversion Hr as [? Hh Hs|? Hh Hall|? Hh Hd Hall]; subst;
    rewrite Hh; try discriminate; try reflexivity.
  - (* list *)
    rewrite mapM_fixed; [reflexivity|].
    rewrite Forall_forall in *. auto.
  - (* dict *)
    rewrite for_items_fixed, bind_Ok.
    + now rewrite assign_all_apart.
    + rewrite Forall_forall in *. auto.
  - (* instance of a built-in class *)
    simpl in Hs. now rewrite Hs.
Qed.

Lemma serialise_data_fixes_witness :
  serialise_data example_marshall
    (VDict [(KStr "qty", VInt 2); (KStr "tags", VList [VStr "x"; VNone])])
  = Ok (VDict [(KStr "qty", VInt 2); (KStr "tags", VList [VStr "x"; VNone])]).
Proof.
  apply (@serialise_data_fixes example_marshall).
  apply ready_dict; [reflexivity|repeat constructor|].
  constructor; [now apply ready_scalar|].
  constructor; [|constructor]. cbn [snd].
  apply ready_list; [reflexivity|].
  constructor; [now apply ready_scalar|].
  constructor; [now apply ready_scalar|constructor].
Defined.

Lemma object_to_dict_field_err (f : value -> result value) (r : FqnResolver)
      (cls_module cls_name : string) (class_attrs : list (string * value))
      (json_data : option (list (string * value)))
      (vars : list (string * value)) (kv : string * value) (e : exn) :
  In kv match json_data with Some d => d | None => vars end ->
  is_dunder (fst kv) = false -> f (snd kv) = Err e ->
  exists e',
    _object_to_dict f r cls_module cls_name class_attrs json_data vars = Err e'.
Proof.
  intros Hin Hk Hx. unfold _object_to_dict.
  destruct (instance_to_fqn r cls_module cls_name) as [fqn|e0]; [|simpl; eauto].
  rewrite bind_Ok. cbv zeta.
  match goal with
  | |- exists e', bind ?d3 _ = _ => destruct d3 as [data3|e3]; [|simpl; eauto]
  end.
  rewrite bind_Ok.
  destruct (@for_items_err _ _ _ (fun attr => negb (is_dunder attr)) f _ kv e Hin)
    as [e' ->]; [now rewrite Hk|exact Hx|].
  simpl. eauto.
Qed.

Lemma holds_set_fails (m : Marshall) (v : value) :
  holds_set m v -> exists e, serialise_data m v = Err e.
Proof.
  induction 1 as [ks Hh|xs x Hh Hin _ [e IH]|xs x Hh Hin _ [e IH]
                 |kvs kv Hh Hin _ [e IH]|kvs kv Hh Hin _ [e IH]
                 |cm cn ca jd vars kv Hh Hb Hin Hk _ [e IH]];
    rewrite serialise_data_eq, Hh.
  - eauto.
  - destruct (mapM_err _ _ _ Hin IH) as [e' ->]. simpl. eauto.
  - destruct (mapM_err _ _ _ Hin IH) as [e' ->]. simpl. eauto.
  - destruct (@for_items_err _ _ _ (fun _ => true) (serialise_data m) kvs kv e
                Hin eq_refl IH) as [e' ->]. simpl. eauto.
  - destruct (@for_items_err _ _ _ (fun _ => true) (serialise_data m) kvs kv e
                Hin eq_refl IH) as [e' ->]. simpl. eauto.
  - rewrite Hb. eapply object_to_dict_field_err; eauto.
Qed.

(** X9.  A set is never encoded.  Where no codec takes it, the encoder treats
    a set as a mapping and fails on it with AttributeError; a value that holds
    such a set among its items, its values or its exported fields is not
    encoded either, and [to_json] raises. *)
Theorem set_never_encodes (m : Marshall) (v : value) :
  holds_set m v ->
  (forall ks, v = VSet ks -> serialise_data m v = Err AttributeError)
  /\ (exists e, serialise_data m v = Err e)
  /\ exists e, to_json m v = Err e.
Proof.
  intros H. split; [|split].
  - intros ks ->. inversion H as [? Hh| | | | |]; subst.
    now rewrite serialise_data_eq, Hh.
  - now apply holds_set_fails.
  - destruct (holds_set_fails H) as [e He]. exists e.
    unfold to_json. now rewrite He.
Qed.

Lemma set_never_encodes_witness :
  (forall ks,
      VDict [(KStr "seen", VList [VInt 1; VSet [KInt 2]])] = VSet ks ->
      serialise_data example_marshall
        (VDict [(KStr "seen", VList [VInt 1; VSet [KInt 2]])])
      = Err AttributeError)
  /\ (exists e,
         serialise_data example_marshall
           (VDict [(KStr "seen", VList [VInt 1; VSet [KInt 2]])]) = Err e)
  /\ exists e,
       to_json example_marshall
         (VDict [(KStr "seen", VList [VInt 1; VSet [KInt 2]])]) = Err e.
Proof.
  apply (@set_never_encodes example_marshall).
  apply set_in_dict with (kv := (KStr "seen", VList [VInt 1; VSet [KInt 2]]));
    [reflexivity|now left|].
  apply set_in_list with (x := VSet [KInt 2]); [reflexivity|right; now left|].
  now apply set_here.
Defined.

(** ** The envelope of an instance *)

Lemma timestamp_get (f : value -> result value)
      (ca vars d2 d3 : list (string * value)) (name : string) :
  name <> "__timestamp__" ->
  match with_attr f "__timestamp__" vars with
  | Some t' => t <- t' ;; Ok (dict_set String.eqb d2 "__timestamp__" t)
  | None =>
      match with_attr f "__timestamp__" ca with
      | Some t' => t <- t' ;; Ok (dict_set String.eqb d2 "__timestamp__" t)
      | None => Ok d2
      end
  end = Ok d3 ->
  dict_get String.eqb d3 name = dict_get String.eqb d2 name.
Proof.
  intros Hne.
  destruct (with_attr f "__timestamp__" vars) as [r|].
  - intros H. apply bind_ok in H as (t & _ & [= <-]).
    now apply dict_get_set_other.
  - destruct (with_attr f "__timestamp__" ca) as [r|].
    + intros H. apply bind_ok in H as (t & _ & [= <-]).
      now apply dict_get_set_other.
    + now intros [= <-].
Qed.

Lemma envelope_get (f : value -> result value) (r : FqnResolver)
      (cls_module cls_name : string) (class_attrs : list (string * value))
      (json_data : option (list (string * value)))
      (vars : list (string * value)) (d : value) :
  _object_to_dict f r cls_module cls_name class_attrs json_data vars = Ok d ->
  exists env fqn,
    d = VDict env
    /\ instance_to_fqn r cls_module cls_name = Ok fqn
    /\ dict_get key_eqb env (KStr "__fqn__") = Some (VStr fqn)
    /\ dict_get key_eqb env (KStr "__version__")
       = getattr class_attrs vars "__version__"
    /\ dict_get key_eqb env (KStr "__msgid__")
       = getattr class_attrs vars "__msgid__".
Proof.
  unfold _object_to_dict. intros H.
  apply bind_ok in H as (fqn & Hfqn & H). cbv zeta in H.
  apply bind_ok in H as (d3 & H3 & H).
  apply bind_ok in H as (fields & Hf & [= <-]).
  eexists. exists fqn. split; [reflexivity|]. split; [exact Hfqn|].
  assert (Hfields : forall name, is_dunder name = true ->
                                 ~ In name (map fst fields)).
  { intros name Hd Hin. destruct (for_items_keys _ _ _ Hf _ Hin) as [_ Hk].
    now rewrite Hd in Hk. }
  assert (Hget : forall name, is_dunder name = true -> name <> "__timestamp__" ->
            dict_get key_eqb (str_keys (assign_all String.eqb d3 fields))
              (KStr name)
            = dict_get String.eqb
                match getattr class_attrs vars "__msgid__" with
                | Some v =>
                    dict_set String.eqb
                      match getattr class_attrs vars "__version__" with
                      | Some v0 =>
                          dict_set String.eqb [("__fqn__", VStr fqn)]
                            "__version__" v0
                      | None => [("__fqn__", VStr fqn)]
                      end "__msgid__" v
                | None =>
                    match getattr class_attrs vars "__version__" with
                    | Some v0 =>
                        dict_set String.eqb [("__fqn__", VStr fqn)]
                          "__version__" v0
                    | None => [("__fqn__", VStr fqn)]
                    end
                end name).
  { intros name Hd Hne. rewrite str_keys_get.
    rewrite assign_all_get_absent by (now apply Hfields).
    exact (timestamp_get _ _ _ _ Hne H3). }
  repeat split; (rewrite Hget; [|reflexivity|discriminate]);
    destruct (getattr class_attrs vars "__msgid__"),
             (getattr class_attrs vars "__version__"); reflexivity.
Qed.

Lemma for_items_names {K A B} (keep : K -> bool) (f : A -> result B)
      (l : list (K * A)) (r : list (K * B)) :
  for_items keep f l = Ok r -> map fst r = filter keep (map fst l).
Proof.
  revert r. induction l as [|[k a] l IH]; intros r.
  - now intros [= <-].
  - rewrite for_items_cons. cbn [map fst filter]. destruct (keep k).
    + intros H. apply bind_ok in H as (b & _ & H).
      apply bind_ok in H as (r' & Hr' & [= <-]).
      cbn [map fst]. now rewrite (IH _ Hr').
    + apply IH.
Qed.

Lemma dict_mem_set {V} (d : list (string * V)) (a k : string) (x : V) :
  dict_mem String.eqb (dict_set String.eqb d a x) k
  = dict_mem String.eqb d k || String.eqb k a.
Proof.
  unfold dict_mem. destruct (String.eqb_spec k a) as [->|Hne].
  - rewrite dict_get_set_same. now rewrite orb_true_r.
  - rewrite dict_get_set_other by exact Hne. now rewrite orb_false_r.
Qed.

Lemma dict_mem_assign_all {V} (items d : list (string * V)) (k : string) :
  dict_mem String.eqb (assign_all String.eqb d items) k
  = dict_mem String.eqb d k || existsb (String.eqb k) (map fst items).
Proof.
  revert d. induction items as [|[a x] items IH]; intros d.
  - simpl. now rewrite orb_false_r.
  - change (assign_all String.eqb d ((a, x) :: items))
      with (assign_all String.eqb (dict_set String.eqb d a x) items).
    rewrite IH, dict_mem_set. cbn [map fst existsb]. now rewrite orb_assoc.
Qed.

Lemma envelope_field_mem (f : value -> result value) (r : FqnResolver)
      (cls_module cls_name : string) (class_attrs : list (string * value))
      (json_data : option (list (string * value)))
      (vars : list (string * value)) (env : list (key * value)) (name : string) :
  _object_to_dict f r cls_module cls_name class_attrs json_data vars
  = Ok (VDict env) ->
  is_dunder name = false ->
  key_in name env
  = existsb (String.eqb name)
      (filter (fun attr => negb (is_dunder attr))
         (map fst match json_data with Some x => x | None => vars end)).
Proof.
  unfold _object_to_dict. intros H Hn.
  apply bind_ok in H as (fqn & Hfqn & H). cbv zeta in H.
  apply bind_ok in H as (d3 & H3 & H).
  apply bind_ok in H as (fields & Hf & [= <-]).
  unfold key_in, dict_mem. rewrite str_keys_get.
  fold (dict_mem String.eqb (assign_all String.eqb d3 fields) name).
  rewrite dict_mem_assign_all, (for_items_names _ _ _ Hf).
  assert (Hne : forall k, is_dunder k = true -> name <> k)
    by (intros k Hk ->; congruence).
  unfold dict_mem at 1.
  rewrite (timestamp_get _ _ _ _ (Hne "__timestamp__" eq_refl) H3).
  destruct (getattr class_attrs vars "__msgid__"),
           (getattr class_attrs vars "__version__");
    rewrite ?dict_get_set_other
      by first [exact (Hne "__msgid__" eq_refl)
               |exact (Hne "__version__" eq_refl)];
    simpl;
    (destruct (String.eqb_spec name "__fqn__") as [E|_];
     [now destruct (Hne "__fqn__" eq_refl)|reflexivity]).
Qed.

(** X10.  The envelope of an instance holds the public name of its class under
    [__fqn__], and the version and the message identifier of the instance, as
    they are, under [__version__] and [__msgid__] when the instance has them.
    No exported field can stand in their place.  On decoding, the envelope is
    taken for an instance, unless the exported fields include both [_value_]
    and [_name_]: then it is taken for an enumeration member. *)
Theorem object_envelope_metadata (f : value -> result value) (r : FqnResolver)
        (cls_module cls_name : string) (class_attrs : list (string * value))
        (json_data : option (list (string * value)))
        (vars : list (string * value)) (d : value) :
  _object_to_dict f r cls_module cls_name class_attrs json_data vars = Ok d ->
  exists env fqn,
    d = VDict env
    /\ instance_to_fqn r cls_module cls_name = Ok fqn
    /\ dict_get key_eqb env (KStr "__fqn__") = Some (VStr fqn)
    /\ dict_get key_eqb env (KStr "__version__")
       = getattr class_attrs vars "__version__"
    /\ dict_get key_eqb env (KStr "__msgid__")
       = getattr class_attrs vars "__msgid__"
    /\ _is_serialised_class d = true
    /\ classify d
       = (let exported :=
            filter (fun attr => negb (is_dunder attr))
              (map fst match json_data with Some x => x | None => vars end) in
          if existsb (String.eqb "_value_") exported
             && existsb (String.eqb "_name_") exported
          then EnumEnvelope else ObjectEnvelope).
Proof.
  intros H.
  destruct (envelope_get _ _ _ _ _ _ _ H) as (env & fqn & -> & H1 & H2 & H3 & H4).
  exists env, fqn.
  assert (Hfqn : key_in "__fqn__" env = true)
    by (unfold key_in, dict_mem; now rewrite H2).
  repeat split; trivial.
  rewrite classify_dict, Hfqn. cbv zeta.
  now rewrite !(envelope_field_mem _ _ _ _ _ _ _ _ H) by reflexivity.
Qed.

Lemma object_envelope_metadata_witness :
  exists env fqn,
    VDict [(KStr "__fqn__", VStr "shop.Tag"); (KStr "__version__", VInt 3);
           (KStr "label", VStr "new")] = VDict env
    /\ instance_to_fqn example_resolver "app.shop" "Tag" = Ok fqn
    /\ dict_get key_eqb env (KStr "__fqn__") = Some (VStr fqn)
    /\ dict_get key_eqb env (KStr "__version__")
       = getattr [("__version__", VInt 3)] [("label", VStr "new")] "__version__"
    /\ dict_get key_eqb env (KStr "__msgid__")
       = getattr [("__version__", VInt 3)] [("label", VStr "new")] "__msgid__"
    /\ _is_serialised_class
         (VDict [(KStr "__fqn__", VStr "shop.Tag"); (KStr "__version__", VInt 3);
                 (KStr "label", VStr "new")]) = true
    /\ classify
         (VDict [(KStr "__fqn__", VStr "shop.Tag"); (KStr "__version__", VInt 3);
                 (KStr "label", VStr "new")])
       = ObjectEnvelope.
Proof.
  apply (@object_envelope_metadata (serialise_data plain_marshall)
           example_resolver "app.shop" "Tag" [("__version__", VInt 3)] None
           [("label", VStr "new")]).
  reflexivity.
Defined.

Lemma getattr_agree {A} (ca ca' vars vars' : list (string * A)) (name : string) :
  dict_get String.eqb ca name = dict_get String.eqb ca' name ->
  dict_get String.eqb vars name = dict_get String.eqb vars' name ->
  getattr ca vars name = getattr ca' vars' name.
Proof. unfold getattr. now intros -> ->. Qed.

(** X11.  Of the attributes of the class, and of those of an instance that has
    a [get_json_data] method, only the version, the message identifier and
    the timestamp reach the envelope. *)
Theorem exported_attributes (f : value -> result value) (r : FqnResolver)
        (cls_module cls_name : string)
        (class_attrs class_attrs' : list (string * value))
        (json_data : option (list (string * value)))
        (vars vars' : list (string * value)) :
  (forall name, In name ["__version__"; "__msgid__"; "__timestamp__"] ->
        dict_get String.eqb class_attrs name
        = dict_get String.eqb class_attrs' name) ->
  (forall name, In name ["__version__"; "__msgid__"; "__timestamp__"] ->
        dict_get String.eqb vars name = dict_get String.eqb vars' name) ->
  (json_data = None -> vars = vars') ->
  _object_to_dict f r cls_module cls_name class_attrs json_data vars
  = _object_to_dict f r cls_module cls_name class_attrs' json_data vars'.
Proof.
  intros Hc Hv Hj. unfold _object_to_dict.
  rewrite !with_attr_dict_get.
  rewrite (getattr_agree _ _ _ _ "__version__"
             (Hc _ (or_introl eq_refl)) (Hv _ (or_introl eq_refl))).
  rewrite (getattr_agree _ _ _ _ "__msgid__"
             (Hc _ (or_intror (or_introl eq_refl)))
             (Hv _ (or_intror (or_introl eq_refl)))).
  rewrite (Hc "__timestamp__"), (Hv "__timestamp__") by (simpl; tauto).
  destruct json_data as [d|]; [reflexivity|].
  now rewrite (Hj eq_refl).
Qed.

Lemma exported_attributes_witness :
  _object_to_dict (serialise_data plain_marshall) example_resolver
    "app.shop" "Tag" [("kind", VStr "k")] (Some [("label", VStr "new")])
    [("secret", VInt 1)]
  = _object_to_dict (serialise_data plain_marshall) example_resolver
      "app.shop" "Tag" [] (Some [("label", VStr "new")]) [("label", VStr "old")].
Proof.
  apply (@exported_attributes (serialise_data plain_marshall) example_resolver
           "app.shop" "Tag" [("kind", VStr "k")] []
           (Some [("label", VStr "new")])
           [("secret", VInt 1)] [("label", VStr "old")]).
  - intros name [<-|[<-|[<-|[]]]]; reflexivity.
  - intros name [<-|[<-|[<-|[]]]]; reflexivity.
  - discriminate.
Defined.

(** ** Reading back *)

(** X12.  [from_json] reads every text [to_json] writes: the text is the
    printed form of the document of the encoded value, [json.loads] accepts
    it and returns that document, and the decoder works on it. *)
Theorem from_json_reads_to_json
        (import_module : string -> result (string -> option pyclass))
        (m : Marshall) (v : value) (text : string) :
  to_json m v = Ok text ->
  exists d j,
    serialise_data m v = Ok d
    /\ json_of_value d = Ok j
    /\ text = print j
    /\ json_loads text = Ok (value_of_json j)
    /\ from_json import_module m text
       = deserialise_data import_module m (value_of_json j).
Proof.
  unfold to_json, json_dumps. intros H.
  apply bind_ok in H as (d & Hd & H).
  apply bind_ok in H as (j & Hj & [= <-]).
  exists d, j. repeat split; trivial.
  - unfold json_loads. now rewrite parse_print.
  - unfold from_json, json_loads. now rewrite parse_print.
Qed.

Lemma from_json_reads_to_json_witness :
  exists d j,
    serialise_data example_marshall ledger = Ok d
    /\ json_of_value d = Ok j
    /\ print (JObj [("at", JObj [("__codec__", JStr "codecs.Datetime");
                                 ("params", JObj [("timestamp", JInt 7)])]);
                    ("lines", JArr [JObj [("qty", JInt 2); ("sku", JStr "x")]]);
                    ("total", JObj [("__codec__", JStr "codecs.Money");
                                    ("params", JObj [("amount", JInt 5)])])])
       = print j
    /\ json_loads
         (print (JObj [("at", JObj [("__codec__", JStr "codecs.Datetime");
                                    ("params", JObj [("timestamp", JInt 7)])]);
                       ("lines", JArr [JObj [("qty", JInt 2); ("sku", JStr "x")]]);
                       ("total", JObj [("__codec__", JStr "codecs.Money");
                                       ("params", JObj [("amount", JInt 5)])])]))
       = Ok (value_of_json j)
    /\ from_json example_modules example_marshall
         (print (JObj [("at", JObj [("__codec__", JStr "codecs.Datetime");
                                    ("params", JObj [("timestamp", JInt 7)])]);
                       ("lines", JArr [JObj [("qty", JInt 2); ("sku", JStr "x")]]);
                       ("total", JObj [("__codec__", JStr "codecs.Money");
                                       ("params", JObj [("amount", JInt 5)])])]))
       = deserialise_data example_modules example_marshall (value_of_json j).
Proof.
  apply (@from_json_reads_to_json example_modules example_marshall ledger).
  vm_compute. reflexivity.
Defined.

(** ** Enumerations *)

Lemma dict_get_set_key (d : list (key * value)) (k : key) (v : value) :
  dict_get key_eqb (dict_set key_eqb d k v) k = Some v.
Proof.
  induction d as [|[a x] d IH]; simpl.
  - now rewrite key_eqb_refl.
  - destruct (key_eqb k a) eqn:E; simpl; rewrite E; [reflexivity|exact IH].
Qed.

Lemma dict_get_set_text_other (d : list (key * value)) (a b : string)
      (v : value) :
  b <> a ->
  dict_get key_eqb (dict_set key_eqb d (KStr a) v) (KStr b)
  = dict_get key_eqb d (KStr b).
Proof.
  intros Hne. apply String.eqb_neq in Hne.
  induction d as [|[k x] d IH]; simpl.
  - now rewrite Hne.
  - destruct k as [|c|n|s]; simpl; try exact IH.
    destruct (String.eqb a s) eqn:E; simpl.
    + apply String.eqb_eq in E. subst s. now rewrite Hne.
    + now rewrite IH.
Qed.

(** X13.  An enumeration member is found by its name alone: the value stored
    in the envelope under [_value_] is never looked at. *)
Theorem enum_value_ignored
        (import_module : string -> result (string -> option pyclass))
        (m : Marshall) (kvs : list (key * value)) (x : value) :
  _is_enum_dict (VDict kvs) = true ->
  deserialise_data import_module m
    (VDict (dict_set key_eqb kvs (KStr "_value_") x))
  = deserialise_data import_module m (VDict kvs).
Proof.
  intros H. rewrite !deserialise_dict, !classify_dict.
  unfold _is_enum_dict in H. rewrite H.
  unfold key_in, dict_mem in *.
  rewrite dict_get_set_key, dict_get_set_text_other by discriminate.
  apply andb_true_iff in H as [_ Hn]. rewrite Hn. cbn [andb].
  unfold _dict_to_enum, getitem.
  now rewrite !dict_get_set_text_other by discriminate.
Qed.

Lemma enum_value_ignored_witness :
  deserialise_data example_modules plain_marshall
    (VDict (dict_set key_eqb
              [(KStr "__fqn__", VStr "shop.Colour"); (KStr "_name_", VStr "RED");
               (KStr "_value_", VInt 1)]
              (KStr "_value_") (VStr "anything")))
  = deserialise_data example_modules plain_marshall
      (VDict [(KStr "__fqn__", VStr "shop.Colour"); (KStr "_name_", VStr "RED");
              (KStr "_value_", VInt 1)]).
Proof.
  apply (@enum_value_ignored example_modules plain_marshall).
  reflexivity.
Defined.

(** ** The arguments of a constructor *)

Lemma for_fields_keys {A B} (f : A -> result B) (l : list (key * A))
      (r : list (string * B)) :
  for_fields f l = Ok r ->
  forall name, In name (map fst r) ->
               is_dunder name = false /\ In (KStr name) (map fst l).
Proof.
  revert r. induction l as [|[k a] l IH]; intros r.
  - intros [= <-] name [].
  - destruct k as [| | |s]; try discriminate.
    change (for_fields f ((KStr s, a) :: l))
      with (if is_dunder s then for_fields f l
            else b <- f a ;; r <- for_fields f l ;; Ok ((s, b) :: r)).
    destruct (is_dunder s) eqn:E.
    + intros H name Hin. destruct (IH _ H _ Hin). split; [trivial|now right].
    + intros H. apply bind_ok in H as (b & _ & H).
      apply bind_ok in H as (r' & Hr' & [= <-]).
      intros name [<-|Hin]; [split; [exact E|now left]|].
      destruct (IH _ Hr' _ Hin). split; [trivial|now right].
Qed.

Lemma dict_to_object_call
      (import_module : string -> result (string -> option pyclass))
      (rec : value -> result value) (r : FqnResolver)
      (kvs : list (key * value)) (res : value) :
  _dict_to_object import_module rec r kvs = Ok res ->
  exists c kwargs fqn,
    getitem kvs "__fqn__" = Ok fqn
    /\ fqn_to_type import_module r fqn = Ok c
    /\ cls_call c kwargs = Ok res
    /\ forall name, In name (map fst kwargs) ->
         name = "__msgid__" \/ name = "__timestamp__"
         \/ (is_dunder name = false /\ In (KStr name) (map fst kvs)).
Proof.
  unfold _dict_to_object. cbv zeta. intros H.
  apply bind_ok in H as (kwargs1 & H1 & H).
  apply bind_ok in H as (fields & Hf & H).
  apply bind_ok in H as (fqn & Hfqn & H).
  apply bind_ok in H as (c & Hc & H).
  exists c, (assign_all String.eqb kwargs1 fields), fqn.
  repeat split; trivial.
  intros name Hin. apply assign_all_keys in Hin as [Hin|Hin].
  - assert (H0 : forall n,
               In n (map fst match dict_get key_eqb kvs (KStr "__msgid__") with
                             | Some v => if truthy v then [("__msgid__", v)] else []
                             | None => []
                             end) -> n = "__msgid__").
    { intros n. destruct (dict_get key_eqb kvs (KStr "__msgid__")) as [v|];
        [destruct (truthy v)|]; simpl; intuition. }
    revert H1.
    match goal with
    | |- match ?w with _ => _ end = _ -> _ => destruct w as [[t'|]|]
    end.
    + intros H1. apply bind_ok in H1 as (t & _ & [= <-]).
      apply dict_set_keys in Hin as [Hin| ->]; [left; now apply H0|now right; left].
    + intros [= <-]. left. now apply H0.
    + intros [= <-]. left. now apply H0.
  - right. right. exact (for_fields_keys _ _ Hf _ Hin).
Qed.

(** X14.  The constructor of a decoded instance is called with the message
    identifier, the timestamp and the fields of the envelope whose names do
    not begin with the marker, and with nothing else: the type identifier
    and the version of the envelope are never passed to it. *)
Theorem constructor_arguments
        (import_module : string -> result (string -> option pyclass))
        (m : Marshall) (kvs : list (key * value)) (res : value) :
  classify (VDict kvs) = ObjectEnvelope ->
  deserialise_data import_module m (VDict kvs) = Ok res ->
  exists c kwargs fqn,
    getitem kvs "__fqn__" = Ok fqn
    /\ fqn_to_type import_module (_fqn_resolver m) fqn = Ok c
    /\ cls_call c kwargs = Ok res
    /\ (forall name, In name (map fst kwargs) ->
          name = "__msgid__" \/ name = "__timestamp__"
          \/ (is_dunder name = false /\ In (KStr name) (map fst kvs)))
    /\ ~ In "__fqn__" (map fst kwargs)
    /\ ~ In "__version__" (map fst kwargs).
Proof.
  intros Hc H. rewrite deserialise_dict, Hc in H.
  destruct (dict_to_object_call _ _ _ _ H) as (c & kwargs & fqn & H1 & H2 & H3 & H4).
  exists c, kwargs, fqn. repeat split; trivial.
  - intros Hin. destruct (H4 _ Hin) as [E|[E|[E _]]]; discriminate.
  - intros Hin. destruct (H4 _ Hin) as [E|[E|[E _]]]; discriminate.
Qed.

Lemma constructor_arguments_witness :
  exists c kwargs fqn,
    getitem [(KStr "__fqn__", VStr "shop.Tag"); (KStr "__version__", VInt 3);
             (KStr "label", VStr "new")] "__fqn__" = Ok fqn
    /\ fqn_to_type example_modules (_fqn_resolver plain_marshall) fqn = Ok c
    /\ cls_call c kwargs = Ok (tag "new")
    /\ (forall name, In name (map fst kwargs) ->
          name = "__msgid__" \/ name = "__timestamp__"
          \/ (is_dunder name = false
              /\ In (KStr name)
                   (map fst [(KStr "__fqn__", VStr "shop.Tag");
                             (KStr "__version__", VInt 3);
                             (KStr "label", VStr "new")])))
    /\ ~ In "__fqn__" (map fst kwargs)
    /\ ~ In "__version__" (map fst kwargs).
Proof.
  apply (@constructor_arguments example_modules plain_marshall
           [(KStr "__fqn__", VStr "shop.Tag"); (KStr "__version__", VInt 3);
            (KStr "label", VStr "new")] (tag "new")).
  - reflexivity.
  - vm_compute. reflexivity.
Defined.

(** ** Decoding what was decoded *)

(** X15.  Decoding leaves decoded data as it is: scalars, instances, lists
    and immutable mappings of them come back unchanged. *)
Theorem deserialise_data_fixes
        (import_module : string -> result (string -> option pyclass))
        (m : Marshall) (v : value) :
  frozen v -> deserialise_data import_module m v = Ok v.
Proof.
  induction v using value_nested_ind; intros Hf;
    inversion Hf as [| | | | | |? Hall|? Hd Hall]; subst; try reflexivity.
  - (* list *)
    cbn [deserialise_data]. rewrite mapM_fixed; [reflexivity|].
    rewrite Forall_forall in *. auto.
  - (* immutable mapping *)
    cbn [deserialise_data]. rewrite for_items_fixed, bind_Ok.
    + now rewrite assign_all_apart.
    + rewrite Forall_forall in *. auto.
Qed.

Lemma deserialise_data_fixes_witness :
  deserialise_data example_modules example_marshall
    (VMap [(KStr "tags", VList [tag "new"]); (KInt 1, VNone)])
  = Ok (VMap [(KStr "tags", VList [tag "new"]); (KInt 1, VNone)]).
Proof.
  apply (@deserialise_data_fixes example_modules example_marshall).
  apply frozen_map; [repeat constructor|].
  constructor; [|repeat constructor]. cbn [snd].
  apply frozen_list. constructor; [apply frozen_object|constructor].
Defined.

(** ** Envelopes that cannot be decoded *)

(** X16.  A codec envelope is decoded by the codec registered under the name
    it carries, which receives the parameters as they stand in the data, not
    decoded.  A name that is not registered raises KeyError with that name,
    before the parameters are looked at; an envelope without parameters
    raises KeyError as well. *)
Theorem codec_envelope_decoding
        (import_module : string -> result (string -> option pyclass))
        (m : Marshall) (kvs : list (key * value)) (name : string) :
  classify (VDict kvs) = CodecEnvelope ->
  getitem kvs "__codec__" = Ok (VStr name) ->
  deserialise_data import_module m (VDict kvs)
  = match dict_get String.eqb (_codecs m) name with
    | None => Err (KeyError (VStr name))
    | Some c =>
        match dict_get key_eqb kvs (KStr "params") with
        | Some params => deserialise c params
        | None => Err (KeyError (VStr "params"))
        end
    end.
Proof.
  intros Hc Hn. rewrite deserialise_dict, Hc.
  unfold _codec_dict_to_object. rewrite Hn, bind_Ok. cbn [hashable negb].
  destruct (dict_get String.eqb (_codecs m) name); [|reflexivity].
  unfold getitem. now destruct (dict_get key_eqb kvs (KStr "params")).
Qed.

Lemma codec_envelope_decoding_witness :
  deserialise_data example_modules example_marshall
    (VDict [(KStr "__codec__", VStr "codecs.Money");
            (KStr "params", VDict [(KStr "amount", VInt 5)])])
  = match dict_get String.eqb (_codecs example_marshall) "codecs.Money" with
    | None => Err (KeyError (VStr "codecs.Money"))
    | Some c =>
        match dict_get key_eqb
                [(KStr "__codec__", VStr "codecs.Money");
                 (KStr "params", VDict [(KStr "amount", VInt 5)])]
                (KStr "params") with
        | Some params => deserialise c params
        | None => Err (KeyError (VStr "params"))
        end
    end.
Proof.
  apply (@codec_envelope_decoding example_modules example_marshall
           [(KStr "__codec__", VStr "codecs.Money");
            (KStr "params", VDict [(KStr "amount", VInt 5)])] "codecs.Money");
    reflexivity.
Defined.

(** X17.  A mapping that holds both keys [_value_] and [_name_] is taken for
    the envelope of an enumeration member whatever else it holds: without a
    type identifier it is not decoded, the subscript [__fqn__] raises
    KeyError. *)
Theorem enum_shape_without_identifier
        (import_module : string -> result (string -> option pyclass))
        (m : Marshall) (kvs : list (key * value)) :
  _is_enum_dict (VDict kvs) = true ->
  key_in "__fqn__" kvs = false ->
  deserialise_data import_module m (VDict kvs)
  = Err (KeyError (VStr "__fqn__")).
Proof.
  intros He Hf. rewrite deserialise_dict, classify_dict.
  unfold _is_enum_dict in He. rewrite He.
  unfold _dict_to_enum, getitem. unfold key_in, dict_mem in Hf.
  now destruct (dict_get key_eqb kvs (KStr "__fqn__")).
Qed.

Lemma enum_shape_without_identifier_witness :
  deserialise_data example_modules plain_marshall
    (VDict [(KStr "_name_", VStr "n"); (KStr "_value_", VInt 1)])
  = Err (KeyError (VStr "__fqn__")).
Proof.
  apply (@enum_shape_without_identifier example_modules plain_marshall);
    reflexivity.
Defined.
